(** * beads-tui: work-plan parser and issue materializer

    A shallow embedding of [generate-issues.py]: the [Issue] value, the
    line scanner [WorkPlanParser.parse] and the three passes of
    [generate_issues] (epics, children, dependency edges with bounded retry),
    in script mode and in direct mode; and of [cleanup-duplicates.py]: the
    listing of the open epics, their grouping by title and the choice of the
    one that is kept.

    Text is modelled as [string] over 8-bit [ascii] characters, and the
    Python string methods the scripts use are written out below as they act
    on ASCII text ([str.isascii]): white space, digits and letters are the
    ASCII ones.  Python also counts characters outside ASCII as white space
    or digits, so the statements about arbitrary text carry the hypothesis
    that the text is ASCII.  The external [bd] command is a transition
    function on an abstract store. *)

From Stdlib Require Import ZArith Lia Bool Ascii String List.
From Stdlib Require Import Numbers.DecimalString Numbers.DecimalZ.
From Stdlib Require Import Numbers.DecimalPos.
From stdpp Require Import base option strings gmap.
Import ListNotations.

Local Open Scope string_scope.
Local Open Scope list_scope.

(** ** Python string primitives *)

Module PyStr.

(** [str.isspace] on one character of ASCII text: TAB..CR, FS..US and
    SPACE.  (Outside ASCII Python has further white space, such as U+00A0.) *)
Definition isspace (c : ascii) : bool :=
  let n := nat_of_ascii c in
  ((9 <=? n)%nat && (n <=? 13)%nat) || ((28 <=? n)%nat && (n <=? 32)%nat).

(** The decimal digits of ASCII text, which [\d] matches and [int] reads.
    (Outside ASCII Python has further decimal digits.) *)
Definition isdigit (c : ascii) : bool :=
  let n := nat_of_ascii c in (48 <=? n)%nat && (n <=? 57)%nat.

Fixpoint lstrip (s : string) : string :=
  match s with
  | EmptyString => EmptyString
  | String c s' => if isspace c then lstrip s' else s
  end.

Fixpoint rstrip (s : string) : string :=
  match s with
  | EmptyString => EmptyString
  | String c s' =>
      match rstrip s' with
      | EmptyString => if isspace c then EmptyString else String c EmptyString
      | r => String c r
      end
  end.

(** [s.strip()] *)
Definition strip (s : string) : string := rstrip (lstrip s).

(** Truth value of a string: non-empty. *)
Definition truthy (s : string) : bool :=
  match s with EmptyString => false | _ => true end.

(** [s.startswith(p)] *)
Definition startswith (p s : string) : bool := String.prefix p s.

(** [sub in s] *)
Fixpoint contains (sub s : string) : bool :=
  String.prefix sub s ||
  match s with
  | EmptyString => false
  | String _ s' => contains sub s'
  end.

(** [s[n:]] *)
Fixpoint slice_from (n : nat) (s : string) : string :=
  match n, s with
  | O, _ => s
  | S _, EmptyString => EmptyString
  | S n', String _ s' => slice_from n' s'
  end.

(** [s.lower()] on ASCII letters. *)
Definition lower_char (c : ascii) : ascii :=
  let n := nat_of_ascii c in
  if (65 <=? n)%nat && (n <=? 90)%nat then ascii_of_nat (n + 32) else c.

Fixpoint lower (s : string) : string :=
  match s with
  | EmptyString => EmptyString
  | String c s' => String (lower_char c) (lower s')
  end.

(** [s.split(sep)] for a one-character separator: always at least one piece. *)
Fixpoint split (sep : ascii) (s : string) : list string :=
  match s with
  | EmptyString => [EmptyString]
  | String c s' =>
      if Ascii.eqb c sep then EmptyString :: split sep s'
      else match split sep s' with
           | [] => [String c EmptyString]
           | p :: ps => String c p :: ps
           end
  end.

(** [s.split(sep, 1)]: cut at the first separator only. *)
Fixpoint split1 (sep : ascii) (s : string) : list string :=
  match s with
  | EmptyString => [EmptyString]
  | String c s' =>
      if Ascii.eqb c sep then [EmptyString; s']
      else match split1 sep s' with
           | [] => [String c EmptyString]
           | p :: ps => String c p :: ps
           end
  end.

(** [sep.join(parts)] *)
Fixpoint join (sep : string) (parts : list string) : string :=
  match parts with
  | [] => EmptyString
  | [p] => p
  | p :: ps => p +:+ sep +:+ join sep ps
  end.

(** Longest prefix of decimal digits, and what follows it. *)
Fixpoint span_digits (s : string) : string * string :=
  match s with
  | EmptyString => (EmptyString, EmptyString)
  | String c s' =>
      if isdigit c then let '(d, r) := span_digits s' in (String c d, r)
      else (EmptyString, s)
  end.

(** Remove a literal prefix, if it is there. *)
Fixpoint strip_prefix (p s : string) : option string :=
  match p, s with
  | EmptyString, _ => Some s
  | String a p', String b s' => if Ascii.eqb a b then strip_prefix p' s' else None
  | String _ _, EmptyString => None
  end.

Definition digit_val (c : ascii) : Z := Z.of_nat (nat_of_ascii c - 48).

(** Digits of an integer literal after the sign: groups of digits separated
    by single underscores, as [int] accepts them.  [acc] is the value read so
    far, [prev] tells whether the previous character was a digit. *)
Fixpoint int_digits (s : string) (acc : Z) (prev : bool) : option Z :=
  match s with
  | EmptyString => if prev then Some acc else None
  | String c s' =>
      if isdigit c then int_digits s' (10 * acc + digit_val c)%Z true
      else if Ascii.eqb c "_"%char then
        (if prev then int_digits s' acc false else None)
      else None
  end.

(** The digit characters of a literal; underscores are not counted. *)
Fixpoint count_digits (s : string) : N :=
  match s with
  | EmptyString => 0%N
  | String c s' => if isdigit c then N.succ (count_digits s') else count_digits s'
  end.

(** [sys.get_int_max_str_digits()], at its default. *)
Definition max_str_digits : N := 4300%N.

(** The digits of a literal after its sign: a literal with more digit
    characters than the limit is refused whatever else it holds. *)
Definition int_literal (d : string) : option Z :=
  if (count_digits d <=? max_str_digits)%N then int_digits d 0%Z false
  else None.

(** [int(s)] on text: surrounding white space, an optional sign, digits.
    [None] stands for [ValueError]. *)
Definition int (s : string) : option Z :=
  match strip s with
  | String "-" d => option_map Z.opp (int_literal d)
  | String "+" d => int_literal d
  | d => int_literal d
  end.

(** [s.isascii()] *)
Fixpoint isascii (s : string) : bool :=
  match s with
  | EmptyString => true
  | String c s' => (nat_of_ascii c <? 128)%nat && isascii s'
  end.

(** [str(n)] *)
Definition str_of_Z (n : Z) : string := NilZero.string_of_int (Z.to_int n).

(** [str(x)] for a value that is a string or [None]. *)
Definition str_of_opt (x : option string) : string :=
  match x with Some s => s | None => "None" end.

End PyStr.

(** ** The five line patterns of [WorkPlanParser]

    Each function is [re.match] of one pattern against a line and returns the
    two groups.  Every [\d+] is followed by a character that is not a digit,
    so the greedy digit run is the only way to match. *)

Module Pattern.
Import PyStr.

Definition newline : ascii := "010"%char.

(** Longest prefix without a newline, and what follows it. *)
Fixpoint span_line (s : string) : string * string :=
  match s with
  | EmptyString => (EmptyString, EmptyString)
  | String c s' =>
      if Ascii.eqb c newline then (EmptyString, s)
      else let '(a, r) := span_line s' in (String c a, r)
  end.

(** [(.+)$]: one or more characters other than newline, up to the end of
    the text or to a final newline. *)
Definition dot_plus_eol (s : string) : option string :=
  let '(a, r) := span_line s in
  if truthy a && (String.eqb r EmptyString || String.eqb r (String newline EmptyString))
  then Some a else None.

(** [\d+] *)
Definition digits1 (s : string) : option (string * string) :=
  let '(d, r) := span_digits s in
  if truthy d then Some (d, r) else None.

(** [EPIC_PATTERN = r'^## Epic (\d+): (.+)$'] *)
Definition EPIC_PATTERN (line : string) : option (string * string) :=
  r ← strip_prefix "## Epic " line;
  '(num, r) ← digits1 r;
  r ← strip_prefix ": " r;
  t ← dot_plus_eol r;
  Some (num, t).

(** [FEATURE_PATTERN = r'^#### (\d+\.\d+) (.+)$'] *)
Definition FEATURE_PATTERN (line : string) : option (string * string) :=
  r ← strip_prefix "#### " line;
  '(a, r) ← digits1 r;
  r ← strip_prefix "." r;
  '(b, r) ← digits1 r;
  r ← strip_prefix " " r;
  t ← dot_plus_eol r;
  Some (a +:+ "." +:+ b, t).

(** [TASK_PATTERN = r'^\*\*(\d+\.\d+\.\d+)\*\* (.+)$'] *)
Definition TASK_PATTERN (line : string) : option (string * string) :=
  r ← strip_prefix "**" line;
  '(a, r) ← digits1 r;
  r ← strip_prefix "." r;
  '(b, r) ← digits1 r;
  r ← strip_prefix "." r;
  '(c, r) ← digits1 r;
  r ← strip_prefix "** " r;
  t ← dot_plus_eol r;
  Some (a +:+ "." +:+ b +:+ "." +:+ c, t).

(** [r'^\*\*(\d+\.X\.\d+)\*\* (.+)$'] for a letter [X]. *)
Definition lettered (x : string) (line : string) : option (string * string) :=
  r ← strip_prefix "**" line;
  '(a, r) ← digits1 r;
  r ← strip_prefix ("." +:+ x +:+ ".") r;
  '(b, r) ← digits1 r;
  r ← strip_prefix "** " r;
  t ← dot_plus_eol r;
  Some (a +:+ "." +:+ x +:+ "." +:+ b, t).

(** [CHORE_PATTERN = r'^\*\*(\d+\.C\.\d+)\*\* (.+)$'] *)
Definition CHORE_PATTERN : string → option (string * string) := lettered "C".

(** [BUG_PATTERN = r'^\*\*(\d+\.B\.\d+)\*\* (.+)$'] *)
Definition BUG_PATTERN : string → option (string * string) := lettered "B".

End Pattern.

(** ** [class Issue] *)

Record Issue := mkIssue {
  title : string;
  issue_type : string;            (* bug, feature, task, epic, chore *)
  priority : Z;
  description : string;
  parent : option string;
  epic_id : option string;
  beads_id : option string        (* set after creation *)
}.

(** [Issue(title, issue_type, priority, description='', parent=None,
    epic_id=None)]; [beads_id] starts as [None]. *)
Definition new_Issue (t ty : string) (p : Z) (d : string)
    (par eid : option string) : Issue :=
  mkIssue t ty p d par eid None.

(** Exceptions that can leave [parse]. *)
Inductive exn :=
  | ValueError
  | IndexError
  | AttributeError
  | UnicodeDecodeError.

Inductive outcome (A : Type) :=
  | Returned (a : A)
  | Raised (e : exn).
Arguments Returned {A} a.
Arguments Raised {A} e.

(** ** [class WorkPlanParser] *)

Module WorkPlanParser.
Import PyStr Pattern.

(** The locals of [parse] that survive one iteration of the main loop.
    ([current_epic] and [current_feature_desc] are assigned and never read.) *)
Record cursor := mkCursor {
  current_epic_num : option string;
  current_section : option string
}.

Definition start : cursor := mkCursor None None.

(** Inner loop of the epic branch: the lines after the [**Description:**]
    marker, up to a blank line, a line starting with [###] or the end. *)
Fixpoint collect_description (rest : list string) : list string :=
  match rest with
  | [] => []
  | l :: rest' =>
      if truthy (strip l) then
        if negb (startswith "###" (strip l))
        then strip l :: collect_description rest'
        else []
      else []
  end.

(** Outer loop of the epic branch, from [j = i + 1]: find the first line
    whose stripped text starts with [**Description:**]. *)
Fixpoint epic_description (rest : list string) : list string :=
  match rest with
  | [] => []
  | l :: rest' =>
      if startswith "**Description:**" (strip l)
      then collect_description rest'
      else epic_description rest'
  end.

(** Locals of the feature branch. *)
Record attrs := mkAttrs {
  a_priority : Z;
  a_issue_type : string;
  a_desc_lines : list string
}.

Definition default_attrs : attrs := mkAttrs 2 "feature" [].

(** [xs[k]] *)
Definition index {A} (xs : list A) (k : nat) : outcome A :=
  match nth_error xs k with
  | Some x => Returned x
  | None => Raised IndexError
  end.

(** [int(next_line.split(":")[1].split("(")[0].strip())] *)
Definition priority_of (next_line : string) : outcome Z :=
  match index (split ":" next_line) 1 with
  | Raised e => Raised e
  | Returned v =>
      match index (split "(" v) 0 with
      | Raised e => Raised e
      | Returned w =>
          match int (strip w) with
          | Some n => Returned n
          | None => Raised ValueError
          end
      end
  end.

(** [next_line.split(":")[1].strip()] *)
Definition type_of (next_line : string) : outcome string :=
  match index (split ":" next_line) 1 with
  | Raised e => Raised e
  | Returned v => Returned (strip v)
  end.

(** [next_line.split(":", 1)[1].strip()] *)
Definition description_of (next_line : string) : outcome string :=
  match index (split1 ":" next_line) 1 with
  | Raised e => Raised e
  | Returned v => Returned (strip v)
  end.

(** Look-ahead loop of the feature branch, from [j = i + 1]. *)
Fixpoint feature_attrs (rest : list string) (a : attrs) : outcome attrs :=
  match rest with
  | [] => Returned a
  | l :: rest' =>
      let next_line := strip l in
      if negb (truthy next_line) then Returned a
      else if startswith "- Priority:" next_line then
        match priority_of next_line with
        | Raised e => Raised e
        | Returned n =>
            feature_attrs rest' (mkAttrs n (a_issue_type a) (a_desc_lines a))
        end
      else if startswith "- Type:" next_line then
        match type_of next_line with
        | Raised e => Raised e
        | Returned t =>
            feature_attrs rest' (mkAttrs (a_priority a) t (a_desc_lines a))
        end
      else if startswith "- Description:" next_line then
        match description_of next_line with
        | Raised e => Raised e
        | Returned d =>
            feature_attrs rest'
              (mkAttrs (a_priority a) (a_issue_type a) (a_desc_lines a ++ [d]))
        end
      else if startswith "**" next_line || startswith "###" next_line
      then Returned a
      else feature_attrs rest' a
  end.

(** [current_section and name in current_section] *)
Definition in_section (name : string) (sec : option string) : bool :=
  match sec with
  | Some s => truthy s && contains name s
  | None => false
  end.

(** [f"epic-{current_epic_num}"] *)
Definition parent_ref (num : option string) : string :=
  "epic-" +:+ str_of_opt num.

(** Which branch of the loop body a (stripped) line takes; the tests are
    tried in the order of the source. *)
Inductive branch :=
  | BEpic (epic_num epic_title : string)
  | BSection (section_name : string)
  | BFeature (feature_title : string)
  | BTask (task_title : string)
  | BChore (chore_title : string)
  | BBug (bug_title : string)
  | BSkip.

Definition guarded (m : option (string * string)) (g : bool) : option string :=
  match m with
  | Some (_, t) => if g then Some t else None
  | None => None
  end.

Definition classify (line : string) (sec : option string) : branch :=
  match EPIC_PATTERN line with
  | Some (epic_num, epic_title) => BEpic epic_num epic_title
  | None =>
  if startswith "### " line then BSection (strip (slice_from 4 line)) else
  match guarded (FEATURE_PATTERN line) (in_section "features" sec) with
  | Some t => BFeature t
  | None =>
  match guarded (TASK_PATTERN line) (in_section "tasks" sec) with
  | Some t => BTask t
  | None =>
  match guarded (CHORE_PATTERN line) (in_section "chores" sec) with
  | Some t => BChore t
  | None =>
  match guarded (BUG_PATTERN line) (in_section "potential bugs" sec) with
  | Some t => BBug t
  | None => BSkip
  end end end end end.

(** One iteration of [while i < len(lines)]: [raw] is [lines[i]], [rest] is
    [lines[i+1:]].  Gives the issue appended to [self.issues], if any, and
    the locals for the next iteration.  Every branch ends in [i += 1]. *)
Definition body (raw : string) (rest : list string) (st : cursor)
    : outcome (option Issue * cursor) :=
  let line := strip raw in
  match classify line (current_section st) with
  | BEpic epic_num epic_title =>
      let description := join " " (epic_description rest) in
      Returned
        (Some (new_Issue epic_title "epic" 1 description None (Some epic_num)),
         mkCursor (Some epic_num) (current_section st))
  | BSection section_name =>
      Returned (None, mkCursor (current_epic_num st) (Some (lower section_name)))
  | BFeature feature_title =>
      match feature_attrs rest default_attrs with
      | Raised e => Raised e
      | Returned a =>
          Returned
            (Some (new_Issue feature_title (a_issue_type a) (a_priority a)
                     (join " " (a_desc_lines a))
                     (Some (parent_ref (current_epic_num st))) None),
             st)
      end
  | BTask task_title =>
      Returned
        (Some (new_Issue task_title "task" 2 EmptyString
                 (Some (parent_ref (current_epic_num st))) None), st)
  | BChore chore_title =>
      Returned
        (Some (new_Issue chore_title "chore" 3 EmptyString
                 (Some (parent_ref (current_epic_num st))) None), st)
  | BBug bug_title =>
      Returned
        (Some (new_Issue bug_title "bug" 4 EmptyString
                 (Some (parent_ref (current_epic_num st))) None), st)
  | BSkip => Returned (None, st)
  end.

(** The main loop from index [i], with [lines] standing for [lines[i:]] and
    [acc] for [self.issues].  The list is returned on an exception too: the
    appends made before it stay in the object. *)
Fixpoint parse_loop (lines : list string) (st : cursor) (acc : list Issue)
    : list Issue * option exn :=
  match lines with
  | [] => (acc, None)
  | raw :: rest =>
      match body raw rest st with
      | Raised e => (acc, Some e)
      | Returned (emitted, st') =>
          parse_loop rest st' (acc ++ from_option (λ x, [x]) [] emitted)
      end
  end.

(** The parser object.  [issues] is the one list object created by
    [__init__]; [parse] appends to it and returns that same object. *)
Record t := mkParser {
  workplan_path : string;
  issues : list Issue;
  epic_map : gmap string string
}.

(** [WorkPlanParser(workplan_path)] *)
Definition init (path : string) : t := mkParser path [] ∅.

(** A reference to the list bound to [self.issues]. *)
Inductive issues_ref := SelfIssues.

(** What a holder of the reference sees when the parser is in state [self]. *)
Definition read_ref (self : t) (r : issues_ref) : list Issue := issues self.

(** [parse(self)], where [content] is the text [f.read()] returns for
    [self.workplan_path] and [lines_of] is [content.split('\n')]. *)
Definition lines_of (content : string) : list string := split newline content.

Definition parse (content : string) (self : t) : t * outcome issues_ref :=
  let lines := lines_of content in
  let '(acc, e) := parse_loop lines start (issues self) in
  (mkParser (workplan_path self) acc (epic_map self),
   match e with
   | None => Returned SelfIssues
   | Some e => Raised e
   end).

(** [WorkPlanParser(path).parse()] on a new object, as [generate_issues]
    calls it: the value of the returned list. *)
Definition parse_new (path content : string) : outcome (list Issue) :=
  let '(self, r) := parse content (init path) in
  match r with
  | Returned r => Returned (read_ref self r)
  | Raised e => Raised e
  end.

(** *** Reading the loop line by line *)

(** The locals after one iteration on [raw]. *)
Definition next_cursor (raw : string) (st : cursor) : cursor :=
  match classify (strip raw) (current_section st) with
  | BEpic epic_num _ => mkCursor (Some epic_num) (current_section st)
  | BSection section_name =>
      mkCursor (current_epic_num st) (Some (lower section_name))
  | _ => st
  end.

(** The locals when the loop reaches the line that follows [pre]. *)
Definition cursor_after (pre : list string) (st : cursor) : cursor :=
  fold_left (λ s raw, next_cursor raw s) pre st.

(** The iteration at index [i] of a scan of [lines] begun with locals [st]
    appends [it]. *)
Definition emitted_at (st : cursor) (lines : list string) (i : nat)
    (it : Issue) : Prop :=
  ∃ raw st',
    lines !! i = Some raw ∧
    body raw (drop (S i) lines) (cursor_after (take i lines) st)
      = Returned (Some it, st').


(** The branches that append a feature, task, chore or bug. *)
Definition item_branch (b : branch) : bool :=
  match b with
  | BFeature _ | BTask _ | BChore _ | BBug _ => true
  | _ => false
  end.

(** [startswith] of the priority attribute marker. *)
Definition is_priority_line (next_line : string) : bool :=
  startswith "- Priority:" next_line.

(** [next_line.startswith("**") or next_line.startswith("###")] *)
Definition fence (next_line : string) : bool :=
  startswith "**" next_line || startswith "###" next_line.

(** The attribute block of a feature line: the stripped lines its
    look-ahead visits, up to a blank line or a line starting with two stars
    or three hashes. *)
Fixpoint attr_block (rest : list string) : list string :=
  match rest with
  | [] => []
  | l :: rest' =>
      let next_line := strip l in
      if negb (truthy next_line) then []
      else if fence next_line then []
      else next_line :: attr_block rest'
  end.

(** Value of a run of decimal digits. *)
Definition decimal (ds : string) : Z :=
  fold_left (λ acc c, 10 * acc + digit_val c)%Z (list_ascii_of_string ds) 0%Z.

Definition all_chars (P : ascii → bool) (s : string) : bool :=
  forallb P (list_ascii_of_string s).

End WorkPlanParser.

Definition nl : string := String Pattern.newline EmptyString.
Definition unlines (ls : list string) : string := PyStr.join nl ls.

(** ** [Issue.to_command] *)

(** [f'"{arg}"' if " " in str(arg) else str(arg)] *)
Definition dquote : string := String "034"%char EmptyString.

Definition quote_arg (arg : string) : string :=
  if PyStr.contains " " arg then dquote +:+ arg +:+ dquote else arg.

Definition to_command (self : Issue) (bd_path : string) : string :=
  let cmd := [bd_path; "create"; title self] in
  let cmd := cmd ++ ["-t"; issue_type self] in
  let cmd := cmd ++ ["-p"; PyStr.str_of_Z (priority self)] in
  let cmd :=
    if PyStr.truthy (description self)
    then cmd ++ ["-d"; description self] else cmd in
  let cmd := cmd ++ ["--json"] in
  PyStr.join " " (map quote_arg cmd).

(** ** [generate_issues], executing the commands (no [--output] file)

    The [bd] store is a state [W] with two transitions: [bd_create] is what
    [execute_command] obtains from running a create command ([Some id] when
    the process succeeds and its JSON output is decoded, [None] when either
    raises), [bd_dep_add] is [subprocess.run(dep_cmd, ..., check=True)]. *)

Inductive completed :=
  | Completed
  | CalledProcessError (stderr : string).

(** Calls that leave the process, in order.  Delays are in milliseconds. *)
Inductive event :=
  | Exec (cmd : string)
  | Sleep (ms : Z).

(** A Python [dict] from strings to strings, in insertion order. *)
Definition dict := list (string * string).

(** [d[k] = v]: an existing key keeps its place. *)
Fixpoint dict_set (d : dict) (k v : string) : dict :=
  match d with
  | [] => [(k, v)]
  | (k', v') :: d' =>
      if String.eqb k' k then (k', v) :: d' else (k', v') :: dict_set d' k v
  end.

Section Materializer.

Variable W : Type.
Variable bd_create : string → W → option string * W.
Variable bd_dep_add : string → W → completed * W.
(** [f"bd-{abs(hash(cmd)) % 100000:05x}"], the identifier of a dry run. *)
Variable dry_run_id : string → string.

(** The store and what has been sent to it so far. *)
Record world := mkWorld {
  store : W;
  log : list event
}.

(** [execute_command(cmd, dry_run)] *)
Definition execute_command (cmd : string) (dry_run : bool) (w : world)
    : (bool * string) * world :=
  if dry_run then ((true, dry_run_id cmd), w)
  else
    let '(r, st) := bd_create cmd (store w) in
    let w' := mkWorld st (log w ++ [Exec cmd]) in
    match r with
    | Some issue_id => ((true, issue_id), w')
    | None => ((false, EmptyString), w')
    end.

Definition set_beads_id (issue : Issue) (issue_id : string) : Issue :=
  mkIssue (title issue) (issue_type issue) (priority issue)
    (description issue) (parent issue) (epic_id issue) (Some issue_id).

(** First pass: [for issue in issues: if issue.issue_type == "epic": ...].
    Returns the issues with [beads_id] assigned, and [epic_map]. *)
Fixpoint create_epics (bd_path : string) (dry_run : bool)
    (issues : list Issue) (epic_map : gmap string string) (w : world)
    : list Issue * gmap string string * world :=
  match issues with
  | [] => ([], epic_map, w)
  | issue :: more =>
      if String.eqb (issue_type issue) "epic" then
        let cmd := to_command issue bd_path in
        let '((success, issue_id), w) := execute_command cmd dry_run w in
        if success then
          let '(more', m, w) :=
            create_epics bd_path dry_run more
              (<[WorkPlanParser.parent_ref (epic_id issue) := issue_id]> epic_map) w in
          (set_beads_id issue issue_id :: more', m, w)
        else
          let '(more', m, w) := create_epics bd_path dry_run more epic_map w in
          (issue :: more', m, w)
      else
        let '(more', m, w) := create_epics bd_path dry_run more epic_map w in
        (issue :: more', m, w)
  end.

(** [epic_map.get(issue.parent, '') if issue.parent else ''] *)
Definition resolve_parent (epic_map : gmap string string) (issue : Issue)
    : string :=
  match parent issue with
  | Some p =>
      if PyStr.truthy p then default EmptyString (epic_map !! p)
      else EmptyString
  | None => EmptyString
  end.

(** Second pass: [for issue in issues: if issue.issue_type != "epic": ...]. *)
Fixpoint create_children (bd_path : string) (dry_run : bool)
    (epic_map : gmap string string)
    (issues : list Issue) (parent_map : dict) (w : world)
    : list Issue * dict * world :=
  match issues with
  | [] => ([], parent_map, w)
  | issue :: more =>
      if negb (String.eqb (issue_type issue) "epic") then
        let parent_id := resolve_parent epic_map issue in
        let cmd := to_command issue bd_path in
        let '((success, issue_id), w) := execute_command cmd dry_run w in
        if success then
          let parent_map :=
            if PyStr.truthy parent_id
            then dict_set parent_map issue_id parent_id else parent_map in
          let '(more', pm, w) :=
            create_children bd_path dry_run epic_map more parent_map w in
          (set_beads_id issue issue_id :: more', pm, w)
        else
          let '(more', pm, w) :=
            create_children bd_path dry_run epic_map more parent_map w in
          (issue :: more', pm, w)
      else
        let '(more', pm, w) :=
          create_children bd_path dry_run epic_map more parent_map w in
        (issue :: more', pm, w)
  end.

(** [f'{bd_path} dep add "{child_id}" "{parent_id}"'] *)
Definition dep_cmd (bd_path child_id parent_id : string) : string :=
  bd_path +:+ " dep add " +:+ dquote +:+ child_id +:+ dquote +:+ " "
    +:+ dquote +:+ parent_id +:+ dquote.

(** Counters of the third pass. *)
Record tally := mkTally {
  success_count : Z;
  failed_count : Z
}.

(** [for retry in range(3)], with [retries] the values still to come. *)
Fixpoint retry_loop (retries : list Z) (cmd : string) (c : tally) (w : world)
    : tally * world :=
  match retries with
  | [] => (c, w)
  | retry :: more =>
      let '(r, st) := bd_dep_add cmd (store w) in
      let w := mkWorld st (log w ++ [Exec cmd]) in
      match r with
      | Completed =>
          (mkTally (success_count c + 1) (failed_count c),
           mkWorld (store w) (log w ++ [Sleep 50]))
      | CalledProcessError stderr =>
          if (retry <? 2)%Z && PyStr.contains "database is locked" stderr
          then retry_loop more cmd c
                 (mkWorld (store w) (log w ++ [Sleep (500 * (retry + 1))]))
          else (mkTally (success_count c) (failed_count c + 1), w)
      end
  end.

(** Body of [for i, (child_id, parent_id) in enumerate(parent_map.items())]. *)
Definition link_edge (bd_path : string) (edge : string * string)
    (c : tally) (w : world) : tally * world :=
  retry_loop [0; 1; 2]%Z (dep_cmd bd_path edge.1 edge.2) c w.

Fixpoint link_edges (bd_path : string) (edges : dict) (c : tally) (w : world)
    : tally * world :=
  match edges with
  | [] => (c, w)
  | edge :: more =>
      let '(c, w) := link_edge bd_path edge c w in
      link_edges bd_path more c w
  end.

(** What a run leaves behind. *)
Record report := mkReport {
  r_issues : list Issue;
  r_epic_map : gmap string string;
  r_parent_map : dict;
  r_tally : option tally;        (* [None]: the third pass was skipped *)
  r_world : world
}.

(** The three passes on a parsed list. *)
Definition materialize (bd_path : string) (dry_run : bool)
    (issues : list Issue) (w : world) : report :=
  let '(issues, epic_map, w) := create_epics bd_path dry_run issues ∅ w in
  let '(issues, parent_map, w) :=
    create_children bd_path dry_run epic_map issues [] w in
  match parent_map with
  | _ :: _ =>
      if negb dry_run then
        let '(c, w) := link_edges bd_path parent_map (mkTally 0 0) w in
        mkReport issues epic_map parent_map (Some c) w
      else mkReport issues epic_map parent_map None w
  | [] => mkReport issues epic_map parent_map None w
  end.

(** [generate_issues(workplan_path, bd_path, dry_run)]: an exception of
    [parse] leaves before the first command. *)
Definition generate_issues (workplan_path content bd_path : string)
    (dry_run : bool) (w : world) : outcome report :=
  match WorkPlanParser.parse_new workplan_path content with
  | Raised e => Raised e
  | Returned issues => Returned (materialize bd_path dry_run issues w)
  end.

End Materializer.

Arguments mkWorld {W} _ _.
Arguments store {W} _.
Arguments log {W} _.

(** ** The run when [execute_command] raises

    [execute_command] catches [CalledProcessError] and [JSONDecodeError].
    Whatever else its [try] block raises leaves the function, and nothing
    in [generate_issues] catches it: [AttributeError] from [output.get]
    when the command succeeds and prints valid JSON that is no object,
    [UnicodeDecodeError] when its output cannot be decoded.  The passes are
    written out once more for a store with that third kind of answer; each
    returns what it raises, if anything, with the world it leaves.
    [Object] holds the value of [output.get("id", '')], which is taken to
    be text. *)

Inductive answer :=
  | Object (issue_id : string)
  | Failure
  | Raises (e : exn).

(** The answer as [execute_command] above sees it. *)
Definition answered (a : answer) : option string :=
  match a with
  | Object issue_id => Some issue_id
  | Failure | Raises _ => None
  end.

Definition caught {W : Type} (bd_create : string → W → answer * W)
    (cmd : string) (st : W) : option string * W :=
  (answered (bd_create cmd st).1, (bd_create cmd st).2).

Module Uncaught.

Section Uncaught.

Variable W : Type.
Variable bd_create : string → W → answer * W.
Variable bd_dep_add : string → W → completed * W.
Variable dry_run_id : string → string.

(** [execute_command(cmd, dry_run)] *)
Definition execute_command (cmd : string) (dry_run : bool) (w : world W)
    : outcome (bool * string) * world W :=
  if dry_run then (Returned (true, dry_run_id cmd), w)
  else
    let '(r, st) := bd_create cmd (store w) in
    let w' := mkWorld st (log w ++ [Exec cmd]) in
    match r with
    | Object issue_id => (Returned (true, issue_id), w')
    | Failure => (Returned (false, EmptyString), w')
    | Raises e => (Raised e, w')
    end.

(** First pass. *)
Fixpoint create_epics (bd_path : string) (dry_run : bool)
    (issues : list Issue) (epic_map : gmap string string) (w : world W)
    : outcome (list Issue * gmap string string) * world W :=
  match issues with
  | [] => (Returned ([], epic_map), w)
  | issue :: more =>
      if String.eqb (issue_type issue) "epic" then
        let cmd := to_command issue bd_path in
        match execute_command cmd dry_run w with
        | (Raised e, w) => (Raised e, w)
        | (Returned (success, issue_id), w) =>
            if success then
              match
                create_epics bd_path dry_run more
                  (<[WorkPlanParser.parent_ref (epic_id issue) := issue_id]>
                     epic_map) w
              with
              | (Raised e, w) => (Raised e, w)
              | (Returned (more', m), w) =>
                  (Returned (set_beads_id issue issue_id :: more', m), w)
              end
            else
              match create_epics bd_path dry_run more epic_map w with
              | (Raised e, w) => (Raised e, w)
              | (Returned (more', m), w) => (Returned (issue :: more', m), w)
              end
        end
      else
        match create_epics bd_path dry_run more epic_map w with
        | (Raised e, w) => (Raised e, w)
        | (Returned (more', m), w) => (Returned (issue :: more', m), w)
        end
  end.

(** Second pass. *)
Fixpoint create_children (bd_path : string) (dry_run : bool)
    (epic_map : gmap string string)
    (issues : list Issue) (parent_map : dict) (w : world W)
    : outcome (list Issue * dict) * world W :=
  match issues with
  | [] => (Returned ([], parent_map), w)
  | issue :: more =>
      if negb (String.eqb (issue_type issue) "epic") then
        let parent_id := resolve_parent epic_map issue in
        let cmd := to_command issue bd_path in
        match execute_command cmd dry_run w with
        | (Raised e, w) => (Raised e, w)
        | (Returned (success, issue_id), w) =>
            if success then
              let parent_map :=
                if PyStr.truthy parent_id
                then dict_set parent_map issue_id parent_id
                else parent_map in
              match
                create_children bd_path dry_run epic_map more parent_map w
              with
              | (Raised e, w) => (Raised e, w)
              | (Returned (more', pm), w) =>
                  (Returned (set_beads_id issue issue_id :: more', pm), w)
              end
            else
              match
                create_children bd_path dry_run epic_map more parent_map w
              with
              | (Raised e, w) => (Raised e, w)
              | (Returned (more', pm), w) =>
                  (Returned (issue :: more', pm), w)
              end
        end
      else
        match create_children bd_path dry_run epic_map more parent_map w with
        | (Raised e, w) => (Raised e, w)
        | (Returned (more', pm), w) => (Returned (issue :: more', pm), w)
        end
  end.

(** The three passes on a parsed list. *)
Definition materialize (bd_path : string) (dry_run : bool)
    (issues : list Issue) (w : world W) : outcome (report W) * world W :=
  match create_epics bd_path dry_run issues ∅ w with
  | (Raised e, w) => (Raised e, w)
  | (Returned (issues, epic_map), w) =>
      match create_children bd_path dry_run epic_map issues [] w with
      | (Raised e, w) => (Raised e, w)
      | (Returned (issues, parent_map), w) =>
          match parent_map with
          | _ :: _ =>
              if negb dry_run then
                let '(c, w) :=
                  link_edges W bd_dep_add bd_path parent_map (mkTally 0 0) w in
                (Returned (mkReport W issues epic_map parent_map (Some c) w),
                 w)
              else
                (Returned (mkReport W issues epic_map parent_map None w), w)
          | [] => (Returned (mkReport W issues epic_map parent_map None w), w)
          end
      end
  end.

(** [generate_issues(workplan_path, bd_path, dry_run)] *)
Definition generate_issues (workplan_path content bd_path : string)
    (dry_run : bool) (w : world W) : outcome (report W) * world W :=
  match WorkPlanParser.parse_new workplan_path content with
  | Raised e => (Raised e, w)
  | Returned issues => materialize bd_path dry_run issues w
  end.

End Uncaught.

End Uncaught.

(** ** [generate_issues] with an [--output] file

    The text written to the file, as the concatenation of the [f.write]
    calls.  The second and third pass end their pieces with the two
    characters backslash and n, as the source writes them. *)

Module Script.

(** The two characters written for the doubled backslash followed by n. *)
Definition backslash_n : string := String "092"%char "n".

(** [f"EPIC_{issue.epic_id}"] *)
Definition epic_var (issue : Issue) : string :=
  "EPIC_" +:+ PyStr.str_of_opt (epic_id issue).

(** [f"ISSUE_{len(child_issues)}"] *)
Definition issue_var (child_issues : list (string * string)) : string :=
  "ISSUE_" +:+ PyStr.str_of_Z (Z.of_nat (length child_issues)).

(** [f"{var_name}=$({cmd} | jq -r '.id')"], before the line end. *)
Definition assignment (var_name cmd : string) : string :=
  var_name +:+ "=$(" +:+ cmd +:+ " | jq -r '.id')".

(** First pass: the text and [epic_map]. *)
Fixpoint epics (bd_path : string) (issues : list Issue)
    (epic_map : gmap string string) : string * gmap string string :=
  match issues with
  | [] => (EmptyString, epic_map)
  | issue :: more =>
      if String.eqb (issue_type issue) "epic" then
        let var_name := epic_var issue in
        let cmd := to_command issue bd_path in
        let text :=
          assignment var_name cmd +:+ nl
          +:+ "echo " +:+ dquote +:+ "Created epic $" +:+ var_name +:+ ": "
          +:+ title issue +:+ dquote +:+ nl +:+ nl in
        let '(rest, m) :=
          epics bd_path more
            (<[WorkPlanParser.parent_ref (epic_id issue) := "$" +:+ var_name]>
               epic_map) in
        (text +:+ rest, m)
      else epics bd_path more epic_map
  end.

(** [epic_map.get(issue.parent, '') if issue.parent else ''] *)
Definition parent_var (epic_map : gmap string string) (issue : Issue)
    : string :=
  match parent issue with
  | Some p =>
      if PyStr.truthy p then default EmptyString (epic_map !! p)
      else EmptyString
  | None => EmptyString
  end.

(** Second pass: the text and [child_issues]. *)
Fixpoint children (bd_path : string) (epic_map : gmap string string)
    (issues : list Issue) (child_issues : list (string * string))
    : string * list (string * string) :=
  match issues with
  | [] => (EmptyString, child_issues)
  | issue :: more =>
      if negb (String.eqb (issue_type issue) "epic") then
        let pv := parent_var epic_map issue in
        let cmd := to_command issue bd_path in
        let var_name := issue_var child_issues in
        let text := assignment var_name cmd +:+ backslash_n in
        let child_issues :=
          if PyStr.truthy pv
          then child_issues ++ [("$" +:+ var_name, pv)] else child_issues in
        let '(rest, cs) := children bd_path epic_map more child_issues in
        (text +:+ rest, cs)
      else children bd_path epic_map more child_issues
  end.

(** Third pass. *)
Fixpoint dependencies (bd_path : string)
    (child_issues : list (string * string)) : string :=
  match child_issues with
  | [] => EmptyString
  | (child_var, pv) :: more =>
      bd_path +:+ " dep add " +:+ child_var +:+ " " +:+ pv +:+ backslash_n
      +:+ dependencies bd_path more
  end.

(** The writes before the first pass, with its comment line. *)
Definition preamble : string :=
  "#!/bin/bash" +:+ nl
  +:+ "# Auto-generated script to create beads issues from WORKPLAN.md"
  +:+ nl +:+ nl +:+ "set -e" +:+ nl +:+ nl
  +:+ "# Create epics" +:+ nl.

(** [if child_issues: ...], the third pass with its comment. *)
Definition third_pass (bd_path : string)
    (child_issues : list (string * string)) : string :=
  match child_issues with
  | [] => EmptyString
  | _ :: _ =>
      backslash_n +:+ "# Add parent-child dependencies" +:+ backslash_n
      +:+ dependencies bd_path child_issues
  end.

(** Everything written to [output_file]. *)
Definition generate (bd_path : string) (issues : list Issue) : string :=
  let '(epic_text, epic_map) := epics bd_path issues ∅ in
  let '(child_text, child_issues) := children bd_path epic_map issues [] in
  preamble +:+ epic_text
  +:+ nl +:+ "# Create features, tasks, chores, and bugs" +:+ nl
  +:+ child_text +:+ third_pass bd_path child_issues.

(** The issues of the second pass that get a dependency line: those whose
    parent reference is the key of an epic of the list. *)
Definition names_epic (issues : list Issue) (p : string) : bool :=
  existsb (λ e, String.eqb (issue_type e) "epic"
                && String.eqb (WorkPlanParser.parent_ref (epic_id e)) p)
    issues.

Definition linked (issues : list Issue) (issue : Issue) : bool :=
  negb (String.eqb (issue_type issue) "epic")
  && match parent issue with
     | Some p => PyStr.truthy p && names_epic issues p
     | None => false
     end.

(** The pairs that the look-up of the third pass should hold: the [k]-th
    linked issue under the name [ISSUE_k], with the variable of the epic
    its parent reference names. *)
Fixpoint pairs_from (k : nat) (l : list Issue) : list (string * string) :=
  match l with
  | [] => []
  | issue :: l' =>
      ("$ISSUE_" +:+ PyStr.str_of_Z (Z.of_nat k),
       "$EPIC_" +:+ PyStr.slice_from 5 (default EmptyString (parent issue)))
      :: pairs_from (S k) l'
  end.

End Script.

(** * [cleanup-duplicates.py]

    The second script closes all but one of the open epics that share a
    title.  [bd] is again a transition function on an abstract store, from
    the arguments of the command to its standard output; the log keeps the
    argument vectors in the order they are run.  Console output is not
    modelled. *)

Module Cleanup.
Import PyStr.

(** ** Pieces of the two regular expressions *)

(** [\w] on one character: letters, digits and the underscore. *)
Definition isword (c : ascii) : bool :=
  let n := nat_of_ascii c in
  isdigit c
  || ((65 <=? n)%nat && (n <=? 90)%nat)
  || ((97 <=? n)%nat && (n <=? 122)%nat)
  || Ascii.eqb c "_"%char.

(** Longest prefix of characters of a class, and what follows it. *)
Fixpoint span (P : ascii → bool) (s : string) : string * string :=
  match s with
  | EmptyString => (EmptyString, EmptyString)
  | String c s' =>
      if P c then let '(a, r) := span P s' in (String c a, r)
      else (EmptyString, s)
  end.

(** [\w+] and [\s+] where the pattern goes on with a character outside the
    class: the longest run is the only way to match. *)
Definition run1 (P : ascii → bool) (s : string) : option (string * string) :=
  let '(a, r) := span P s in
  if truthy a then Some (a, r) else None.

(** [(.+)] at the end of a pattern: as many characters other than newline
    as there are, at least one. *)
Definition dot_plus (s : string) : option string :=
  let '(a, _) := Pattern.span_line s in
  if truthy a then Some a else None.

(** [\s+(.+)] at the end of a pattern.  The dot matches white space too, so
    the greedy [\s+] gives characters back when nothing else follows: it
    first tries to take one more space, and stops where that fails. *)
Fixpoint spaces_dot_plus (s : string) : option string :=
  match s with
  | EmptyString => None
  | String c s' =>
      if isspace c then
        match spaces_dot_plus s' with
        | Some g => Some g
        | None => dot_plus s'
        end
      else None
  end.

(** [\d] *)
Definition digit1 (s : string) : option string :=
  match s with
  | String c s' => if isdigit c then Some s' else None
  | EmptyString => None
  end.

(** [re.match(r'(beads-tui-\w+)\s+\[P\d\]\s+\[epic\]\s+\w+\s+-\s+(.+)', line)]:
    the two groups. *)
Definition epic_line (line : string) : option (string * string) :=
  r ← strip_prefix "beads-tui-" line;
  '(suffix, r) ← run1 isword r;
  '(_, r) ← run1 isspace r;
  r ← strip_prefix "[P" r;
  r ← digit1 r;
  r ← strip_prefix "]" r;
  '(_, r) ← run1 isspace r;
  r ← strip_prefix "[epic]" r;
  '(_, r) ← run1 isspace r;
  '(_, r) ← run1 isword r;
  '(_, r) ← run1 isspace r;
  r ← strip_prefix "-" r;
  t ← spaces_dot_plus r;
  Some ("beads-tui-" +:+ suffix, t).

(** [re.search(r'Blocks \((\d+)\):', line)]: the group of the leftmost
    match. *)
Definition blocks_here (s : string) : option string :=
  r ← strip_prefix "Blocks (" s;
  '(d, r) ← Pattern.digits1 r;
  _ ← strip_prefix "):" r;
  Some d.

Fixpoint blocks_search (s : string) : option string :=
  match blocks_here s with
  | Some d => Some d
  | None =>
      match s with
      | EmptyString => None
      | String _ s' => blocks_search s'
      end
  end.

(** [s.replace(old, '')] for a non-empty [old]: the occurrences are removed
    from left to right; [skip] counts the characters of an occurrence that
    are still to be dropped. *)
Fixpoint remove_all (old : string) (skip : nat) (s : string) : string :=
  match s with
  | EmptyString => EmptyString
  | String c s' =>
      match skip with
      | S k => remove_all old k s'
      | O =>
          if String.prefix old s
          then remove_all old (String.length old - 1) s'
          else String c (remove_all old 0 s')
      end
  end.

(** ** The records *)

(** [{'id': ..., 'title': ...}] *)
Record epic := mkEpic {
  e_id : string;
  e_title : string
}.

(** [{'id': ..., 'created': ..., 'blocks_count': ...}].  A [datetime] that
    [strptime] returns for the format ['%Y-%m-%d %H:%M'] is kept as its
    number of minutes since [datetime.min]. *)
Record details := mkDetails {
  d_id : string;
  created : option N;
  blocks_count : Z
}.

(** ** Sorting *)

(** [(x['blocks_count'], x['created'] or datetime.min)] *)
Definition key (x : details) : Z * N :=
  (blocks_count x, default 0%N (created x)).

(** [<] on the key tuples. *)
Definition key_lt (a b : Z * N) : bool :=
  (a.1 <? b.1)%Z || ((a.1 =? b.1)%Z && (a.2 <? b.2)%N).

(** [epic_details.sort(key=..., reverse=True)]: descending by key; the
    sort is stable, records with equal keys keep their order. *)
Fixpoint insert_desc (x : details) (l : list details) : list details :=
  match l with
  | [] => [x]
  | y :: l' =>
      if key_lt (key x) (key y) then y :: insert_desc x l' else x :: l
  end.

Definition sort_desc (l : list details) : list details :=
  foldr insert_desc [] l.

(** ** Grouping *)

(** [epics_by_title[title].append(epic_id)] on a [defaultdict(list)], in
    insertion order. *)
Fixpoint append_to (d : list (string * list string)) (title epic_id : string)
    : list (string * list string) :=
  match d with
  | [] => [(title, [epic_id])]
  | (t, ids) :: d' =>
      if String.eqb t title then (t, ids ++ [epic_id]) :: d'
      else (t, ids) :: append_to d' title epic_id
  end.

Definition group (all_epics : list epic) : list (string * list string) :=
  fold_left (λ d e, append_to d (e_title e) (e_id e)) all_epics [].

(** [{title: ids for title, ids in epics_by_title.items() if len(ids) > 1}] *)
Definition duplicates (epics_by_title : list (string * list string))
    : list (string * list string) :=
  List.filter (λ entry, (1 <? length entry.2)%nat) epics_by_title.

(** [f"Duplicate epic - keeping {keeper} as canonical"] *)
Definition reason (keeper : string) : string :=
  "Duplicate epic - keeping " +:+ keeper +:+ " as canonical".

(** ** The commands *)

Section Commands.

Variable W : Type.
(** [subprocess.run(['bd'] + args, ...)]: standard output and new store. *)
Variable bd : list string → W → string * W.
(** [datetime.strptime(s, '%Y-%m-%d %H:%M')]; [None] when it raises. *)
Variable strptime : string → option N.

Record world := mkWorld {
  store : W;
  log : list (list string)
}.

(** [subprocess.run(argv)] *)
Definition run (args : list string) (w : world) : string * world :=
  let '(stdout, st) := bd args (store w) in
  (stdout, mkWorld st (log w ++ ["bd" :: args])).

(** [run_bd_command(args)] *)
Definition run_bd_command (args : list string) (w : world)
    : string * world :=
  let '(stdout, w) := run args w in
  (if truthy stdout then stdout else EmptyString, w).

(** The loop of [get_all_epics] over the lines of the listing. *)
Fixpoint listed (lines : list string) : list epic :=
  match lines with
  | [] => []
  | line :: more =>
      if contains "[epic]" line && contains "[P1]" line then
        match epic_line line with
        | Some (epic_id, title) => mkEpic epic_id (strip title) :: listed more
        | None => listed more
        end
      else listed more
  end.

(** [get_all_epics()] *)
Definition get_all_epics (w : world) : list epic * world :=
  let '(output, w) :=
    run_bd_command ["list"; "--status=open"; "--limit"; "0"] w in
  (listed (split Pattern.newline (strip output)), w).

(** One iteration of the loop of [get_epic_details].  The conversion of
    the count stands outside the [try]: its [ValueError] leaves the
    function. *)
Definition details_line (d : details) (line : string) : outcome details :=
  if startswith "Created:" line then
    let created_str := strip (remove_all "Created:" 0 line) in
    match strptime created_str with
    | Some t => Returned (mkDetails (d_id d) (Some t) (blocks_count d))
    | None => Returned d
    end
  else if startswith "Blocks" line then
    match blocks_search line with
    | Some ds =>
        match int ds with
        | Some n => Returned (mkDetails (d_id d) (created d) n)
        | None => Raised ValueError
        end
    | None => Returned d
    end
  else Returned d.

(** [for line in output.split('\n'): ...] *)
Fixpoint read_details (lines : list string) (d : details) : outcome details :=
  match lines with
  | [] => Returned d
  | line :: more =>
      match details_line d line with
      | Returned d => read_details more d
      | Raised e => Raised e
      end
  end.

(** [get_epic_details(epic_id)], with the world its command leaves. *)
Definition get_epic_details (epic_id : string) (w : world)
    : outcome details * world :=
  let '(output, w) := run_bd_command ["show"; epic_id] w in
  (read_details (split Pattern.newline output) (mkDetails epic_id None 0%Z),
   w).

(** [for epic_id in epic_ids: epic_details.append(get_epic_details(epic_id))] *)
Fixpoint fetch (epic_ids : list string) (w : world)
    : outcome (list details) * world :=
  match epic_ids with
  | [] => (Returned [], w)
  | epic_id :: more =>
      match get_epic_details epic_id w with
      | (Raised e, w) => (Raised e, w)
      | (Returned d, w) =>
          match fetch more w with
          | (Raised e, w) => (Raised e, w)
          | (Returned ds, w) => (Returned (d :: ds), w)
          end
      end
  end.

(** [for title, epic_ids in duplicates.items(): ...]: [epic_details[0]]
    raises [IndexError] on an empty list. *)
Fixpoint analyze (duplicates : list (string * list string))
    (to_close : list (string * string)) (w : world)
    : outcome (list (string * string)) * world :=
  match duplicates with
  | [] => (Returned to_close, w)
  | (title, epic_ids) :: more =>
      match fetch epic_ids w with
      | (Raised e, w) => (Raised e, w)
      | (Returned epic_details, w) =>
          match sort_desc epic_details with
          | [] => (Raised IndexError, w)
          | first :: others =>
              let keeper := d_id first in
              let duplicates_to_close := map d_id others in
              analyze more
                (to_close
                 ++ map (λ dup_id, (dup_id, reason keeper))
                      duplicates_to_close)
                w
          end
      end
  end.

(** [for epic_id, reason in to_close: subprocess.run(['bd', 'close', ...])] *)
Definition close_cmd (entry : string * string) : list string :=
  ["close"; entry.1; "--reason"; entry.2].

Fixpoint close_all (to_close : list (string * string)) (w : world) : world :=
  match to_close with
  | [] => w
  | entry :: more => close_all more (run (close_cmd entry) w).2
  end.

(** [main()] from the grouping on: what it raises, if anything, and the
    world it leaves. *)
Definition main_from (all_epics : list epic) (w : world)
    : outcome unit * world :=
  let epics_by_title := group all_epics in
  match duplicates epics_by_title with
  | [] => (Returned (), w)
  | dups =>
      match analyze dups [] w with
      | (Raised e, w) => (Raised e, w)
      | (Returned to_close, w) =>
          (Returned (), (run ["stats"] (close_all to_close w)).2)
      end
  end.

(** [main()] *)
Definition main (w : world) : outcome unit * world :=
  let '(all_epics, w) := get_all_epics w in
  main_from all_epics w.

End Commands.

Arguments mkWorld {W} _ _.
Arguments store {W} _.
Arguments log {W} _.

(** The identifiers of the epics with a title, in the order of the list. *)
Definition ids_of (all_epics : list epic) (title : string) : list string :=
  map e_id (List.filter (λ e, String.eqb (e_title e) title) all_epics).

(** The first record of a list whose key no record exceeds. *)
Definition is_max (l : list details) (x : details) : bool :=
  forallb (λ y, negb (key_lt (key x) (key y))) l.

Definition first_max (l : list details) : option details :=
  List.find (is_max l) l.

(** The entry of a title, as [epics_by_title[title]] reads it. *)
Fixpoint assoc (d : list (string * list string)) (title : string)
    : option (list string) :=
  match d with
  | [] => None
  | (t, ids) :: d' => if String.eqb t title then Some ids else assoc d' title
  end.

(** A line on which [get_epic_details] raises: the count of a [Blocks]
    line has more digits than [int] converts.  An output is readable when
    it has no such line. *)
Definition overlong (line : string) : bool :=
  startswith "Blocks" line &&
  match blocks_search line with
  | Some ds => (4300 <? N.of_nat (String.length ds))%N
  | None => false
  end.

Definition readable (output : string) : bool :=
  forallb (λ line, negb (overlong line)) (split Pattern.newline output).

(** The argument vector of the listing. *)
Definition list_cmd : list string :=
  ["bd"; "list"; "--status=open"; "--limit"; "0"].

(** The argument vector that asks for the details of an epic. *)
Definition show_cmd (epic_id : string) : list string :=
  ["bd"; "show"; epic_id].

(** The entries of [to_close] for a list of keepers, each with the
    identifiers that are closed in its favour. *)
Definition closings (ks : list (string * list string))
    : list (string * string) :=
  concat (map (λ kc, map (λ i, (i, reason kc.1)) kc.2) ks).

End Cleanup.

(** ** Sample documents and stores *)

Module Sample.



(** A feature line in a Features section, with no group header at all. *)
Definition headless : string :=
  unlines ["### Features"; "#### 1.1 user-configurable retries"].

Definition priority_high : string :=
  unlines ["## Epic 1: Infra"; "### Features";
           "#### 1.1 user-configurable retries"; "- Priority: high"].




(** Two lines of text before the first group header. *)
Definition preface : string :=
  unlines ["# Work plan"; "All groups, in order."; "## Epic 1: Infra";
           "### Features"; "#### 1.1 retries"].

Definition preface_issues : list Issue :=
  [mkIssue "Infra" "epic" 1 EmptyString None (Some "1") None;
   mkIssue "retries" "feature" 2 EmptyString (Some "epic-1") None None].



(** The first group has no description marker, the second has one. *)
Definition two_groups : string :=
  unlines ["## Epic 1: Infra"; "### Features"; "#### 1.1 retries";
           EmptyString;
           "## Epic 2: UI"; "**Description:**"; "Screens and widgets";
           EmptyString;
           "### Tasks"; "**2.1.1** draw board"].



(** A feature with all three attributes and a line after them. *)
Definition described : string :=
  unlines ["## Epic 1: Infra"; "### Features"; "#### 1.1 retries";
           "- Priority: 1 (critical)"; "- Type: task";
           "- Description: retry: with backoff"; "more words"; EmptyString].

Definition described_issues : list Issue :=
  [mkIssue "Infra" "epic" 1 EmptyString None (Some "1") None;
   mkIssue "retries" "task" 1 "retry: with backoff" (Some "epic-1") None
     None].

(** A store whose [dep add] always reports a locked database. *)
Definition always_locked (cmd : string) (st : unit) : completed * unit :=
  (CalledProcessError "Error: database is locked", st).

(** A store whose [dep add] always fails for another reason. *)
Definition always_rejected (cmd : string) (st : unit) : completed * unit :=
  (CalledProcessError "Error: issue not found", st).

(** A store that numbers the issues it creates and refuses every command
    that mentions Infra. *)
Definition numbering (cmd : string) (st : nat) : option string * nat :=
  if PyStr.contains "Infra" cmd then (None, st)
  else (Some ("bd-" +:+ PyStr.str_of_Z (Z.of_nat st)), S st).


Definition no_dry_id (cmd : string) : string := "bd-00000".

(** A store whose [dep add] reports a locked database on its first two
    calls and succeeds from the third on. *)
Definition locked_twice (cmd : string) (st : nat) : completed * nat :=
  if (st <? 2)%nat then (CalledProcessError "Error: database is locked", S st)
  else (Completed, S st).


(** The store [numbering], with its failures told apart. *)
Definition numbering_answers (cmd : string) (st : nat) : answer * nat :=
  if PyStr.contains "Infra" cmd then (Failure, st)
  else (Object ("bd-" +:+ PyStr.str_of_Z (Z.of_nat st)), S st).

(** The issues of [two_groups], as the parser returns them. *)
Definition two_groups_issues : list Issue :=
  [mkIssue "Infra" "epic" 1 "Screens and widgets" None (Some "1") None;
   mkIssue "retries" "feature" 2 EmptyString (Some "epic-1") None None;
   mkIssue "UI" "epic" 1 "Screens and widgets" None (Some "2") None;
   mkIssue "draw board" "task" 2 EmptyString (Some "epic-2") None None].

(** Two groups that carry the same number, each with one item, and a
    store that accepts every create command. *)
Definition same_number_issues : list Issue :=
  [mkIssue "Infra" "epic" 1 EmptyString None (Some "1") None;
   mkIssue "retries" "feature" 2 EmptyString (Some "epic-1") None None;
   mkIssue "UI" "epic" 1 EmptyString None (Some "1") None;
   mkIssue "draw board" "task" 2 EmptyString (Some "epic-1") None None].

Definition counting (cmd : string) (st : nat) : option string * nat :=
  (Some ("bd-" +:+ PyStr.str_of_Z (Z.of_nat st)), S st).

(** Three open epics, two of them with the same title, and a store whose
    [show] reports two blocked issues for the third and none otherwise. *)
Definition listing : list Cleanup.epic :=
  [Cleanup.mkEpic "beads-tui-a1" "Infra";
   Cleanup.mkEpic "beads-tui-b2" "UI";
   Cleanup.mkEpic "beads-tui-c3" "Infra"].

Definition shows (args : list string) (st : nat) : string * nat :=
  (if PyStr.contains "c3" (PyStr.join " " args)
   then unlines ["Created: 2025-01-02 10:00"; "Blocks (2):"]
   else "Created: 2025-01-01 09:00",
   S st).

Definition no_time (s : string) : option N := None.

(** A store whose [show] reports a count of 4301 digits. *)
Definition nines : string := string_of_list_ascii (repeat "9"%char 4301).

Definition is_list (args : list string) : bool :=
  match args with
  | a :: _ => String.eqb a "list"
  | [] => false
  end.

Definition two_listed : string :=
  unlines ["beads-tui-a1 [P1] [epic] open - Infra";
           "beads-tui-c3 [P1] [epic] open - Infra"].

Definition overlong_shows (args : list string) (st : nat) : string * nat :=
  (if is_list args then two_listed else "Blocks (" +:+ nines +:+ "):", S st).

(** The listing of two epics with one title, then the answers of [shows]. *)
Definition lists_and_shows (args : list string) (st : nat) : string * nat :=
  if is_list args then (two_listed, S st) else shows args st.

End Sample.

(** ** Vocabulary of the further properties *)

(** [issue.issue_type == "epic"], the test of the first pass. *)
Definition is_epic (issue : Issue) : bool :=
  String.eqb (issue_type issue) "epic".

(** The create command a pass sends for an issue. *)
Definition create_event (bd_path : string) (issue : Issue) : event :=
  Exec (to_command issue bd_path).

(** What the first pass may do to one issue: nothing, or give an epic its
    identifier. *)
Definition stamped (a b : Issue) : Prop :=
  b = a ∨ ∃ issue_id, is_epic a = true ∧
                      b = mkIssue (title a) (issue_type a) (priority a)
                            (description a) (parent a) (epic_id a)
                            (Some issue_id).

(** What a pass of a dry run does to one issue: [on] tells which issues
    the pass handles. *)
Definition dry_stamp (dry_run_id : string → string) (bd_path : string)
    (on : Issue → bool) (a b : Issue) : Prop :=
  if on a then b = set_beads_id a (dry_run_id (to_command a bd_path))
  else b = a.

(** What the iteration at index [i] appends, if it returns and appends. *)
Definition line_issue (st : WorkPlanParser.cursor) (lines : list string)
    (i : nat) : option Issue :=
  match lines !! i with
  | Some raw =>
      match WorkPlanParser.body raw (drop (S i) lines)
              (WorkPlanParser.cursor_after (take i lines) st) with
      | Returned (emitted, _) => emitted
      | Raised _ => None
      end
  | None => None
  end.

(** The tests of the look-ahead for the other two attribute markers and
    of the main loop for a section header, on a stripped line. *)
Definition is_type_line (next_line : string) : bool :=
  PyStr.startswith "- Type:" next_line.

Definition is_description_line (next_line : string) : bool :=
  PyStr.startswith "- Description:" next_line.

Definition is_section_line (line : string) : bool :=
  PyStr.startswith "### " line.

Definition is_marker_line (line : string) : bool :=
  PyStr.startswith "**Description:**" line.

(** The identifier an issue contributes to the lookup table under [key]:
    that of a created epic whose key it is. *)
Definition created_as (key : string) (issue : Issue) : option string :=
  if is_epic issue && String.eqb (WorkPlanParser.parent_ref (epic_id issue)) key
  then beads_id issue else None.

(** The parent an issue contributes to the parent map under [child_id]:
    the one resolved for it, when it is no epic, was created with that
    identifier and resolves a non-empty parent. *)
Definition linked_as (epic_map : gmap string string)
    (child_id : string) (issue : Issue) : option string :=
  match beads_id issue with
  | Some issue_id =>
      if negb (is_epic issue) && String.eqb issue_id child_id
         && PyStr.truthy (resolve_parent epic_map issue)
      then Some (resolve_parent epic_map issue) else None
  | None => None
  end.

(** A text without line break. *)
Definition one_line (s : string) : bool :=
  WorkPlanParser.all_chars (λ c, negb (Ascii.eqb c Pattern.newline)) s.

(** An issue whose create command and group number hold no line break. *)
Definition flat (bd_path : string) (issue : Issue) : Prop :=
  one_line (to_command issue bd_path) = true ∧
  one_line (PyStr.str_of_opt (epic_id issue)) = true.

(** How many commands a part of the log holds. *)
Fixpoint count_exec (l : list event) : nat :=
  match l with
  | [] => 0
  | Exec _ :: l' => S (count_exec l')
  | Sleep _ :: l' => count_exec l'
  end.

(** * Properties *)

Import WorkPlanParser.

(** ** The scan, line by line *)

Section Scan.

Implicit Types (lines pre rest : list string) (st : cursor) (it : Issue).

Lemma parse_loop_acc lines st acc :
  parse_loop lines st acc
  = (acc ++ (parse_loop lines st []).1, (parse_loop lines st []).2).
Proof.
  revert st acc. induction lines as [|raw rest IH]; intros st acc; simpl.
  - by rewrite app_nil_r.
  - destruct (body raw rest st) as [[emitted st']|e]; simpl.
    + rewrite (IH st' (acc ++ _)), (IH st' (from_option _ _ _)).
      simpl. by rewrite app_assoc.
    + by rewrite app_nil_r.
Qed.

Lemma body_cursor raw rest st emitted st' :
  body raw rest st = Returned (emitted, st') → st' = next_cursor raw st.
Proof.
  unfold body, next_cursor.
  destruct (classify _ _); try (intros [= _ <-]; done).
  destruct (feature_attrs _ _); [intros [= _ <-]; done | done].
Qed.

Lemma cursor_after_snoc pre raw st :
  cursor_after (pre ++ [raw]) st = next_cursor raw (cursor_after pre st).
Proof. unfold cursor_after. by rewrite fold_left_app. Qed.

(** Every returned issue was appended by the iteration of some line. *)
Lemma parse_loop_sound lines st it :
  In it (parse_loop lines st []).1 → ∃ i, emitted_at st lines i it.
Proof.
  revert st. induction lines as [|raw rest IH]; intros st; simpl; [done|].
  destruct (body raw rest st) as [[emitted st']|e] eqn:Hb; [|done].
  rewrite parse_loop_acc. simpl. rewrite in_app_iff. intros [Hin|Hin].
  - destruct emitted as [x|]; simpl in Hin; [|done].
    destruct Hin as [->|[]]. exists 0, raw, st'. by simpl.
  - destruct (IH _ Hin) as (i & raw' & st'' & Hl & Hbody).
    exists (S i), raw', st''. split; [done|].
    simpl. unfold cursor_after in *. simpl.
    by rewrite <- (body_cursor _ _ _ _ _ Hb).
Qed.

(** Unless an exception ends the scan, what an iteration appends is
    returned. *)
Lemma parse_loop_complete lines st i it res :
  parse_loop lines st [] = (res, None) →
  emitted_at st lines i it → In it res.
Proof.
  revert st i res. induction lines as [|raw rest IH]; intros st i res; simpl.
  - intros _ (raw & st' & Hl & _). done.
  - destruct (body raw rest st) as [[emitted st']|e] eqn:Hb; [|done].
    rewrite parse_loop_acc. simpl. intros [= <- He].
    intros (raw' & st'' & Hl & Hbody). rewrite in_app_iff.
    destruct i as [|i]; simpl in *.
    + injection Hl as <-. unfold cursor_after in Hbody. simpl in Hbody.
      rewrite drop_0, Hb in Hbody. injection Hbody as -> _. left. by left.
    + right. eapply (IH st' i).
      * rewrite <- He. by apply surjective_pairing.
      * exists raw', st''. split; [done|].
        by rewrite (body_cursor _ _ _ _ _ Hb).
Qed.

End Scan.

(** ** Facts about the string primitives *)

Section Strings.

Implicit Types (s p r : string) (c : ascii).

Lemma prefix_inv p s : String.prefix p s = true → ∃ r, s = p +:+ r.
Proof.
  revert s. induction p as [|a p IH]; intros s.
  - intros _. by exists s.
  - destruct s as [|b s]; simpl; [done|].
    destruct (ascii_dec a b) as [->|]; [|done].
    intros H. destruct (IH _ H) as [r ->]. by exists r.
Qed.

Lemma prefix_app p r : String.prefix p (p +:+ r) = true.
Proof.
  induction p as [|a p IH].
  - by destruct r.
  - change (String a p +:+ r) with (String a (p +:+ r)). simpl.
    by destruct (ascii_dec a a).
Qed.

Lemma split_nonempty c s : ∃ x xs, PyStr.split c s = x :: xs.
Proof.
  induction s as [|a s (x & xs & IH)]; simpl; [by eauto|].
  destruct (Ascii.eqb a c); [by eauto|]. rewrite IH. by eauto.
Qed.

Lemma split1_nonempty c s : ∃ x xs, PyStr.split1 c s = x :: xs.
Proof.
  induction s as [|a s (x & xs & IH)]; simpl; [by eauto|].
  destruct (Ascii.eqb a c); [by eauto|]. rewrite IH. by eauto.
Qed.

Lemma index_split_0 c s : ∃ x, index (PyStr.split c s) 0 = Returned x.
Proof. destruct (split_nonempty c s) as (x & xs & ->). by exists x. Qed.

Lemma index_split_1 c a b :
  ∃ x, index (PyStr.split c (a +:+ String c b)) 1 = Returned x.
Proof.
  induction a as [|a0 a IH]; simpl.
  - rewrite Ascii.eqb_refl. apply index_split_0.
  - destruct (Ascii.eqb a0 c); [apply index_split_0|].
    destruct IH as [x IH].
    destruct (PyStr.split c (a +:+ String c b)) as [|y [|z zs]]; try done.
    by exists z.
Qed.

Lemma index_split1_1 c a b :
  ∃ x, index (PyStr.split1 c (a +:+ String c b)) 1 = Returned x.
Proof.
  induction a as [|a0 a IH]; simpl.
  - rewrite Ascii.eqb_refl. by eauto.
  - destruct (Ascii.eqb a0 c); [by eauto|].
    destruct IH as [x IH].
    destruct (PyStr.split1 c (a +:+ String c b)) as [|y [|z zs]]; try done.
    by exists z.
Qed.

(** The three attribute markers contain a colon, so the pieces indexed in
    the look-ahead exist. *)
Lemma priority_of_not_IndexError n e :
  PyStr.startswith "- Priority:" n = true →
  priority_of n = Raised e → e = ValueError.
Proof.
  intros [r ->]%prefix_inv. unfold priority_of.
  destruct (index_split_1 ":" "- Priority" r) as [x Hx].
  change ("- Priority:" +:+ r) with ("- Priority" +:+ String ":" r).
  rewrite Hx. destruct (index_split_0 "(" x) as [y ->].
  destruct (PyStr.int _); [done|]. by intros [= <-].
Qed.

Lemma type_of_returns n :
  PyStr.startswith "- Type:" n = true → ∃ t, type_of n = Returned t.
Proof.
  intros [r ->]%prefix_inv. unfold type_of.
  destruct (index_split_1 ":" "- Type" r) as [x Hx].
  change ("- Type:" +:+ r) with ("- Type" +:+ String ":" r).
  rewrite Hx. by eauto.
Qed.

Lemma description_of_returns n :
  PyStr.startswith "- Description:" n = true →
  ∃ d, description_of n = Returned d.
Proof.
  intros [r ->]%prefix_inv. unfold description_of.
  destruct (index_split1_1 ":" "- Description" r) as [x Hx].
  change ("- Description:" +:+ r) with ("- Description" +:+ String ":" r).
  rewrite Hx. by eauto.
Qed.

End Strings.

(** ** Exceptions of the scan *)

Lemma feature_attrs_raises rest a e :
  feature_attrs rest a = Raised e → e = ValueError.
Proof.
  revert a. induction rest as [|l rest IH]; intros a; simpl; [done|].
  destruct (negb _); [done|].
  destruct (PyStr.startswith "- Priority:" _) eqn:Hp.
  { destruct (priority_of _) as [n|e'] eqn:Hn; [by eauto|].
    intros [= <-]. by eapply priority_of_not_IndexError. }
  destruct (PyStr.startswith "- Type:" _) eqn:Ht.
  { destruct (type_of_returns _ Ht) as [t ->]. by eauto. }
  destruct (PyStr.startswith "- Description:" _) eqn:Hd.
  { destruct (description_of_returns _ Hd) as [d ->]. by eauto. }
  destruct (_ || _); [done|]. by eauto.
Qed.

Lemma body_raises raw rest st e :
  body raw rest st = Raised e → e = ValueError.
Proof.
  unfold body. destruct (classify _ _); try done.
  destruct (feature_attrs _ _) eqn:Ha; [done|].
  intros [= <-]. by eapply feature_attrs_raises.
Qed.

Lemma parse_loop_raises lines st acc res e :
  parse_loop lines st acc = (res, Some e) → e = ValueError.
Proof.
  revert st acc. induction lines as [|raw rest IH]; intros st acc; simpl.
  - done.
  - destruct (body raw rest st) as [[emitted st']|e'] eqn:Hb; [by eauto|].
    intros [= _ <-]. by eapply body_raises.
Qed.

Lemma parse_new_unfold path content :
  parse_new path content
  = match parse_loop (lines_of content) start [] with
    | (res, None) => Returned res
    | (_, Some e) => Raised e
    end.
Proof.
  unfold parse_new, parse, init. simpl.
  by destruct (parse_loop _ _ _) as [res [e|]].
Qed.

(** An exception that leaves [parse] is the [ValueError] of [int]. *)
Lemma parse_new_raises path content e :
  parse_new path content = Raised e → e = ValueError.
Proof.
  rewrite parse_new_unfold.
  destruct (parse_loop _ _ _) as [res [e'|]] eqn:Hl; [|done].
  intros [= <-]. by eapply parse_loop_raises.
Qed.

Lemma parse_new_sound path content res it :
  parse_new path content = Returned res → In it res →
  ∃ i, emitted_at start (lines_of content) i it.
Proof.
  rewrite parse_new_unfold.
  destruct (parse_loop _ _ _) as [res' [e'|]] eqn:Hl; [done|].
  intros [= <-] Hin. apply parse_loop_sound. by rewrite Hl.
Qed.

Lemma parse_new_complete path content res i it :
  parse_new path content = Returned res →
  emitted_at start (lines_of content) i it → In it res.
Proof.
  rewrite parse_new_unfold.
  destruct (parse_loop _ _ _) as [res' [e'|]] eqn:Hl; [done|].
  intros [= <-]. by eapply parse_loop_complete.
Qed.

(** When the scan returns, the iteration of every line returned. *)
Lemma parse_loop_body_returns lines st res i raw :
  parse_loop lines st [] = (res, None) → lines !! i = Some raw →
  ∃ emitted st',
    body raw (drop (S i) lines) (cursor_after (take i lines) st)
    = Returned (emitted, st').
Proof.
  revert st res i. induction lines as [|l rest IH]; intros st res i; simpl.
  - done.
  - destruct (body l rest st) as [[emitted st']|e] eqn:Hb; [|done].
    rewrite parse_loop_acc. intros [= _ He]. destruct i as [|i]; simpl.
    + intros [= <-]. rewrite drop_0. by eauto.
    + intros Hl. rewrite <- (body_cursor _ _ _ _ _ Hb).
      eapply (IH st'); [|done]. rewrite <- He. by apply surjective_pairing.
Qed.

Lemma parse_new_body_returns path content res i raw :
  parse_new path content = Returned res → lines_of content !! i = Some raw →
  ∃ emitted st',
    body raw (drop (S i) (lines_of content))
      (cursor_after (take i (lines_of content)) start)
    = Returned (emitted, st').
Proof.
  rewrite parse_new_unfold.
  destruct (parse_loop _ _ _) as [res' [e'|]] eqn:Hl; [done|].
  intros _. by eapply parse_loop_body_returns.
Qed.

(** ** The group in force at a line *)

Lemma classify_header line sec n t :
  Pattern.EPIC_PATTERN line = Some (n, t) → classify line sec = BEpic n t.
Proof. unfold classify. by intros ->. Qed.






(** What one iteration appends, branch by branch. *)
Lemma body_emits raw rest st it st' :
  body raw rest st = Returned (Some it, st') →
  match classify (PyStr.strip raw) (current_section st) with
  | BEpic n t =>
      it = new_Issue t "epic" 1 (PyStr.join " " (epic_description rest))
             None (Some n)
  | BFeature t =>
      ∃ a, feature_attrs rest default_attrs = Returned a ∧
           it = new_Issue t (a_issue_type a) (a_priority a)
                  (PyStr.join " " (a_desc_lines a))
                  (Some (parent_ref (current_epic_num st))) None
  | BTask t =>
      it = new_Issue t "task" 2 EmptyString
             (Some (parent_ref (current_epic_num st))) None
  | BChore t =>
      it = new_Issue t "chore" 3 EmptyString
             (Some (parent_ref (current_epic_num st))) None
  | BBug t =>
      it = new_Issue t "bug" 4 EmptyString
             (Some (parent_ref (current_epic_num st))) None
  | BSection _ | BSkip => False
  end.
Proof.
  unfold body. destruct (classify _ _); try by intros [= <-].
  destruct (feature_attrs _ _) as [a|]; [|done].
  intros [= <-]. by exists a.
Qed.


(** ** The attribute block of a feature *)

Lemma dash_not_fence p n :
  PyStr.startswith (String "-" p) n = true → fence n = false.
Proof.
  intros [r ->]%prefix_inv. reflexivity.
Qed.

Lemma attr_block_cons l rest :
  PyStr.truthy (PyStr.strip l) = true → fence (PyStr.strip l) = false →
  attr_block (l :: rest) = PyStr.strip l :: attr_block rest.
Proof.
  intros Ht Hf. cbn [attr_block]. cbv zeta. by rewrite Ht, Hf.
Qed.

Lemma attr_block_stop l rest :
  PyStr.truthy (PyStr.strip l) = false ∨ fence (PyStr.strip l) = true →
  attr_block (l :: rest) = [].
Proof.
  cbn [attr_block]. cbv zeta. intros [->| ->]; [done|].
  by destruct (negb _).
Qed.

Ltac attr_step l rest H :=
  rewrite (attr_block_cons l rest) in H by
    (first [done | by eapply dash_not_fence]).




(** ** Claims about the parser *)

(** Closed goals are settled by evaluation. *)
Ltac run := vm_compute; reflexivity.

Ltac run_lines :=
  match goal with
  | |- Forall ?P ?l =>
      let l' := eval vm_compute in l in
      change (Forall P l');
      repeat (constructor; [run|]); constructor
  end.













(** ** Reading a priority attribute *)

Section PriorityText.

Implicit Types (s a b sp ds : string) (c sep : ascii).

(** [simpl] keeps [+:+] folded; this unfolds it where its first argument
    starts with a constructor. *)
Ltac app_step :=
  repeat match goal with
  | |- context [String ?c ?a +:+ ?x] =>
      change (String c a +:+ x) with (String c (a +:+ x))
  | |- context [EmptyString +:+ ?x] => change (EmptyString +:+ x) with x
  end.


Lemma append_nil_r a : a +:+ EmptyString = a.
Proof. induction a as [|c a IH]; app_step; [done|]. by f_equal. Qed.

Lemma all_chars_cons P c s :
  all_chars P (String c s) = P c && all_chars P s.
Proof. done. Qed.

Lemma all_chars_app P a b :
  all_chars P (a +:+ b) = all_chars P a && all_chars P b.
Proof.
  induction a as [|c a IH]; app_step; [done|].
  by rewrite !all_chars_cons, IH, andb_assoc.
Qed.


(** A piece that holds no separator stays in front of the first piece of
    what follows it. *)
Lemma split_head_app sep a b x xs :
  all_chars (λ c, negb (Ascii.eqb c sep)) a = true →
  PyStr.split sep b = x :: xs →
  PyStr.split sep (a +:+ b) = (a +:+ x) :: xs.
Proof.
  intros Ha Hb. induction a as [|c a IH]; app_step; [done|].
  rewrite all_chars_cons, andb_true_iff, negb_true_iff in Ha.
  destruct Ha as [Hc Ha]. cbn [PyStr.split]. by rewrite Hc, (IH Ha).
Qed.

Lemma split_free sep a :
  all_chars (λ c, negb (Ascii.eqb c sep)) a = true → PyStr.split sep a = [a].
Proof.
  intros Ha. rewrite <- (append_nil_r a) at 1.
  rewrite (split_head_app sep a EmptyString EmptyString []); try done.
  by rewrite append_nil_r.
Qed.


Lemma digit_other c :
  PyStr.isdigit c = true →
  PyStr.isspace c = false ∧
  negb (Ascii.eqb c ":") = true ∧ negb (Ascii.eqb c "(") = true.
Proof. by destruct c as [[] [] [] [] [] [] [] []]. Qed.

Lemma lstrip_spaces sp s :
  all_chars PyStr.isspace sp = true → PyStr.lstrip (sp +:+ s) = PyStr.lstrip s.
Proof.
  induction sp as [|c sp IH]; [done|].
  rewrite all_chars_cons, andb_true_iff. intros [Hc Hsp]. app_step.
  cbn [PyStr.lstrip]. rewrite Hc. by apply IH.
Qed.

Lemma rstrip_spaces sp :
  all_chars PyStr.isspace sp = true → PyStr.rstrip sp = EmptyString.
Proof.
  induction sp as [|c sp IH]; [done|].
  rewrite all_chars_cons, andb_true_iff. intros [Hc Hsp]. simpl.
  by rewrite (IH Hsp), Hc.
Qed.

Lemma rstrip_app_spaces s sp :
  all_chars PyStr.isspace sp = true →
  PyStr.rstrip (s +:+ sp) = PyStr.rstrip s.
Proof.
  intros Hsp. induction s as [|c s IH]; app_step.
  - by apply rstrip_spaces.
  - cbn [PyStr.rstrip]. by rewrite IH.
Qed.

Lemma rstrip_digits ds :
  all_chars PyStr.isdigit ds = true → PyStr.rstrip ds = ds.
Proof.
  induction ds as [|c ds IH]; [done|].
  rewrite all_chars_cons, andb_true_iff. intros [Hc Hds]. simpl.
  rewrite (IH Hds). destruct ds; [|done].
  by destruct (digit_other _ Hc) as [-> _].
Qed.

(** Stripping leaves a run of digits that stands between white space. *)
Lemma strip_padded sp1 ds sp2 :
  all_chars PyStr.isspace sp1 = true →
  all_chars PyStr.isdigit ds = true → ds ≠ EmptyString →
  all_chars PyStr.isspace sp2 = true →
  PyStr.strip (sp1 +:+ ds +:+ sp2) = ds.
Proof.
  intros H1 Hd Hne H2. unfold PyStr.strip. rewrite lstrip_spaces by done.
  destruct ds as [|c ds]; [done|].
  rewrite all_chars_cons, andb_true_iff in Hd. destruct Hd as [Hc Hd].
  destruct (digit_other _ Hc) as [Hsp _]. app_step.
  cbn [PyStr.lstrip]. rewrite Hsp.
  change (String c (ds +:+ sp2)) with (String c ds +:+ sp2).
  rewrite rstrip_app_spaces by done. apply rstrip_digits.
  by rewrite all_chars_cons, Hc, Hd.
Qed.

Lemma int_digits_run ds acc :
  all_chars PyStr.isdigit ds = true →
  PyStr.int_digits ds acc true
  = Some (fold_left (λ n d, 10 * n + PyStr.digit_val d)%Z
            (list_ascii_of_string ds) acc).
Proof.
  revert acc. induction ds as [|c ds IH]; intros acc; [done|].
  rewrite all_chars_cons, andb_true_iff. intros [Hc Hd]. simpl.
  rewrite Hc. by apply IH.
Qed.

Lemma count_digits_run ds :
  all_chars PyStr.isdigit ds = true →
  PyStr.count_digits ds = N.of_nat (String.length ds).
Proof.
  induction ds as [|c ds IH]; [done|].
  rewrite all_chars_cons, andb_true_iff. intros [Hc Hd].
  cbn [PyStr.count_digits String.length]. rewrite Hc, (IH Hd). lia.
Qed.

(** [int] of a run of digits within the limit is its decimal value; a
    longer run is refused. *)
Lemma int_decimal ds :
  all_chars PyStr.isdigit ds = true → ds ≠ EmptyString →
  (String.length ds ≤ 4300)%nat →
  PyStr.int ds = Some (decimal ds).
Proof.
  intros Hd Hne Hlen. unfold PyStr.int.
  replace (PyStr.strip ds) with ds; cycle 1.
  { symmetry. rewrite <- (append_nil_r ds) at 1.
    by apply (strip_padded EmptyString ds EmptyString). }
  assert (PyStr.int_literal ds = Some (decimal ds)) as Hlit.
  { unfold PyStr.int_literal, PyStr.max_str_digits.
    rewrite (count_digits_run ds Hd).
    destruct (N.leb_spec (N.of_nat (String.length ds)) 4300) as [_|Hgt];
      [|lia].
    destruct ds as [|c ds]; [done|].
    rewrite all_chars_cons, andb_true_iff in Hd. destruct Hd as [Hc Hd].
    simpl. rewrite Hc. unfold decimal. simpl. by apply int_digits_run. }
  destruct ds as [|c ds]; [done|].
  rewrite all_chars_cons, andb_true_iff in Hd. destruct Hd as [Hc Hd].
  by destruct c as [[] [] [] [] [] [] [] []].
Qed.

Lemma int_overlong ds :
  all_chars PyStr.isdigit ds = true → (4300 < String.length ds)%nat →
  PyStr.int ds = None.
Proof.
  intros Hd Hlen. unfold PyStr.int.
  assert (ds ≠ EmptyString) as Hne by (intros ->; simpl in Hlen; lia).
  replace (PyStr.strip ds) with ds; cycle 1.
  { symmetry. rewrite <- (append_nil_r ds) at 1.
    by apply (strip_padded EmptyString ds EmptyString). }
  assert (PyStr.int_literal ds = None) as Hlit.
  { unfold PyStr.int_literal, PyStr.max_str_digits.
    rewrite (count_digits_run ds Hd).
    destruct (N.leb_spec (N.of_nat (String.length ds)) 4300) as [Hle|_];
      [lia|done]. }
  destruct ds as [|c ds]; [done|].
  rewrite all_chars_cons, andb_true_iff in Hd. destruct Hd as [Hc Hd].
  by destruct c as [[] [] [] [] [] [] [] []].
Qed.





End PriorityText.




(** C9.  [parse] is not total: on a document whose feature has the
    attribute line [- Priority: high] the conversion to an integer raises
    [ValueError]; nothing in [parse] or [generate_issues] handles it, so the
    run ends with that exception, whatever the store. *)
Theorem priority_text_raises :
  ∃ content,
    (∀ path, parse_new path content = Raised ValueError) ∧
    (∀ W create dep_add dry_id path bd_path dry_run (w : world W),
       generate_issues W create dep_add dry_id path content bd_path dry_run w
       = Raised ValueError).
Proof. exists Sample.priority_high. split; intros; run. Qed.

(** C5, the failing document.  The first group has no description marker;
    the look-ahead of its header runs on past the second header and takes
    the description written under the second group. *)
Lemma description_crosses_groups :
  lines_of Sample.two_groups
  = ["## Epic 1: Infra"; "### Features"; "#### 1.1 retries"; EmptyString;
     "## Epic 2: UI"; "**Description:**"; "Screens and widgets"; EmptyString;
     "### Tasks"; "**2.1.1** draw board"] ∧
  parse_new "WORKPLAN.md" Sample.two_groups
  = Returned
      [mkIssue "Infra" "epic" 1 "Screens and widgets" None (Some "1") None;
       mkIssue "retries" "feature" 2 EmptyString (Some "epic-1") None None;
       mkIssue "UI" "epic" 1 "Screens and widgets" None (Some "2") None;
       mkIssue "draw board" "task" 2 EmptyString (Some "epic-2") None None].
Proof. split; run. Qed.

(** The description of a header is read from the first marker line found
    anywhere below it, whatever lies in between. *)
Lemma epic_description_skips pre marker rest :
  Forall (λ l, PyStr.startswith "**Description:**" (PyStr.strip l) = false)
    pre →
  PyStr.startswith "**Description:**" (PyStr.strip marker) = true →
  epic_description (pre ++ marker :: rest) = collect_description rest.
Proof.
  intros Hpre Hm. induction Hpre as [|l pre Hl _ IH]; simpl.
  - by rewrite Hm.
  - by rewrite Hl.
Qed.

(** C6, the failing call sequence.  Two calls of [parse] on the same object
    with the same text: the list has one issue when the first call returns
    and two when the second returns, and the reference returned by the first
    call shows the two issues as well. *)
Lemma second_parse_accumulates :
  let it := mkIssue "user-configurable retries" "feature" 2 EmptyString
              (Some "epic-None") None None in
  let p0 := init "WORKPLAN.md" in
  let '(p1, r1) := parse Sample.headless p0 in
  let '(p2, r2) := parse Sample.headless p1 in
  r1 = Returned SelfIssues ∧ r2 = Returned SelfIssues ∧
  read_ref p1 SelfIssues = [it] ∧
  read_ref p2 SelfIssues = [it; it].
Proof. vm_compute. by repeat split. Qed.

(** A second call on the same object returns the first result twice over;
    only a new object gives the same list again. *)
Lemma parse_twice path content p1 p2 r2 :
  parse content (init path) = (p1, Returned SelfIssues) →
  parse content p1 = (p2, r2) →
  r2 = Returned SelfIssues ∧ issues p2 = issues p1 ++ issues p1.
Proof.
  unfold parse, init. simpl.
  destruct (parse_loop (lines_of content) start []) as [acc [e|]] eqn:Hl;
    [done|].
  intros [= <-]. simpl. rewrite parse_loop_acc, Hl. simpl.
  by intros [= <- <-].
Qed.

(** ** Claims about the materializer *)

(** C2.  One edge of the third pass.  If every [dep add] of the edge fails
    with a message that contains [database is locked], the command is run
    exactly three times, with waits of 500 and 1000 ms in between, and then
    one failure is counted; if the first [dep add] fails with any other
    message, the command is run exactly once and one failure is counted.
    In both cases no success is counted and the loop goes on with the
    remaining edges. *)
Theorem bounded_retry (W : Type) (bd_dep_add : string → W → completed * W)
    (bd_path : string) (edge : string * string) (more : dict)
    (c : tally) (w : world W) :
  let cmd := dep_cmd bd_path edge.1 edge.2 in
  let failed := mkTally (success_count c) (failed_count c + 1) in
  ((∀ st, ∃ stderr st',
      bd_dep_add cmd st = (CalledProcessError stderr, st') ∧
      PyStr.contains "database is locked" stderr = true) →
   ∃ st',
     let w' :=
       mkWorld st'
         (log w ++ [Exec cmd; Sleep 500; Exec cmd; Sleep 1000; Exec cmd]) in
     link_edge W bd_dep_add bd_path edge c w = (failed, w') ∧
     link_edges W bd_dep_add bd_path (edge :: more) c w
     = link_edges W bd_dep_add bd_path more failed w') ∧
  (∀ stderr st',
     bd_dep_add cmd (store w) = (CalledProcessError stderr, st') →
     PyStr.contains "database is locked" stderr = false →
     let w' := mkWorld st' (log w ++ [Exec cmd]) in
     link_edge W bd_dep_add bd_path edge c w = (failed, w') ∧
     link_edges W bd_dep_add bd_path (edge :: more) c w
     = link_edges W bd_dep_add bd_path more failed w').
Proof.
  intros cmd failed. split.
  - intros Hlocked.
    destruct (Hlocked (store w)) as (e1 & st1 & H1 & L1).
    destruct (Hlocked st1) as (e2 & st2 & H2 & L2).
    destruct (Hlocked st2) as (e3 & st3 & H3 & L3).
    exists st3.
    assert (link_edge W bd_dep_add bd_path edge c w
            = (failed,
               mkWorld st3
                 (log w ++ [Exec cmd; Sleep 500; Exec cmd; Sleep 1000;
                            Exec cmd]))) as Hedge.
    { unfold link_edge. fold cmd. cbn [retry_loop store log].
      rewrite H1, L1. cbn [retry_loop store log Z.ltb Z.compare andb].
      rewrite H2, L2. cbn [retry_loop store log Z.ltb Z.compare andb].
      rewrite H3. cbn [store log Z.ltb Z.compare andb Pos.compare
                        Pos.compare_cont].
      unfold failed. by rewrite <- !app_assoc. }
    split; [done|]. cbn [link_edges]. by rewrite Hedge.
  - intros stderr st' H1 L1.
    assert (link_edge W bd_dep_add bd_path edge c w
            = (failed, mkWorld st' (log w ++ [Exec cmd]))) as Hedge.
    { unfold link_edge. fold cmd. cbn [retry_loop store log].
      rewrite H1, L1. by rewrite andb_false_r. }
    split; [done|]. cbn [link_edges]. by rewrite Hedge.
Qed.

Lemma bounded_retry_witness :
  let cmd := dep_cmd "bd" "bd-2" "bd-0" in
  let c := mkTally 0 0 in
  let w := mkWorld tt [] in
  (∃ st',
     link_edge unit Sample.always_locked "bd" ("bd-2", "bd-0") c w
     = (mkTally 0 1,
        mkWorld st' [Exec cmd; Sleep 500; Exec cmd; Sleep 1000; Exec cmd]) ∧
     link_edges unit Sample.always_locked "bd" [("bd-2", "bd-0")] c w
     = (mkTally 0 1,
        mkWorld st' [Exec cmd; Sleep 500; Exec cmd; Sleep 1000; Exec cmd])) ∧
  link_edge unit Sample.always_rejected "bd" ("bd-2", "bd-0") c w
  = (mkTally 0 1, mkWorld tt [Exec cmd]).
Proof.
  intros cmd c w. split.
  - apply (proj1 (bounded_retry unit Sample.always_locked "bd"
                    ("bd-2", "bd-0") [] c w)).
    intros st. exists "Error: database is locked", st. split; run.
  - apply (proj2 (bounded_retry unit Sample.always_rejected "bd"
                    ("bd-2", "bd-0") [] c w) "Error: issue not found" tt);
      run.
Defined.

(** ** The two creation passes *)

Section Passes.

Context (W : Type) (bd_create : string → W → option string * W).
Context (bd_dep_add : string → W → completed * W).
Context (dry_run_id : string → string) (bd_path : string).

Implicit Types (w : world W) (m : gmap string string) (pm : dict).

Lemma execute_log cmd w r w' :
  execute_command W bd_create dry_run_id cmd false w = (r, w') → log w' = log w ++ [Exec cmd].
Proof.
  unfold execute_command.
  destruct (bd_create cmd (store w)) as [[issue_id|] st];
    by intros [= _ <-].
Qed.

Lemma execute_dry cmd w r w' :
  execute_command W bd_create dry_run_id cmd true w = (r, w') → r.1 = true.
Proof. by intros [= <- _]. Qed.

(** A key stays out of the lookup table when no epic that would write it
    ends the pass with an identifier. *)
Lemma create_epics_absent dry_run issues m w issues1 m1 w1 key :
  create_epics W bd_create dry_run_id bd_path dry_run issues m w = (issues1, m1, w1) →
  m !! key = None →
  (∀ e, In e issues1 → issue_type e = "epic" →
        parent_ref (epic_id e) = key → beads_id e = None) →
  m1 !! key = None.
Proof.
  revert m w issues1 m1 w1.
  induction issues as [|issue more IH]; intros m w issues1 m1 w1; simpl.
  { by intros [= _ <- _]. }
  destruct (String.eqb (issue_type issue) "epic") eqn:Hty.
  - destruct (execute_command W bd_create dry_run_id _ dry_run w) as [[success issue_id] w'].
    destruct success.
    + destruct (create_epics W bd_create dry_run_id bd_path dry_run more _ w') as [[more' m'] w''] eqn:Hmore.
      intros [= <- <- <-] Hm Hfail.
      eapply IH; [done| |by intros; apply Hfail; [right|..]].
      apply lookup_insert_None. split; [done|].
      intros Hkey. apply String.eqb_eq in Hty.
      by specialize (Hfail _ (or_introl eq_refl) Hty Hkey).
    + destruct (create_epics W bd_create dry_run_id bd_path dry_run more m w') as [[more' m'] w''] eqn:Hmore.
      intros [= <- <- <-] Hm Hfail.
      eapply IH; [done|done|by intros; apply Hfail; [right|..]].
  - destruct (create_epics W bd_create dry_run_id bd_path dry_run more m w) as [[more' m'] w''] eqn:Hmore.
    intros [= <- <- <-] Hm Hfail.
    eapply IH; [done|done|by intros; apply Hfail; [right|..]].
Qed.

(** The first pass leaves the issues that are no epics as they are. *)
Lemma create_epics_keeps dry_run issues m w issues1 m1 w1 it :
  create_epics W bd_create dry_run_id bd_path dry_run issues m w = (issues1, m1, w1) →
  In it issues → issue_type it ≠ "epic" → In it issues1.
Proof.
  revert m w issues1 m1 w1.
  induction issues as [|issue more IH]; intros m w issues1 m1 w1; simpl.
  { done. }
  intros Hrun Hin Hne.
  destruct (String.eqb (issue_type issue) "epic") eqn:Hty.
  - apply String.eqb_eq in Hty.
    destruct Hin as [->|Hin]; [done|].
    destruct (execute_command W bd_create dry_run_id _ dry_run w) as [[success issue_id] w'].
    destruct success.
    + destruct (create_epics W bd_create dry_run_id bd_path dry_run more _ w') as [[more' m'] w''] eqn:Hmore.
      injection Hrun as <- <- <-. right. by eapply IH.
    + destruct (create_epics W bd_create dry_run_id bd_path dry_run more m w') as [[more' m'] w''] eqn:Hmore.
      injection Hrun as <- <- <-. right. by eapply IH.
  - destruct (create_epics W bd_create dry_run_id bd_path dry_run more m w) as [[more' m'] w''] eqn:Hmore.
    injection Hrun as <- <- <-.
    destruct Hin as [->|Hin]; [by left|]. right. by eapply IH.
Qed.

(** Each epic is still there after the first pass, with its identifier
    when the run is a dry run. *)
Lemma create_epics_image dry_run issues m w issues1 m1 w1 e :
  create_epics W bd_create dry_run_id bd_path dry_run issues m w = (issues1, m1, w1) →
  In e issues → issue_type e = "epic" →
  ∃ e1, In e1 issues1 ∧ issue_type e1 = "epic" ∧ epic_id e1 = epic_id e ∧
        (dry_run = true → beads_id e1 ≠ None).
Proof.
  revert m w issues1 m1 w1.
  induction issues as [|issue more IH]; intros m w issues1 m1 w1; simpl.
  { done. }
  intros Hrun Hin He.
  destruct (String.eqb (issue_type issue) "epic") eqn:Hty.
  - destruct (execute_command W bd_create dry_run_id _ dry_run w) as [[success issue_id] w'] eqn:Hexec.
    destruct success.
    + destruct (create_epics W bd_create dry_run_id bd_path dry_run more _ w') as [[more' m'] w''] eqn:Hmore.
      injection Hrun as <- <- <-. destruct Hin as [->|Hin].
      * exists (set_beads_id e issue_id). by repeat split; [left|..].
      * destruct (IH _ _ _ _ _ Hmore Hin He) as (e1 & ? & ?).
        exists e1. by split; [right|].
    + destruct (create_epics W bd_create dry_run_id bd_path dry_run more m w') as [[more' m'] w''] eqn:Hmore.
      injection Hrun as <- <- <-. destruct Hin as [->|Hin].
      * exists e. repeat split; [by left|done|].
        intros ->. by apply execute_dry in Hexec.
      * destruct (IH _ _ _ _ _ Hmore Hin He) as (e1 & ? & ?).
        exists e1. by split; [right|].
  - destruct (create_epics W bd_create dry_run_id bd_path dry_run more m w) as [[more' m'] w''] eqn:Hmore.
    injection Hrun as <- <- <-. destruct Hin as [->|Hin].
    + apply String.eqb_neq in Hty. done.
    + destruct (IH _ _ _ _ _ Hmore Hin He) as (e1 & ? & ?).
      exists e1. by split; [right|].
Qed.

End Passes.

(** * Further properties of the run *)

Section Run.

Context (W : Type) (bd_create : string → W → option string * W).
Context (bd_dep_add : string → W → completed * W).
Context (dry_run_id : string → string) (bd_path : string).

Implicit Types (w : world W) (m : gmap string string) (pm : dict).
Implicit Types (issues : list Issue) (dry_run : bool).

Local Arguments execute_command : simpl never.

Lemma create_epics_stamps dry_run issues m w issues1 m1 w1 :
  create_epics W bd_create dry_run_id bd_path dry_run issues m w
  = (issues1, m1, w1) →
  Forall2 stamped issues issues1.
Proof.
  revert m w issues1 m1 w1.
  induction issues as [|issue more IH]; intros m w issues1 m1 w1; simpl.
  { intros [= <- _ _]. constructor. }
  destruct (String.eqb (issue_type issue) "epic") eqn:Hty.
  - destruct (execute_command W bd_create dry_run_id _ dry_run w)
      as [[success issue_id] w'].
    destruct success.
    + destruct (create_epics W bd_create dry_run_id bd_path dry_run more _ w')
        as [[more' m'] w''] eqn:Hmore.
      intros [= <- <- <-]. constructor; [|by eapply IH].
      right. by exists issue_id.
    + destruct (create_epics W bd_create dry_run_id bd_path dry_run more m w')
        as [[more' m'] w''] eqn:Hmore.
      intros [= <- <- <-]. constructor; [by left|by eapply IH].
  - destruct (create_epics W bd_create dry_run_id bd_path dry_run more m w)
      as [[more' m'] w''] eqn:Hmore.
    intros [= <- <- <-]. constructor; [by left|by eapply IH].
Qed.

Lemma stamped_command a b : stamped a b → to_command b bd_path = to_command a bd_path.
Proof. by intros [->|(issue_id & _ & ->)]. Qed.

Lemma stamped_children issues issues1 :
  Forall2 stamped issues issues1 →
  List.filter (λ i, negb (is_epic i)) issues1
  = List.filter (λ i, negb (is_epic i)) issues.
Proof.
  induction 1 as [|a b l l' Hab _ IH]; [done|]. simpl.
  destruct Hab as [->|(issue_id & Ha & ->)].
  - by rewrite IH.
  - unfold is_epic in *. simpl. by rewrite Ha.
Qed.


Lemma create_children_log m issues pm w issues2 pm2 w2 :
  create_children W bd_create dry_run_id bd_path false m issues pm w
  = (issues2, pm2, w2) →
  log w2
  = log w ++ map (create_event bd_path)
               (List.filter (λ i, negb (is_epic i)) issues).
Proof.
  revert pm w issues2 pm2 w2.
  induction issues as [|issue more IH]; intros pm w issues2 pm2 w2; simpl.
  { intros [= _ _ <-]. by rewrite app_nil_r. }
  unfold is_epic at 1.
  destruct (negb (String.eqb (issue_type issue) "epic")) eqn:Hty.
  - destruct (execute_command W bd_create dry_run_id _ false w)
      as [[success issue_id] w'] eqn:Hexec.
    apply execute_log in Hexec.
    destruct success.
    + destruct (create_children W bd_create dry_run_id bd_path false m more _ w')
        as [[more' pm'] w''] eqn:Hmore.
      intros [= _ _ <-]. rewrite (IH _ _ _ _ _ Hmore), Hexec.
      by rewrite <- app_assoc.
    + destruct (create_children W bd_create dry_run_id bd_path false m more _ w')
        as [[more' pm'] w''] eqn:Hmore.
      intros [= _ _ <-]. rewrite (IH _ _ _ _ _ Hmore), Hexec.
      by rewrite <- app_assoc.
  - destruct (create_children W bd_create dry_run_id bd_path false m more pm w)
      as [[more' pm'] w''] eqn:Hmore.
    intros [= _ _ <-]. by eapply IH.
Qed.

Lemma create_epics_table dry_run issues m w issues1 m1 w1 k issue_id :
  create_epics W bd_create dry_run_id bd_path dry_run issues m w
  = (issues1, m1, w1) →
  m1 !! k = Some issue_id →
  m !! k = Some issue_id ∨
  ∃ e, In e issues1 ∧ is_epic e = true ∧
       parent_ref (epic_id e) = k ∧ beads_id e = Some issue_id.
Proof.
  revert m w issues1 m1 w1.
  induction issues as [|issue more IH]; intros m w issues1 m1 w1; simpl.
  { intros [= _ <- _]. by left. }
  destruct (String.eqb (issue_type issue) "epic") eqn:Hty.
  - destruct (execute_command W bd_create dry_run_id _ dry_run w)
      as [[success new_id] w'].
    destruct success.
    + destruct (create_epics W bd_create dry_run_id bd_path dry_run more _ w')
        as [[more' m'] w''] eqn:Hmore.
      intros [= <- <- <-] Hk.
      destruct (IH _ _ _ _ _ Hmore Hk) as [Hm|(e & Hin & He)].
      * apply lookup_insert_Some in Hm as [[<- <-]|[_ Hm]]; [|by left].
        right. exists (set_beads_id issue new_id). by split; [left|].
      * right. exists e. by split; [right|].
    + destruct (create_epics W bd_create dry_run_id bd_path dry_run more m w')
        as [[more' m'] w''] eqn:Hmore.
      intros [= <- <- <-] Hk.
      destruct (IH _ _ _ _ _ Hmore Hk) as [Hm|(e & Hin & He)]; [by left|].
      right. exists e. by split; [right|].
  - destruct (create_epics W bd_create dry_run_id bd_path dry_run more m w)
      as [[more' m'] w''] eqn:Hmore.
    intros [= <- <- <-] Hk.
    destruct (IH _ _ _ _ _ Hmore Hk) as [Hm|(e & Hin & He)]; [by left|].
    right. exists e. by split; [right|].
Qed.

Lemma dict_set_in pm k v c p :
  In (c, p) (dict_set pm k v) → (c, p) = (k, v) ∨ In (c, p) pm.
Proof.
  induction pm as [|[k' v'] pm IH]; simpl.
  - intros [H|[]]. by left.
  - destruct (String.eqb k' k) eqn:Hk.
    + apply String.eqb_eq in Hk as ->. intros [H|H]; [by left|by right; right].
    + intros [H|H]; [by right; left|].
      destruct (IH H) as [?|?]; [by left|by right; right].
Qed.

Lemma dict_set_keys pm k v :
  List.NoDup (map fst pm) → List.NoDup (map fst (dict_set pm k v)).
Proof.
  intros Hnd. induction pm as [|[k' v'] pm IH]; simpl.
  - apply List.NoDup_cons_iff. split; [by intros []|constructor].
  - apply List.NoDup_cons_iff in Hnd as [Hk' Hnd].
    destruct (String.eqb k' k) eqn:Hk; simpl.
    + by apply List.NoDup_cons_iff.
    + apply List.NoDup_cons_iff. split; [|by apply IH].
      intros ([c p] & Hc & Hin)%in_map_iff. simpl in Hc. subst c.
      destruct (dict_set_in _ _ _ _ _ Hin) as [[= -> _]|H].
      * by rewrite String.eqb_refl in Hk.
      * apply Hk'. apply in_map_iff. by exists (k', p).
Qed.

Lemma create_children_edges dry_run m issues pm w issues2 pm2 w2 c p :
  create_children W bd_create dry_run_id bd_path dry_run m issues pm w
  = (issues2, pm2, w2) →
  In (c, p) pm2 →
  In (c, p) pm ∨
  ∃ it, In it issues2 ∧ is_epic it = false ∧ beads_id it = Some c ∧
        resolve_parent m it = p ∧ PyStr.truthy p = true.
Proof.
  revert pm w issues2 pm2 w2.
  induction issues as [|issue more IH]; intros pm w issues2 pm2 w2; simpl.
  { intros [= _ <- _]. by left. }
  destruct (String.eqb (issue_type issue) "epic") eqn:Hty; simpl.
  - destruct (create_children W bd_create dry_run_id bd_path dry_run m more pm w)
      as [[more' pm'] w''] eqn:Hmore.
    intros [= <- <- <-] Hin.
    destruct (IH _ _ _ _ _ Hmore Hin) as [?|(it & ? & ?)]; [by left|].
    right. exists it. by split; [right|].
  - destruct (execute_command W bd_create dry_run_id _ dry_run w)
      as [[success new_id] w'].
    destruct success.
    + destruct (create_children W bd_create dry_run_id bd_path dry_run m more _ w')
        as [[more' pm'] w''] eqn:Hmore.
      intros [= <- <- <-] Hin.
      destruct (IH _ _ _ _ _ Hmore Hin) as [Hpm|(it & ? & ?)].
      * destruct (PyStr.truthy (resolve_parent m issue)) eqn:Htr; [|by left].
        destruct (dict_set_in _ _ _ _ _ Hpm) as [[= -> ->]|?]; [|by left].
        right. exists (set_beads_id issue new_id).
        split; [by left|]. unfold is_epic. simpl. by rewrite Hty.
      * right. exists it. by split; [right|].
    + destruct (create_children W bd_create dry_run_id bd_path dry_run m more _ w')
        as [[more' pm'] w''] eqn:Hmore.
      intros [= <- <- <-] Hin.
      destruct (IH _ _ _ _ _ Hmore Hin) as [?|(it & ? & ?)]; [by left|].
      right. exists it. by split; [right|].
Qed.

Lemma create_children_keys dry_run m issues pm w :
  List.NoDup (map fst pm) →
  List.NoDup (map fst
    (create_children W bd_create dry_run_id bd_path dry_run m issues pm w).1.2).
Proof.
  revert pm w. induction issues as [|issue more IH]; intros pm w Hnd; simpl.
  { done. }
  destruct (String.eqb (issue_type issue) "epic") eqn:Hty; simpl.
  - specialize (IH pm w Hnd).
    by destruct (create_children W bd_create dry_run_id bd_path dry_run m more pm w)
      as [[more' pm'] w''].
  - destruct (execute_command W bd_create dry_run_id _ dry_run w)
      as [[success new_id] w'].
    destruct success.
    + match goal with
      | |- context [create_children _ _ _ _ _ _ more ?pm0 w'] =>
          specialize (IH pm0 w')
      end.
      destruct (create_children W bd_create dry_run_id bd_path dry_run m more _ w')
        as [[more' pm'] w''].
      apply IH. destruct (PyStr.truthy _); [by apply dict_set_keys|done].
    + specialize (IH pm w' Hnd).
      by destruct (create_children W bd_create dry_run_id bd_path dry_run m more pm w')
        as [[more' pm'] w''].
Qed.

Lemma resolve_parent_truthy m it p :
  resolve_parent m it = p → PyStr.truthy p = true →
  ∃ k, parent it = Some k ∧ m !! k = Some p.
Proof.
  unfold resolve_parent. destruct (parent it) as [k|]; [|by intros <-].
  destruct (PyStr.truthy k); [|by intros <-].
  destruct (m !! k) as [v|] eqn:Hk; simpl; [|by intros <-].
  intros -> _. by exists k.
Qed.

End Run.

Section Linking.

Context (W : Type) (bd_dep_add : string → W → completed * W).
Context (bd_path : string).

Implicit Types (w : world W) (c : tally) (edges : dict).

(** One edge: between one and three runs of its command, and exactly one
    of the two counters goes up by one. *)
Lemma link_edge_spec edge c w :
  let r := link_edge W bd_dep_add bd_path edge c w in
  ∃ l,
    log r.2 = log w ++ l ∧
    (1 ≤ count_exec l ≤ 3)%nat ∧
    (∀ cmd, In (Exec cmd) l → cmd = dep_cmd bd_path edge.1 edge.2) ∧
    ((success_count r.1 = success_count c + 1 ∧
      failed_count r.1 = failed_count c) ∨
     (success_count r.1 = success_count c ∧
      failed_count r.1 = failed_count c + 1))%Z.
Proof.
  unfold link_edge. set (cmd := dep_cmd bd_path edge.1 edge.2).
  cbn [retry_loop store log].
  repeat
    (match goal with
     | |- context [bd_dep_add cmd ?st] =>
         destruct (bd_dep_add cmd st) as [[|?] ?]
     | |- context [PyStr.contains ?a ?b] => destruct (PyStr.contains a b)
     end;
     cbn [retry_loop store log Z.ltb Z.compare Pos.compare Pos.compare_cont
          andb fst snd]);
    rewrite <- ?app_assoc; cbn [app];
    (eexists; split; [reflexivity|]);
    (split; [simpl; lia|]);
    (split; [intros ? Hin; simpl in Hin; intuition congruence|]);
    cbn [success_count failed_count]; by auto.
Qed.

Lemma link_edges_spec edges c w :
  let r := link_edges W bd_dep_add bd_path edges c w in
  (success_count r.1 + failed_count r.1
   = success_count c + failed_count c + Z.of_nat (length edges))%Z ∧
  (success_count c ≤ success_count r.1)%Z ∧
  (failed_count c ≤ failed_count r.1)%Z ∧
  ∃ l,
    log r.2 = log w ++ l ∧
    (length edges ≤ count_exec l ≤ 3 * length edges)%nat ∧
    ∀ cmd, In (Exec cmd) l →
      ∃ child_id parent_id,
        In (child_id, parent_id) edges ∧
        cmd = dep_cmd bd_path child_id parent_id.
Proof.
  revert c w. induction edges as [|edge more IH]; intros c w.
  { simpl. repeat split; try lia. exists []. rewrite app_nil_r.
    repeat split; try done; simpl; lia. }
  cbn [link_edges].
  pose proof (link_edge_spec edge c w) as Hedge. cbv zeta in Hedge.
  destruct (link_edge W bd_dep_add bd_path edge c w) as [c1 w1].
  destruct Hedge as (l1 & Hl1 & Hn1 & Hc1 & Ht).
  specialize (IH c1 w1). cbv zeta in IH.
  destruct (link_edges W bd_dep_add bd_path more c1 w1) as [c2 w2].
  destruct IH as (Hsum & Hs & Hf & l2 & Hl2 & Hn2 & Hc2).
  cbn [fst snd length] in *.
  repeat split; try lia.
  exists (l1 ++ l2). split; [by rewrite Hl2, Hl1, app_assoc|]. split.
  - assert (∀ a b, count_exec (a ++ b) = (count_exec a + count_exec b)%nat)
      as Happ.
    { intros a b. induction a as [|[?|?] a IHa]; simpl; [done|lia|done]. }
    rewrite Happ. lia.
  - intros cmd [Hin|Hin]%in_app_iff.
    + destruct edge as [child_id parent_id]. exists child_id, parent_id.
      split; [by left|by apply Hc1].
    + destruct (Hc2 cmd Hin) as (child_id & parent_id & ? & ?).
      exists child_id, parent_id. by split; [right|].
Qed.

End Linking.

Section DryRun.

Context (W : Type) (bd_create : string → W → option string * W).
Context (dry_run_id : string → string) (bd_path : string).

Implicit Types (w : world W) (m : gmap string string) (pm : dict).

Local Arguments execute_command : simpl never.

Lemma create_epics_dry issues m w :
  let r := create_epics W bd_create dry_run_id bd_path true issues m w in
  r.2 = w ∧ Forall2 (dry_stamp dry_run_id bd_path is_epic) issues r.1.1.
Proof.
  revert m. induction issues as [|issue more IH]; intros m; simpl.
  { split; [done|constructor]. }
  unfold execute_command. cbn [fst snd].
  destruct (String.eqb (issue_type issue) "epic") eqn:Hty.
  - match goal with
    | |- context [create_epics _ _ _ _ _ more ?m0 w] => specialize (IH m0)
    end.
    cbv zeta in IH.
    destruct (create_epics W bd_create dry_run_id bd_path true more _ w)
      as [[more' m'] w'].
    cbn [fst snd] in *.
    destruct IH as [-> IH]. split; [done|]. constructor; [|done].
    unfold dry_stamp, is_epic. by rewrite Hty.
  - specialize (IH m). cbv zeta in IH.
    destruct (create_epics W bd_create dry_run_id bd_path true more m w)
      as [[more' m'] w'].
    cbn [fst snd] in *.
    destruct IH as [-> IH]. split; [done|]. constructor; [|done].
    unfold dry_stamp, is_epic. by rewrite Hty.
Qed.

Lemma create_children_dry m issues pm w :
  let r := create_children W bd_create dry_run_id bd_path true m issues pm w in
  r.2 = w ∧ Forall2 (dry_stamp dry_run_id bd_path (λ i, negb (is_epic i))) issues r.1.1.
Proof.
  revert pm. induction issues as [|issue more IH]; intros pm; simpl.
  { split; [done|constructor]. }
  unfold execute_command. cbn [fst snd].
  destruct (String.eqb (issue_type issue) "epic") eqn:Hty; simpl.
  - specialize (IH pm). cbv zeta in IH.
    destruct (create_children W bd_create dry_run_id bd_path true m more pm w)
      as [[more' pm'] w'].
    cbn [fst snd] in *.
    destruct IH as [-> IH]. split; [done|]. constructor; [|done].
    unfold dry_stamp, is_epic. by rewrite Hty.
  - match goal with
    | |- context [create_children _ _ _ _ _ _ more ?pm0 w] =>
        specialize (IH pm0)
    end.
    cbv zeta in IH.
    destruct (create_children W bd_create dry_run_id bd_path true m more _ w)
      as [[more' pm'] w'].
    cbn [fst snd] in *.
    destruct IH as [-> IH]. split; [done|]. constructor; [|done].
    unfold dry_stamp, is_epic. by rewrite Hty.
Qed.

End DryRun.

(** ** The run as a whole *)

Section RunProperties.

Context (W : Type) (bd_create : string → W → option string * W).
Context (bd_dep_add : string → W → completed * W).
Context (dry_run_id : string → string) (bd_path : string).

Implicit Types (w : world W) (issues : list Issue).


(** X2.  The lookup table built by the first pass is sound: a key that
    resolves to an identifier is the key of an epic of the list that was
    created with that identifier. *)
Theorem epic_table_sound dry_run issues w k issue_id :
  let r := create_epics W bd_create dry_run_id bd_path dry_run issues ∅ w in
  r.1.2 !! k = Some issue_id →
  ∃ e, In e r.1.1 ∧ is_epic e = true ∧
       parent_ref (epic_id e) = k ∧ beads_id e = Some issue_id.
Proof.
  intros r Hk. subst r.
  destruct (create_epics W bd_create dry_run_id bd_path dry_run issues ∅ w)
    as [[issues1 m1] w1] eqn:H1.
  cbn [fst snd] in *.
  by destruct (create_epics_table W bd_create dry_run_id bd_path
                 _ _ _ _ _ _ _ _ _ H1 Hk).
Qed.

(** A failed group, for a store without the third answer. *)
Lemma failed_group_total issues w key :
  let r1 := create_epics W bd_create dry_run_id bd_path false issues ∅ w in
  let r2 := create_children W bd_create dry_run_id bd_path false
              r1.1.2 r1.1.1 [] r1.2 in
  (∀ e, In e r1.1.1 → is_epic e = true →
        parent_ref (epic_id e) = key → beads_id e = None) →
  r1.1.2 !! key = None ∧
  (∀ it, In it issues → is_epic it = false → parent it = Some key →
     resolve_parent r1.1.2 it = EmptyString ∧
     ∃ l2, log r2.2 = log r1.2 ++ l2 ∧ In (create_event bd_path it) l2) ∧
  (∀ child_id parent_id, In (child_id, parent_id) r2.1.2 →
     ∃ it k, In it r2.1.1 ∧ beads_id it = Some child_id ∧
             parent it = Some k ∧ k ≠ key ∧
             r1.1.2 !! k = Some parent_id).
Proof.
  intros r1 r2 Hfail. subst r1 r2.
  destruct (create_epics W bd_create dry_run_id bd_path false issues ∅ w)
    as [[issues1 m1] w1] eqn:H1.
  cbn [fst snd] in *.
  destruct (create_children W bd_create dry_run_id bd_path false m1 issues1 [] w1)
    as [[issues2 pm] w2] eqn:H2.
  cbn [fst snd] in *.
  assert (m1 !! key = None) as Hkey.
  { destruct (m1 !! key) as [issue_id|] eqn:Hk; [|done].
    destruct (create_epics_table W bd_create dry_run_id bd_path
                _ _ _ _ _ _ _ _ _ H1 Hk)
      as [?|(e & Hin & He & Hek & Hid)]; [done|].
    by rewrite (Hfail e Hin He Hek) in Hid. }
  split; [done|]. split.
  - intros it Hin Hne Hpar. split.
    + unfold resolve_parent. rewrite Hpar, Hkey. by destruct (PyStr.truthy _).
    + eexists. split; [by eapply create_children_log|].
      rewrite (stamped_children _ _
                 (create_epics_stamps _ _ _ _ _ _ _ _ _ _ _ H1)).
      apply in_map, filter_In. split; [done|]. by rewrite Hne.
  - intros child_id parent_id Hin.
    destruct (create_children_edges W bd_create dry_run_id bd_path
                _ _ _ _ _ _ _ _ _ _ H2 Hin)
      as [[]|(it & Hit & _ & Hid & Hres & Htr)].
    destruct (resolve_parent_truthy _ _ _ Hres Htr) as (k & Hpar & Hk).
    exists it, k. repeat split; try done. intros ->. congruence.
Qed.

(** X4.  Every entry of the parent map pairs the identifier of a created
    issue that is no epic with the non-empty identifier the lookup table
    holds for that issue's parent key, and no child identifier has two
    entries. *)
Theorem pending_edges_sound dry_run (m : gmap string string) issues w :
  let r := create_children W bd_create dry_run_id bd_path dry_run m
             issues [] w in
  List.NoDup (map fst r.1.2) ∧
  ∀ child_id parent_id, In (child_id, parent_id) r.1.2 →
    parent_id ≠ EmptyString ∧
    ∃ it k, In it r.1.1 ∧ is_epic it = false ∧
            beads_id it = Some child_id ∧
            parent it = Some k ∧ m !! k = Some parent_id.
Proof.
  intros r. split.
  { apply create_children_keys. constructor. }
  subst r. intros child_id parent_id Hin.
  destruct (create_children W bd_create dry_run_id bd_path dry_run m issues [] w)
    as [[issues2 pm] w2] eqn:H2.
  cbn [fst snd] in *.
  destruct (create_children_edges W bd_create dry_run_id bd_path
              _ _ _ _ _ _ _ _ _ _ H2 Hin)
    as [[]|(it & Hit & Hne & Hid & Hres & Htr)].
  split; [by intros ->|].
  destruct (resolve_parent_truthy _ _ _ Hres Htr) as (k & Hpar & Hk).
  by exists it, k.
Qed.

(** X5.  A dry run never reaches the store: the world is left as it was,
    the linking pass is skipped, and every issue ends with the identifier
    computed from its own create command. *)
Theorem dry_run_is_silent issues w :
  let r := materialize W bd_create bd_dep_add dry_run_id bd_path true
             issues w in
  r_world W r = w ∧ r_tally W r = None ∧
  length (r_issues W r) = length issues ∧
  ∀ it, In it (r_issues W r) →
    beads_id it = Some (dry_run_id (to_command it bd_path)).
Proof.
  unfold materialize.
  pose proof (create_epics_dry W bd_create dry_run_id bd_path issues ∅ w)
    as H1. cbv zeta in H1.
  destruct (create_epics W bd_create dry_run_id bd_path true issues ∅ w)
    as [[issues1 m1] w1].
  cbn [fst snd] in H1. destruct H1 as [-> S1].
  pose proof (create_children_dry W bd_create dry_run_id bd_path m1 issues1
                [] w) as H2. cbv zeta in H2.
  destruct (create_children W bd_create dry_run_id bd_path true m1 issues1 [] w)
    as [[issues2 pm] w2].
  cbn [fst snd] in H2. destruct H2 as [-> S2].
  assert (length issues2 = length issues ∧
          ∀ it, In it issues2 →
            beads_id it = Some (dry_run_id (to_command it bd_path)))
    as [Hlen Hids].
  { clear pm. revert issues2 S2.
    induction S1 as [|a b l l' Hab _ IH]; intros issues2 S2.
    - by apply Forall2_nil_inv_l in S2 as ->.
    - apply Forall2_cons_inv_l in S2 as (c & l2 & Hbc & S2 & ->).
      destruct (IH _ S2) as [Hlen Hids]. split; [by simpl; rewrite Hlen|].
      intros it [<-|Hin]; [|by apply Hids].
      unfold dry_stamp, is_epic in *.
      destruct (String.eqb (issue_type a) "epic") eqn:Hty; subst b.
      + simpl in Hbc. rewrite Hty in Hbc. simpl in Hbc. by subst c.
      + rewrite Hty in Hbc. simpl in Hbc. by subst c. }
  by destruct pm.
Qed.

(** X6.  The linking pass counts every entry of the parent map exactly
    once, as a success or as a failure, never lowers a counter, and runs
    between one and three commands per entry, each the [dep add] of an
    entry. *)
Theorem link_tally (edges : dict) (c : tally) w :
  let r := link_edges W bd_dep_add bd_path edges c w in
  (success_count r.1 + failed_count r.1
   = success_count c + failed_count c + Z.of_nat (length edges))%Z ∧
  (success_count c ≤ success_count r.1)%Z ∧
  (failed_count c ≤ failed_count r.1)%Z ∧
  ∃ l,
    log r.2 = log w ++ l ∧
    (length edges ≤ count_exec l ≤ 3 * length edges)%nat ∧
    ∀ cmd, In (Exec cmd) l →
      ∃ child_id parent_id,
        In (child_id, parent_id) edges ∧
        cmd = dep_cmd bd_path child_id parent_id.
Proof. apply link_edges_spec. Qed.

(** X7.  An edge whose [dep add] fails twice with a locked database and
    then succeeds is counted as one success and no failure, after three
    runs of the command with waits of 500 and 1000 ms between them and the
    pacing wait of 50 ms at the end; an edge that succeeds at once is run
    once. *)
Theorem retry_then_success (edge : string * string) (c : tally) w :
  let cmd := dep_cmd bd_path edge.1 edge.2 in
  let linked := mkTally (success_count c + 1) (failed_count c) in
  (∀ e1 st1 e2 st2 st3,
     bd_dep_add cmd (store w) = (CalledProcessError e1, st1) →
     PyStr.contains "database is locked" e1 = true →
     bd_dep_add cmd st1 = (CalledProcessError e2, st2) →
     PyStr.contains "database is locked" e2 = true →
     bd_dep_add cmd st2 = (Completed, st3) →
     link_edge W bd_dep_add bd_path edge c w
     = (linked,
        mkWorld st3
          (log w ++ [Exec cmd; Sleep 500; Exec cmd; Sleep 1000; Exec cmd;
                     Sleep 50]))) ∧
  (∀ st1,
     bd_dep_add cmd (store w) = (Completed, st1) →
     link_edge W bd_dep_add bd_path edge c w
     = (linked, mkWorld st1 (log w ++ [Exec cmd; Sleep 50]))).
Proof.
  intros cmd linked. split.
  - intros e1 st1 e2 st2 st3 H1 L1 H2 L2 H3.
    unfold link_edge. fold cmd. cbn [retry_loop store log].
    rewrite H1, L1. cbn [retry_loop store log Z.ltb Z.compare andb].
    rewrite H2, L2. cbn [retry_loop store log Z.ltb Z.compare andb].
    rewrite H3. cbn [store log]. unfold linked. by rewrite <- !app_assoc.
  - intros st1 H1. unfold link_edge. fold cmd. cbn [retry_loop store log].
    rewrite H1. cbn [store log]. unfold linked. by rewrite <- !app_assoc.
Qed.

End RunProperties.

Lemma epic_table_sound_witness :
  ∃ e,
    In e (create_epics nat Sample.numbering Sample.no_dry_id "bd" false
            Sample.two_groups_issues ∅ (mkWorld 0%nat [])).1.1 ∧
    is_epic e = true ∧
    parent_ref (epic_id e) = "epic-2" ∧ beads_id e = Some "bd-0".
Proof.
  apply (epic_table_sound nat Sample.numbering Sample.no_dry_id "bd" false
           Sample.two_groups_issues (mkWorld 0%nat []) "epic-2" "bd-0").
  run.
Defined.

Lemma retry_then_success_witness :
  let cmd := dep_cmd "bd" "bd-2" "bd-0" in
  link_edge nat Sample.locked_twice "bd" ("bd-2", "bd-0") (mkTally 0 0)
    (mkWorld 0%nat [])
  = (mkTally 1 0,
     mkWorld 3%nat
       [Exec cmd; Sleep 500; Exec cmd; Sleep 1000; Exec cmd; Sleep 50]) ∧
  link_edge nat Sample.locked_twice "bd" ("bd-2", "bd-0") (mkTally 0 0)
    (mkWorld 2%nat [])
  = (mkTally 1 0, mkWorld 3%nat [Exec cmd; Sleep 50]).
Proof.
  intros cmd. split.
  - apply (proj1 (retry_then_success nat Sample.locked_twice "bd"
                    ("bd-2", "bd-0") (mkTally 0 0) (mkWorld 0%nat []))
             "Error: database is locked" 1%nat
             "Error: database is locked" 2%nat 3%nat); run.
  - apply (proj2 (retry_then_success nat Sample.locked_twice "bd"
                    ("bd-2", "bd-0") (mkTally 0 0) (mkWorld 2%nat []))
             3%nat); run.
Defined.

(** ** The run with the uncaught exception *)

Section UncaughtRun.

Context (W : Type) (bd_create : string → W → answer * W).
Context (bd_dep_add : string → W → completed * W).
Context (dry_run_id : string → string) (bd_path : string).

Implicit Types (w : world W) (m : gmap string string) (pm : dict).
Implicit Types (issues : list Issue) (dry_run : bool).

Local Arguments execute_command : simpl never.
Local Arguments Uncaught.execute_command : simpl never.

Lemma execute_command_caught cmd dry_run w :
  (∀ cmd st e, (bd_create cmd st).1 ≠ Raises e) →
  Uncaught.execute_command W bd_create dry_run_id cmd dry_run w
  = (Returned (execute_command W (caught bd_create) dry_run_id cmd dry_run w).1,
     (execute_command W (caught bd_create) dry_run_id cmd dry_run w).2).
Proof.
  intros Hobj. unfold Uncaught.execute_command, execute_command, caught.
  destruct dry_run; [done|].
  specialize (Hobj cmd (store w)).
  destruct (bd_create cmd (store w)) as [[issue_id| |e] st]; simpl in *;
    [done|done|by destruct (Hobj e)].
Qed.

Lemma create_epics_caught dry_run issues m w :
  (∀ cmd st e, (bd_create cmd st).1 ≠ Raises e) →
  let r := create_epics W (caught bd_create) dry_run_id bd_path dry_run
             issues m w in
  Uncaught.create_epics W bd_create dry_run_id bd_path dry_run issues m w
  = (Returned (r.1.1, r.1.2), r.2).
Proof.
  intros Hobj. revert m w.
  induction issues as [|issue more IH]; intros m w; simpl; [done|].
  destruct (String.eqb (issue_type issue) "epic").
  - rewrite (execute_command_caught _ _ _ Hobj).
    destruct (execute_command W (caught bd_create) dry_run_id _ dry_run w)
      as [[success issue_id] w']. simpl.
    destruct success.
    + rewrite IH.
      by destruct (create_epics W (caught bd_create) dry_run_id bd_path
                     dry_run more _ w') as [[more' m'] w''].
    + rewrite IH.
      by destruct (create_epics W (caught bd_create) dry_run_id bd_path
                     dry_run more _ w') as [[more' m'] w''].
  - rewrite IH.
    by destruct (create_epics W (caught bd_create) dry_run_id bd_path
                   dry_run more _ w) as [[more' m'] w''].
Qed.

Lemma create_children_caught dry_run m issues pm w :
  (∀ cmd st e, (bd_create cmd st).1 ≠ Raises e) →
  let r := create_children W (caught bd_create) dry_run_id bd_path dry_run
             m issues pm w in
  Uncaught.create_children W bd_create dry_run_id bd_path dry_run m issues
    pm w
  = (Returned (r.1.1, r.1.2), r.2).
Proof.
  intros Hobj. revert pm w.
  induction issues as [|issue more IH]; intros pm w; simpl; [done|].
  destruct (negb (String.eqb (issue_type issue) "epic")).
  - rewrite (execute_command_caught _ _ _ Hobj).
    destruct (execute_command W (caught bd_create) dry_run_id _ dry_run w)
      as [[success issue_id] w']. simpl.
    destruct success.
    + rewrite IH.
      by destruct (create_children W (caught bd_create) dry_run_id bd_path
                     dry_run m more _ w') as [[more' pm'] w''].
    + rewrite IH.
      by destruct (create_children W (caught bd_create) dry_run_id bd_path
                     dry_run m more _ w') as [[more' pm'] w''].
  - rewrite IH.
    by destruct (create_children W (caught bd_create) dry_run_id bd_path
                   dry_run m more _ w) as [[more' pm'] w''].
Qed.







(** X3.  In a run in which no create command makes [execute_command]
    raise, a group whose creation failed is skipped, not an error: both
    passes return, and when no epic with the key ends the first pass with
    an identifier, the key is not in the lookup table, every other issue
    that refers to it is still sent to the store in the second pass, and
    every entry of the parent map was recorded for an issue whose parent
    key is another one. *)
Theorem failed_group_is_skipped issues w key :
  (∀ cmd st e, (bd_create cmd st).1 ≠ Raises e) →
  ∃ issues1 m1 w1 issues2 pm w2,
    Uncaught.create_epics W bd_create dry_run_id bd_path false issues ∅ w
    = (Returned (issues1, m1), w1) ∧
    Uncaught.create_children W bd_create dry_run_id bd_path false m1 issues1
      [] w1
    = (Returned (issues2, pm), w2) ∧
    ((∀ e, In e issues1 → is_epic e = true →
           parent_ref (epic_id e) = key → beads_id e = None) →
     m1 !! key = None ∧
     (∀ it, In it issues → is_epic it = false → parent it = Some key →
        resolve_parent m1 it = EmptyString ∧
        ∃ l2, log w2 = log w1 ++ l2 ∧ In (create_event bd_path it) l2) ∧
     (∀ child_id parent_id, In (child_id, parent_id) pm →
        ∃ it k, In it issues2 ∧ beads_id it = Some child_id ∧
                parent it = Some k ∧ k ≠ key ∧
                m1 !! k = Some parent_id)).
Proof.
  intros Hobj.
  pose proof (failed_group_total W (caught bd_create) dry_run_id bd_path
                issues w key) as H. cbv zeta in H.
  set (r1 := create_epics W (caught bd_create) dry_run_id bd_path false
               issues ∅ w) in *.
  set (r2 := create_children W (caught bd_create) dry_run_id bd_path false
               r1.1.2 r1.1.1 [] r1.2) in *.
  exists r1.1.1, r1.1.2, r1.2, r2.1.1, r2.1.2, r2.2.
  split; [by rewrite (create_epics_caught _ _ _ _ Hobj)|].
  split; [by rewrite (create_children_caught _ _ _ _ _ Hobj)|].
  exact H.
Qed.

End UncaughtRun.


Lemma numbering_answers_objects cmd st e :
  (Sample.numbering_answers cmd st).1 ≠ Raises e.
Proof. unfold Sample.numbering_answers. by destruct (PyStr.contains _ _). Qed.



Lemma failed_group_is_skipped_witness :
  ∃ issues1 m1 w1 issues2 pm w2,
    Uncaught.create_epics nat Sample.numbering_answers Sample.no_dry_id "bd"
      false Sample.two_groups_issues ∅ (mkWorld 0%nat [])
    = (Returned (issues1, m1), w1) ∧
    Uncaught.create_children nat Sample.numbering_answers Sample.no_dry_id
      "bd" false m1 issues1 [] w1
    = (Returned (issues2, pm), w2) ∧
    m1 !! "epic-1" = None ∧
    (∀ it, In it Sample.two_groups_issues → is_epic it = false →
       parent it = Some "epic-1" →
       resolve_parent m1 it = EmptyString ∧
       ∃ l2, log w2 = log w1 ++ l2 ∧ In (create_event "bd" it) l2) ∧
    (∀ child_id parent_id, In (child_id, parent_id) pm →
       ∃ it k, In it issues2 ∧ beads_id it = Some child_id ∧
               parent it = Some k ∧ k ≠ "epic-1" ∧
               m1 !! k = Some parent_id).
Proof.
  destruct (failed_group_is_skipped nat Sample.numbering_answers
              Sample.no_dry_id "bd" Sample.two_groups_issues
              (mkWorld 0%nat []) "epic-1" numbering_answers_objects)
    as (issues1 & m1 & w1 & issues2 & pm & w2 & H1 & H2 & H).
  exists issues1, m1, w1, issues2, pm, w2.
  split; [done|]. split; [done|]. apply H.
  vm_compute in H1. injection H1 as <- _ _.
  intros e [<-|[<-|[<-|[<-|[]]]]]; vm_compute; intros He Hkey;
    first [reflexivity | discriminate].
Defined.

(** ** The two tables, in closed form *)

Section Tables.

Context (W : Type) (bd_create : string → W → option string * W).
Context (dry_run_id : string → string) (bd_path : string).

Implicit Types (w : world W) (m : gmap string string) (pm : dict).
Implicit Types (issues : list Issue) (dry_run : bool).

Local Arguments execute_command : simpl never.

Lemma create_epics_last dry_run issues m w issues1 m1 w1 k :
  Forall (λ e, beads_id e = None) issues →
  create_epics W bd_create dry_run_id bd_path dry_run issues m w
  = (issues1, m1, w1) →
  m1 !! k = match last (omap (created_as k) issues1) with
            | Some issue_id => Some issue_id
            | None => m !! k
            end.
Proof.
  intros Hnone. revert m w issues1 m1 w1.
  induction Hnone as [|issue more Hissue _ IH]; intros m w issues1 m1 w1;
    simpl.
  { by intros [= <- <- _]. }
  destruct (String.eqb (issue_type issue) "epic") eqn:Hty.
  - destruct (execute_command W bd_create dry_run_id _ dry_run w)
      as [[success new_id] w'].
    destruct success.
    + destruct (create_epics W bd_create dry_run_id bd_path dry_run more _ w')
        as [[more' m'] w''] eqn:Hmore.
      intros [= <- <- <-].
      cbn [omap list_omap]. fold (omap (created_as k) more').
      unfold created_as at 1, is_epic.
      cbn [issue_type epic_id beads_id set_beads_id]. rewrite Hty.
      cbn [andb]. rewrite (IH _ _ _ _ _ Hmore).
      destruct (String.eqb_spec (parent_ref (epic_id issue)) k) as [->|Hk].
      * rewrite last_cons, lookup_insert_eq.
        by destruct (last (omap (created_as k) more')).
      * by rewrite lookup_insert_ne.
    + destruct (create_epics W bd_create dry_run_id bd_path dry_run more m w')
        as [[more' m'] w''] eqn:Hmore.
      intros [= <- <- <-].
      cbn [omap list_omap]. fold (omap (created_as k) more').
      unfold created_as at 1. rewrite Hissue, (IH _ _ _ _ _ Hmore).
      by destruct (_ && _).
  - destruct (create_epics W bd_create dry_run_id bd_path dry_run more m w)
      as [[more' m'] w''] eqn:Hmore.
    intros [= <- <- <-].
    cbn [omap list_omap]. fold (omap (created_as k) more').
    unfold created_as at 1. rewrite Hissue, (IH _ _ _ _ _ Hmore).
    by destruct (_ && _).
Qed.

Lemma dict_set_other pm k v c p :
  k ≠ c → In (c, p) (dict_set pm k v) ↔ In (c, p) pm.
Proof.
  intros Hkc. induction pm as [|[k' v'] pm IH]; simpl.
  - split; [|done]. intros [[= ? _]|[]]. done.
  - destruct (String.eqb_spec k' k) as [->|Hk]; simpl.
    + split; (intros [[= ? _]|?]; [done|by right]).
    + by rewrite IH.
Qed.

Lemma dict_set_same pm k v p :
  List.NoDup (map fst pm) → In (k, p) (dict_set pm k v) ↔ p = v.
Proof.
  intros Hnd. induction pm as [|[k' v'] pm IH]; simpl.
  - split; [by intros [[= ->]|[]]|intros ->; by left].
  - apply List.NoDup_cons_iff in Hnd as [Hk' Hnd]. simpl in Hk'.
    destruct (String.eqb_spec k' k) as [->|Hk]; simpl.
    + split; [|intros ->; by left].
      intros [[= ->]|Hin]; [done|].
      destruct Hk'. apply in_map_iff. by exists (k, p).
    + rewrite <- (IH Hnd). split; [|by right].
      by intros [[= ? _]|?].
Qed.

Lemma create_children_last dry_run m issues pm w issues2 pm2 w2 c p :
  Forall (λ e, beads_id e = None) issues →
  List.NoDup (map fst pm) →
  create_children W bd_create dry_run_id bd_path dry_run m issues pm w
  = (issues2, pm2, w2) →
  In (c, p) pm2 ↔
  match last (omap (linked_as m c) issues2) with
  | Some parent_id => p = parent_id
  | None => In (c, p) pm
  end.
Proof.
  intros Hnone. revert pm w issues2 pm2 w2.
  induction Hnone as [|issue more Hissue _ IH]; intros pm w issues2 pm2 w2 Hnd;
    simpl.
  { by intros [= <- <- _]. }
  destruct (String.eqb (issue_type issue) "epic") eqn:Hty; simpl.
  - destruct (create_children W bd_create dry_run_id bd_path dry_run m more pm w)
      as [[more' pm'] w''] eqn:Hmore.
    intros [= <- <- <-].
    cbn [omap list_omap]. fold (omap (linked_as m c) more').
    unfold linked_as at 1. by rewrite Hissue, (IH _ _ _ _ _ Hnd Hmore).
  - destruct (execute_command W bd_create dry_run_id _ dry_run w)
      as [[success new_id] w'].
    destruct success.
    + destruct (create_children W bd_create dry_run_id bd_path dry_run m more _ w')
        as [[more' pm'] w''] eqn:Hmore.
      intros [= <- <- <-].
      cbn [omap list_omap]. fold (omap (linked_as m c) more').
      unfold linked_as at 1, is_epic.
      cbn [issue_type beads_id set_beads_id]. rewrite Hty. cbn [negb andb].
      change (resolve_parent m (set_beads_id issue new_id))
        with (resolve_parent m issue).
      destruct (PyStr.truthy (resolve_parent m issue)) eqn:Htr.
      * rewrite (IH _ _ _ _ _ (dict_set_keys _ _ _ Hnd) Hmore).
        destruct (String.eqb_spec new_id c) as [->|Hc]; cbn [andb].
        -- rewrite last_cons.
           destruct (last (omap (linked_as m c) more')); [done|].
           by apply dict_set_same.
        -- destruct (last (omap (linked_as m c) more')); [done|].
           by apply dict_set_other.
      * rewrite (IH _ _ _ _ _ Hnd Hmore). by rewrite andb_false_r.
    + destruct (create_children W bd_create dry_run_id bd_path dry_run m more _ w')
        as [[more' pm'] w''] eqn:Hmore.
      intros [= <- <- <-].
      cbn [omap list_omap]. fold (omap (linked_as m c) more').
      unfold linked_as at 1. by rewrite Hissue, (IH _ _ _ _ _ Hnd Hmore).
Qed.

(** X17.  The lookup table of the first pass, in closed form: for issues
    that enter without identifier, a key resolves to the identifier of the
    last epic of the list that carries the key and was created; a key that
    no created epic carries is absent.  So of two groups with the same
    number the later one receives the items of both. *)
Theorem epic_table_last dry_run issues w key :
  let r := create_epics W bd_create dry_run_id bd_path dry_run issues ∅ w in
  Forall (λ e, beads_id e = None) issues →
  r.1.2 !! key = last (omap (created_as key) r.1.1).
Proof.
  intros r Hnone. subst r.
  destruct (create_epics W bd_create dry_run_id bd_path dry_run issues ∅ w)
    as [[issues1 m1] w1] eqn:H1.
  cbn [fst snd]. rewrite (create_epics_last _ _ _ _ _ _ _ key Hnone H1).
  by destruct (last _).
Qed.

(** X18.  The parent map of the second pass, in closed form: for issues
    that enter without identifier, an identifier is paired with a parent
    exactly when some issue that is no epic was created with it and
    resolved a non-empty parent, and the parent is the one resolved for
    the last such issue of the list. *)
Theorem pending_edges_last dry_run (m : gmap string string) issues w
    child_id parent_id :
  let r := create_children W bd_create dry_run_id bd_path dry_run m
             issues [] w in
  Forall (λ e, beads_id e = None) issues →
  In (child_id, parent_id) r.1.2 ↔
  last (omap (linked_as m child_id) r.1.1) = Some parent_id.
Proof.
  intros r Hnone. subst r.
  destruct (create_children W bd_create dry_run_id bd_path dry_run m issues [] w)
    as [[issues2 pm] w2] eqn:H2.
  cbn [fst snd].
  rewrite (create_children_last dry_run m issues [] w issues2 pm w2
             child_id parent_id Hnone (List.NoDup_nil _) H2).
  destruct (last _); [|done]. split; [by intros ->|by intros [= ->]].
Qed.

End Tables.

Lemma epic_table_last_witness :
  let r := create_epics nat Sample.counting Sample.no_dry_id "bd" false
             Sample.same_number_issues ∅ (mkWorld 0%nat []) in
  r.1.2 !! "epic-1" = last (omap (created_as "epic-1") r.1.1) ∧
  r.1.2 !! "epic-1" = Some "bd-1".
Proof.
  split; [|run].
  apply (epic_table_last nat Sample.counting Sample.no_dry_id "bd" false
           Sample.same_number_issues (mkWorld 0%nat []) "epic-1").
  repeat constructor.
Defined.

Lemma pending_edges_last_witness :
  let m : gmap string string := {[ "epic-1" := "bd-1" ]} in
  let r := create_children nat Sample.counting Sample.no_dry_id "bd" false
             m Sample.same_number_issues [] (mkWorld 2%nat []) in
  (In ("bd-2", "bd-1") r.1.2 ↔
   last (omap (linked_as m "bd-2") r.1.1) = Some "bd-1") ∧
  r.1.2 = [("bd-2", "bd-1"); ("bd-3", "bd-1")].
Proof.
  split; [|run].
  apply (pending_edges_last nat Sample.counting Sample.no_dry_id "bd" false
           {[ "epic-1" := "bd-1" ]} Sample.same_number_issues
           (mkWorld 2%nat []) "bd-2" "bd-1").
  repeat constructor.
Defined.

(** * Further properties of the parser *)

(** ** When [parse] raises *)

Lemma feature_attrs_raises_at rest a e :
  feature_attrs rest a = Raised e →
  ∃ L, In L (attr_block rest) ∧ is_priority_line L = true ∧
       priority_of L = Raised e.
Proof.
  revert a. induction rest as [|l rest IH]; intros a; [done|].
  cbn [feature_attrs]. cbv zeta.
  destruct (negb _) eqn:Hblank; [done|]. apply negb_false_iff in Hblank.
  destruct (PyStr.startswith "- Priority:" _) eqn:Hp.
  { rewrite (attr_block_cons l rest) by (done || by eapply dash_not_fence).
    destruct (priority_of (PyStr.strip l)) as [n|e'] eqn:Hn.
    - intros (L & ? & ?)%IH. exists L. by split; [right|].
    - intros [= <-]. exists (PyStr.strip l). by split; [left|]. }
  destruct (PyStr.startswith "- Type:" _) eqn:Ht.
  { rewrite (attr_block_cons l rest) by (done || by eapply dash_not_fence).
    destruct (type_of_returns _ Ht) as [t ->].
    intros (L & ? & ?)%IH. exists L. by split; [right|]. }
  destruct (PyStr.startswith "- Description:" _) eqn:Hd.
  { rewrite (attr_block_cons l rest) by (done || by eapply dash_not_fence).
    destruct (description_of_returns _ Hd) as [d ->].
    intros (L & ? & ?)%IH. exists L. by split; [right|]. }
  fold (fence (PyStr.strip l)). destruct (fence _) eqn:Hf; [done|].
  rewrite (attr_block_cons l rest) by done.
  intros (L & ? & ?)%IH. exists L. by split; [right|].
Qed.

Lemma feature_attrs_returns_all rest a a' L :
  feature_attrs rest a = Returned a' →
  In L (attr_block rest) → is_priority_line L = true →
  ∃ n, priority_of L = Returned n.
Proof.
  revert a. induction rest as [|l rest IH]; intros a; [done|].
  cbn [feature_attrs]. cbv zeta.
  destruct (negb _) eqn:Hblank.
  { apply negb_true_iff in Hblank. intros _.
    by rewrite attr_block_stop by (by left). }
  apply negb_false_iff in Hblank.
  destruct (PyStr.startswith "- Priority:" _) eqn:Hp.
  { rewrite (attr_block_cons l rest) by (done || by eapply dash_not_fence).
    destruct (priority_of (PyStr.strip l)) as [n|e'] eqn:Hn; [|done].
    intros Ha [<-|Hin] HL; [by exists n|by eapply IH]. }
  destruct (PyStr.startswith "- Type:" _) eqn:Ht.
  { rewrite (attr_block_cons l rest) by (done || by eapply dash_not_fence).
    destruct (type_of _); [|done].
    intros Ha [<-|Hin] HL; [|by eapply IH].
    unfold is_priority_line in HL. congruence. }
  destruct (PyStr.startswith "- Description:" _) eqn:Hd.
  { rewrite (attr_block_cons l rest) by (done || by eapply dash_not_fence).
    destruct (description_of _); [|done].
    intros Ha [<-|Hin] HL; [|by eapply IH].
    unfold is_priority_line in HL. congruence. }
  fold (fence (PyStr.strip l)). destruct (fence _) eqn:Hf.
  { intros _. by rewrite attr_block_stop by (by right). }
  rewrite (attr_block_cons l rest) by done.
  intros Ha [<-|Hin] HL; [|by eapply IH].
  unfold is_priority_line in HL. congruence.
Qed.

Lemma attr_block_lines rest L :
  In L (attr_block rest) → ∃ l, In l rest ∧ L = PyStr.strip l.
Proof.
  induction rest as [|l rest IH]; [done|].
  cbn [attr_block]. cbv zeta.
  destruct (negb _); [done|]. destruct (fence _); [done|].
  intros [<-|Hin].
  - exists l. by split; [left|].
  - destruct (IH Hin) as (l' & ? & ?). exists l'. by split; [right|].
Qed.

Lemma parse_loop_raises_at lines st acc res e :
  parse_loop lines st acc = (res, Some e) →
  ∃ l, In l lines ∧ is_priority_line (PyStr.strip l) = true.
Proof.
  revert st acc. induction lines as [|raw rest IH]; intros st acc; simpl.
  { done. }
  destruct (body raw rest st) as [[emitted st']|e'] eqn:Hb.
  - intros (l & ? & ?)%IH. exists l. by split; [right|].
  - intros _. unfold body in Hb. destruct (classify _ _); try done.
    destruct (feature_attrs rest default_attrs) eqn:Ha; [done|].
    destruct (feature_attrs_raises_at _ _ _ Ha) as (L & HL & Hp & _).
    destruct (attr_block_lines _ _ HL) as (l & Hl & ->).
    exists l. by split; [right|].
Qed.

(** X8.  A document of ASCII text without any priority attribute line is
    always parsed: [parse] returns a list, whatever else the text holds. *)
Theorem parse_without_priority_returns path content :
  PyStr.isascii content = true →
  Forall (λ l, is_priority_line (PyStr.strip l) = false) (lines_of content) →
  ∃ res, parse_new path content = Returned res.
Proof.
  intros _ Hno. rewrite parse_new_unfold.
  destruct (parse_loop (lines_of content) start []) as [res [e|]] eqn:Hl;
    [|by exists res].
  destruct (parse_loop_raises_at _ _ _ _ _ Hl) as (l & Hin & Hp).
  rewrite Forall_forall in Hno. apply list_elem_of_In in Hin.
  by rewrite (Hno l Hin) in Hp.
Qed.

Lemma parse_without_priority_returns_witness :
  ∃ res, parse_new "WORKPLAN.md" Sample.two_groups = Returned res.
Proof.
  apply (parse_without_priority_returns "WORKPLAN.md" Sample.two_groups).
  - run.
  - run_lines.
Defined.

(** X9.  For ASCII text, parsing is all or nothing: if the attribute block of
    any feature
    line that the scan recognises holds a priority line whose value [int]
    rejects, [parse] raises [ValueError] and returns no issue at all, also
    none of those met before that line. *)
Theorem bad_priority_fails_parse path content i raw t L :
  PyStr.isascii content = true →
  lines_of content !! i = Some raw →
  classify (PyStr.strip raw)
    (current_section (cursor_after (take i (lines_of content)) start))
  = BFeature t →
  In L (attr_block (drop (S i) (lines_of content))) →
  is_priority_line L = true →
  priority_of L = Raised ValueError →
  parse_new path content = Raised ValueError.
Proof.
  intros _ Hl Hc HL Hp Hbad.
  destruct (parse_new path content) as [res|e] eqn:Hparse.
  - destruct (parse_new_body_returns _ _ _ _ _ Hparse Hl) as (em & st' & Hb).
    unfold body in Hb. rewrite Hc in Hb.
    destruct (feature_attrs _ _) as [a|] eqn:Ha; [|done].
    destruct (feature_attrs_returns_all _ _ _ _ Ha HL Hp) as [n Hn].
    congruence.
  - by rewrite (parse_new_raises _ _ _ Hparse).
Qed.

Lemma bad_priority_fails_parse_witness :
  parse_new "WORKPLAN.md" Sample.priority_high = Raised ValueError.
Proof.
  apply (bad_priority_fails_parse "WORKPLAN.md" Sample.priority_high 2
           "#### 1.1 user-configurable retries" "user-configurable retries"
           "- Priority: high"); try run.
  vm_compute. by left.
Defined.

(** ** Order of the result *)

Lemma omap_seq_S {A} (f : nat → option A) a n :
  omap f (seq (S a) n) = omap (λ i, f (S i)) (seq a n).
Proof.
  revert a. induction n as [|n IH]; intros a; [done|].
  simpl. by rewrite IH.
Qed.

Lemma omap_length_le {A B} (f : A → option B) (l : list A) :
  (length (omap f l) ≤ length l)%nat.
Proof.
  induction l as [|x l IH]; [done|]. cbn [omap list_omap].
  fold (omap f l). destruct (f x); simpl; lia.
Qed.

Lemma line_issue_0 st raw rest :
  line_issue st (raw :: rest) 0
  = match body raw rest st with
    | Returned (emitted, _) => emitted
    | Raised _ => None
    end.
Proof. done. Qed.

Lemma line_issue_S st raw rest i :
  line_issue st (raw :: rest) (S i) = line_issue (next_cursor raw st) rest i.
Proof. done. Qed.

Lemma parse_loop_order lines st res :
  parse_loop lines st [] = (res, None) →
  res = omap (line_issue st lines) (seq 0 (length lines)).
Proof.
  revert st res. induction lines as [|raw rest IH]; intros st res.
  { by intros [= <-]. }
  cbn [parse_loop length seq omap list_omap].
  rewrite line_issue_0.
  destruct (body raw rest st) as [[emitted st']|e] eqn:Hb; [|done].
  rewrite parse_loop_acc. intros [= <- He].
  rewrite omap_seq_S.
  assert (omap (λ i, line_issue st (raw :: rest) (S i)) (seq 0 (length rest))
          = (parse_loop rest st' []).1) as ->.
  { rewrite (body_cursor _ _ _ _ _ Hb). symmetry. apply IH.
    rewrite <- He. by rewrite <- (body_cursor _ _ _ _ _ Hb),
      <- surjective_pairing. }
  by destruct emitted.
Qed.

Lemma line_issue_emitted st lines i it :
  line_issue st lines i = Some it ↔ emitted_at st lines i it.
Proof.
  unfold line_issue, emitted_at. split.
  - destruct (lines !! i) as [raw|]; [|done].
    destruct (body _ _ _) as [[emitted st']|] eqn:Hb; [|done].
    intros ->. by exists raw, st'.
  - intros (raw & st' & -> & ->). done.
Qed.

(** X10.  For ASCII text, the returned issues are in the order of the text:
    the result is
    what the lines append, read off line by line from the first to the
    last, with at most one issue per line. *)
Theorem parse_source_order path content res :
  PyStr.isascii content = true →
  parse_new path content = Returned res →
  res = omap (line_issue start (lines_of content))
          (seq 0 (length (lines_of content))) ∧
  (length res ≤ length (lines_of content))%nat.
Proof.
  intros _. rewrite parse_new_unfold.
  destruct (parse_loop (lines_of content) start []) as [res' [e|]] eqn:Hl;
    [done|].
  intros [= <-]. pose proof (parse_loop_order _ _ _ Hl) as ->.
  split; [done|].
  etrans; [apply omap_length_le|]. by rewrite length_seq.
Qed.

Lemma parse_source_order_witness :
  Sample.two_groups_issues
  = omap (line_issue start (lines_of Sample.two_groups))
      (seq 0 (length (lines_of Sample.two_groups))) ∧
  (length Sample.two_groups_issues ≤ length (lines_of Sample.two_groups))%nat.
Proof.
  apply (parse_source_order "WORKPLAN.md" Sample.two_groups); run.
Defined.

(** ** Sections gate the item lines *)

Lemma classify_section line sec name :
  classify line sec = BSection name → is_section_line line = true.
Proof.
  unfold classify, is_section_line.
  destruct (Pattern.EPIC_PATTERN line) as [[? ?]|]; [done|].
  destruct (PyStr.startswith "### " line); [done|].
  repeat (destruct (guarded _ _); [done|]). done.
Qed.

Lemma classify_outside_section line :
  item_branch (classify line None) = false.
Proof.
  unfold classify.
  destruct (Pattern.EPIC_PATTERN line) as [[? ?]|]; [done|].
  destruct (PyStr.startswith "### " line); [done|].
  unfold in_section, guarded.
  destruct (Pattern.FEATURE_PATTERN line) as [[? ?]|];
    destruct (Pattern.TASK_PATTERN line) as [[? ?]|];
    destruct (Pattern.CHORE_PATTERN line) as [[? ?]|];
    by destruct (Pattern.BUG_PATTERN line) as [[? ?]|].
Qed.

Lemma next_cursor_no_section raw st :
  is_section_line (PyStr.strip raw) = false →
  current_section (next_cursor raw st) = current_section st.
Proof.
  intros Hno. unfold next_cursor.
  destruct (classify _ _) eqn:Hc; try done.
  apply classify_section in Hc. congruence.
Qed.

Lemma cursor_after_no_section pre st :
  Forall (λ l, is_section_line (PyStr.strip l) = false) pre →
  current_section (cursor_after pre st) = current_section st.
Proof.
  intros H. revert st. induction H as [|raw pre Hraw _ IH]; intros st.
  - done.
  - unfold cursor_after in *. simpl. rewrite IH.
    by apply next_cursor_no_section.
Qed.

(** X11.  For ASCII text, item lines count only inside a section: as long
    as no section
    header has been met, the only lines that append an issue are group
    headers, so whatever is appended there is an epic without parent
    reference that carries the number and title of its header line. *)
Theorem only_headers_before_sections path content res i raw it :
  PyStr.isascii content = true →
  parse_new path content = Returned res →
  lines_of content !! i = Some raw →
  Forall (λ l, is_section_line (PyStr.strip l) = false)
    (take i (lines_of content)) →
  emitted_at start (lines_of content) i it →
  In it res ∧
  ∃ g, Pattern.EPIC_PATTERN (PyStr.strip raw) = Some (g, title it) ∧
       issue_type it = "epic" ∧ priority it = 1%Z ∧
       parent it = None ∧ epic_id it = Some g.
Proof.
  intros _ Hp Hl Hno Hem. split; [by eapply parse_new_complete|].
  destruct Hem as (raw' & st' & Hl' & Hb).
  assert (raw' = raw) as -> by congruence.
  pose proof (body_emits _ _ _ _ _ Hb) as He.
  rewrite (cursor_after_no_section _ _ Hno) in He. simpl in He.
  pose proof (classify_outside_section (PyStr.strip raw)) as Hout.
  destruct (classify (PyStr.strip raw) None) as [g t| | | | | |] eqn:Hc;
    try done.
  subst it. exists g. repeat split; try done.
  unfold classify in Hc.
  destruct (Pattern.EPIC_PATTERN (PyStr.strip raw)) as [[g' t']|].
  - by injection Hc as -> ->.
  - destruct (PyStr.startswith "### " _); [done|].
    repeat (destruct (guarded _ _); [done|]). done.
Qed.

Lemma only_headers_before_sections_witness :
  In (mkIssue "Infra" "epic" 1 EmptyString None (Some "1") None)
    Sample.preface_issues ∧
  ∃ g, Pattern.EPIC_PATTERN (PyStr.strip "## Epic 1: Infra")
       = Some (g, "Infra") ∧
       "epic" = "epic" ∧ 1%Z = 1%Z ∧
       @None string = None ∧ Some "1" = Some g.
Proof.
  apply (only_headers_before_sections "WORKPLAN.md" Sample.preface
           Sample.preface_issues 2 "## Epic 1: Infra"
           (mkIssue "Infra" "epic" 1 EmptyString None (Some "1") None)).
  - run.
  - run.
  - run.
  - run_lines.
  - exists "## Epic 1: Infra", (mkCursor (Some "1") None). split; run.
Defined.

(** ** The description of a group *)

Lemma collect_description_block block rest :
  Forall (λ l, PyStr.truthy (PyStr.strip l) = true ∧
               PyStr.startswith "###" (PyStr.strip l) = false) block →
  (rest = [] ∨
   ∃ l rest', rest = l :: rest' ∧
     (PyStr.truthy (PyStr.strip l) = false ∨
      PyStr.startswith "###" (PyStr.strip l) = true)) →
  collect_description (block ++ rest) = map PyStr.strip block.
Proof.
  intros Hblock Hrest. induction Hblock as [|l block [Ht Hh] _ IH]; simpl.
  - destruct Hrest as [->|(l & rest' & -> & [Hl|Hl])]; [done| |].
    + simpl. by rewrite Hl.
    + simpl. rewrite Hl. by destruct (PyStr.truthy _).
  - by rewrite Ht, Hh, IH.
Qed.

(** X12.  For ASCII text, the description of a group is read from the first
    line below its
    header that starts with the description marker: it is made of the lines
    that follow the marker, stripped and joined with single spaces, up to
    the first blank line, the first line starting with three hashes or the
    end of the text.  What stands on the marker line itself is not used. *)
Theorem group_description path content res i raw g t pre marker block rest :
  PyStr.isascii content = true →
  parse_new path content = Returned res →
  lines_of content !! i = Some raw →
  Pattern.EPIC_PATTERN (PyStr.strip raw) = Some (g, t) →
  drop (S i) (lines_of content) = pre ++ marker :: block ++ rest →
  Forall (λ l, is_marker_line (PyStr.strip l) = false) pre →
  is_marker_line (PyStr.strip marker) = true →
  Forall (λ l, PyStr.truthy (PyStr.strip l) = true ∧
               PyStr.startswith "###" (PyStr.strip l) = false) block →
  (rest = [] ∨
   ∃ l rest', rest = l :: rest' ∧
     (PyStr.truthy (PyStr.strip l) = false ∨
      PyStr.startswith "###" (PyStr.strip l) = true)) →
  ∃ it,
    emitted_at start (lines_of content) i it ∧ In it res ∧
    title it = t ∧
    description it = PyStr.join " " (map PyStr.strip block).
Proof.
  intros _ Hp Hl Hh Hdrop Hpre Hm Hblock Hrest.
  destruct (parse_new_body_returns _ _ _ _ _ Hp Hl) as (em & st' & Hb).
  pose proof Hb as Hb'. unfold body in Hb'.
  rewrite (classify_header _ _ _ _ Hh) in Hb'. injection Hb' as <- _.
  eexists. split; [by exists raw, st'|]. split.
  { eapply parse_new_complete; [done|]. by exists raw, st'. }
  split; [done|]. simpl. rewrite Hdrop.
  rewrite (epic_description_skips pre marker (block ++ rest) Hpre Hm).
  by rewrite collect_description_block.
Qed.

Lemma group_description_witness :
  ∃ it,
    emitted_at start (lines_of Sample.two_groups) 4 it ∧
    In it Sample.two_groups_issues ∧
    title it = "UI" ∧
    description it = PyStr.join " " (map PyStr.strip ["Screens and widgets"]).
Proof.
  apply (group_description "WORKPLAN.md" Sample.two_groups
           Sample.two_groups_issues 4 "## Epic 2: UI" "2" "UI"
           [] "**Description:**" ["Screens and widgets"]
           [EmptyString; "### Tasks"; "**2.1.1** draw board"]);
    try run.
  - constructor.
  - repeat constructor.
  - right. exists EmptyString, ["### Tasks"; "**2.1.1** draw board"].
    split; [done|]. by left.
Defined.

(** ** Description and type of a feature *)

Lemma marker_exclusive n :
  (PyStr.startswith "- Priority:" n = true →
   is_type_line n = false ∧ is_description_line n = false) ∧
  (PyStr.startswith "- Type:" n = true → is_description_line n = false).
Proof.
  split; intros [r ->]%prefix_inv; by vm_compute.
Qed.

Lemma description_of_value r :
  description_of ("- Description:" +:+ r) = Returned (PyStr.strip r).
Proof. reflexivity. Qed.

Lemma feature_attrs_descriptions rest a a' :
  feature_attrs rest a = Returned a' →
  a_desc_lines a'
  = a_desc_lines a
    ++ map (λ l, PyStr.strip (PyStr.slice_from 14 l))
         (List.filter is_description_line (attr_block rest)).
Proof.
  revert a. induction rest as [|l rest IH]; intros a.
  { intros [= <-]. by rewrite app_nil_r. }
  cbn [feature_attrs]. cbv zeta.
  destruct (negb _) eqn:Hblank.
  { apply negb_true_iff in Hblank. intros [= <-].
    rewrite attr_block_stop by (by left). by rewrite app_nil_r. }
  apply negb_false_iff in Hblank.
  destruct (PyStr.startswith "- Priority:" _) eqn:Hp.
  { rewrite (attr_block_cons l rest) by (done || by eapply dash_not_fence).
    destruct (priority_of _); [|done]. intros Ha%IH. rewrite Ha.
    cbn [List.filter]. by destruct (proj1 (marker_exclusive _) Hp) as [_ ->]. }
  destruct (PyStr.startswith "- Type:" _) eqn:Ht.
  { rewrite (attr_block_cons l rest) by (done || by eapply dash_not_fence).
    destruct (type_of _); [|done]. intros Ha%IH. rewrite Ha.
    cbn [List.filter]. by rewrite (proj2 (marker_exclusive _) Ht). }
  destruct (PyStr.startswith "- Description:" _) eqn:Hd.
  { rewrite (attr_block_cons l rest) by (done || by eapply dash_not_fence).
    assert (description_of (PyStr.strip l)
            = Returned (PyStr.strip (PyStr.slice_from 14 (PyStr.strip l))))
      as -> by (pose proof Hd as [r ->]%prefix_inv; reflexivity).
    intros Ha%IH. rewrite Ha. cbn [List.filter a_desc_lines].
    change (is_description_line (PyStr.strip l))
      with (PyStr.startswith "- Description:" (PyStr.strip l)).
    rewrite Hd. cbn [map]. by rewrite <- app_assoc. }
  fold (fence (PyStr.strip l)). destruct (fence _) eqn:Hf.
  { intros [= <-]. rewrite attr_block_stop by (by right).
    by rewrite app_nil_r. }
  rewrite (attr_block_cons l rest) by done.
  intros Ha%IH. rewrite Ha. cbn [List.filter].
  change (is_description_line (PyStr.strip l))
    with (PyStr.startswith "- Description:" (PyStr.strip l)).
  by rewrite Hd.
Qed.

(** X13.  For ASCII text, the description of a feature is made of the
    description lines of
    its attribute block only: for each of them the text that follows the
    marker on the same line, stripped, and these joined with single spaces.
    Lines that merely follow a description line are not part of it. *)
Theorem feature_description path content res i raw t :
  PyStr.isascii content = true →
  parse_new path content = Returned res →
  lines_of content !! i = Some raw →
  classify (PyStr.strip raw)
    (current_section (cursor_after (take i (lines_of content)) start))
  = BFeature t →
  ∃ it,
    emitted_at start (lines_of content) i it ∧ In it res ∧
    title it = t ∧
    description it
    = PyStr.join " "
        (map (λ l, PyStr.strip (PyStr.slice_from 14 l))
           (List.filter is_description_line
              (attr_block (drop (S i) (lines_of content))))).
Proof.
  intros _ Hp Hl Hc.
  destruct (parse_new_body_returns _ _ _ _ _ Hp Hl) as (em & st' & Hb).
  pose proof Hb as Hb'. unfold body in Hb'. rewrite Hc in Hb'.
  destruct (feature_attrs _ _) as [a|] eqn:Ha; [|done].
  injection Hb' as <- _.
  eexists. split; [by exists raw, st'|]. split.
  { eapply parse_new_complete; [done|]. by exists raw, st'. }
  split; [done|]. simpl.
  by rewrite (feature_attrs_descriptions _ _ _ Ha).
Qed.

Lemma feature_description_witness :
  ∃ it,
    emitted_at start (lines_of Sample.described) 2 it ∧
    In it Sample.described_issues ∧
    title it = "retries" ∧
    description it
    = PyStr.join " "
        (map (λ l, PyStr.strip (PyStr.slice_from 14 l))
           (List.filter is_description_line
              (attr_block (drop 3 (lines_of Sample.described))))).
Proof.
  apply (feature_description "WORKPLAN.md" Sample.described
           Sample.described_issues 2 "#### 1.1 retries" "retries"); run.
Defined.

Lemma type_of_value v :
  all_chars (λ c, negb (Ascii.eqb c ":")) v = true →
  type_of ("- Type:" +:+ v) = Returned (PyStr.strip v).
Proof.
  intros Hv. unfold type_of.
  change (index (PyStr.split ":" ("- Type:" +:+ v)) 1)
    with (index (PyStr.split ":" v) 0).
  by rewrite (split_free ":" v Hv).
Qed.

Lemma feature_attrs_no_type rest a a' :
  Forall (λ l, is_type_line l = false) (attr_block rest) →
  feature_attrs rest a = Returned a' → a_issue_type a' = a_issue_type a.
Proof.
  revert a. induction rest as [|l rest IH]; intros a Hblock.
  { by intros [= <-]. }
  cbn [feature_attrs]. cbv zeta.
  destruct (negb _) eqn:Hblank; [by intros [= <-]|].
  apply negb_false_iff in Hblank.
  destruct (PyStr.startswith "- Priority:" _) eqn:Hp.
  { attr_step l rest Hblock. apply Forall_cons_1 in Hblock as [_ Hr].
    destruct (priority_of _); [|done]. intros H. by rewrite (IH _ Hr H). }
  destruct (PyStr.startswith "- Type:" _) eqn:Ht.
  { attr_step l rest Hblock. apply Forall_cons_1 in Hblock as [Hl _].
    unfold is_type_line in Hl. congruence. }
  destruct (PyStr.startswith "- Description:" _) eqn:Hd.
  { attr_step l rest Hblock. apply Forall_cons_1 in Hblock as [_ Hr].
    destruct (description_of _); [|done]. intros H. by rewrite (IH _ Hr H). }
  fold (fence (PyStr.strip l)). destruct (fence _) eqn:Hf; [by intros [= <-]|].
  attr_step l rest Hblock. apply Forall_cons_1 in Hblock as [_ Hr].
  by apply IH.
Qed.

Lemma feature_attrs_last_type rest a a' b1 L b2 :
  feature_attrs rest a = Returned a' →
  attr_block rest = b1 ++ L :: b2 →
  is_type_line L = true →
  Forall (λ l, is_type_line l = false) b2 →
  type_of L = Returned (a_issue_type a').
Proof.
  revert a b1. induction rest as [|l rest IH]; intros a b1.
  { intros _ H. by destruct b1. }
  cbn [feature_attrs]. cbv zeta.
  destruct (negb _) eqn:Hblank.
  { apply negb_true_iff in Hblank. intros _ Hb.
    rewrite attr_block_stop in Hb by (by left). by destruct b1. }
  apply negb_false_iff in Hblank.
  destruct (PyStr.startswith "- Priority:" _) eqn:Hp.
  { destruct (priority_of _); [|done].
    intros Ha Hb HL Hb2. attr_step l rest Hb.
    destruct b1 as [|x b1]; simpl in Hb.
    - injection Hb as HL' Hb. subst L.
      destruct (proj1 (marker_exclusive _) Hp) as [Hno _]. congruence.
    - injection Hb as _ Hb. by eapply IH. }
  destruct (PyStr.startswith "- Type:" _) eqn:Ht.
  { destruct (type_of (PyStr.strip l)) as [ty|] eqn:Hty; [|done].
    intros Ha Hb HL Hb2. attr_step l rest Hb.
    destruct b1 as [|x b1]; simpl in Hb.
    - injection Hb as HL' Hb. subst L. rewrite Hty. f_equal.
      symmetry. rewrite <- Hb in Hb2.
      by rewrite (feature_attrs_no_type _ _ _ Hb2 Ha).
    - injection Hb as _ Hb. by eapply IH. }
  destruct (PyStr.startswith "- Description:" _) eqn:Hd.
  { destruct (description_of _); [|done].
    intros Ha Hb HL Hb2. attr_step l rest Hb.
    destruct b1 as [|x b1]; simpl in Hb.
    - injection Hb as HL' Hb. subst L. unfold is_type_line in HL. congruence.
    - injection Hb as _ Hb. by eapply IH. }
  fold (fence (PyStr.strip l)). destruct (fence _) eqn:Hf.
  { intros _ Hb. rewrite attr_block_stop in Hb by (by right). by destruct b1. }
  intros Ha Hb HL Hb2. attr_step l rest Hb.
  destruct b1 as [|x b1]; simpl in Hb.
  - injection Hb as HL' Hb. subst L. unfold is_type_line in HL. congruence.
  - injection Hb as _ Hb. by eapply IH.
Qed.

(** X14.  For ASCII text, the type of a feature is the text of the last
    type line of its
    attribute block, whatever that text is: with no type line the issue is
    a feature; with a last type line whose value holds no further colon the
    issue has that value, stripped, as its type. *)
Theorem feature_type path content res i raw t :
  PyStr.isascii content = true →
  parse_new path content = Returned res →
  lines_of content !! i = Some raw →
  classify (PyStr.strip raw)
    (current_section (cursor_after (take i (lines_of content)) start))
  = BFeature t →
  ∃ it,
    emitted_at start (lines_of content) i it ∧ In it res ∧ title it = t ∧
    (Forall (λ l, is_type_line l = false)
       (attr_block (drop (S i) (lines_of content))) →
     issue_type it = "feature") ∧
    (∀ b1 v b2,
       attr_block (drop (S i) (lines_of content))
       = b1 ++ ("- Type:" +:+ v) :: b2 →
       all_chars (λ c, negb (Ascii.eqb c ":")) v = true →
       Forall (λ l, is_type_line l = false) b2 →
       issue_type it = PyStr.strip v).
Proof.
  intros _ Hp Hl Hc.
  destruct (parse_new_body_returns _ _ _ _ _ Hp Hl) as (em & st' & Hb).
  pose proof Hb as Hb'. unfold body in Hb'. rewrite Hc in Hb'.
  destruct (feature_attrs _ _) as [a|] eqn:Ha; [|done].
  injection Hb' as <- _.
  eexists. split; [by exists raw, st'|]. split.
  { eapply parse_new_complete; [done|]. by exists raw, st'. }
  split; [done|]. simpl. split.
  - intros Hno. by rewrite (feature_attrs_no_type _ _ _ Hno Ha).
  - intros b1 v b2 Hblock Hv Hb2.
    pose proof (feature_attrs_last_type _ _ _ _ _ _ Ha Hblock
                  (prefix_app "- Type:" v) Hb2) as Hty.
    rewrite (type_of_value v Hv) in Hty. by injection Hty.
Qed.

Lemma feature_type_witness :
  ∃ it,
    emitted_at start (lines_of Sample.described) 2 it ∧
    In it Sample.described_issues ∧ title it = "retries" ∧
    (Forall (λ l, is_type_line l = false)
       (attr_block (drop 3 (lines_of Sample.described))) →
     issue_type it = "feature") ∧
    (∀ b1 v b2,
       attr_block (drop 3 (lines_of Sample.described))
       = b1 ++ ("- Type:" +:+ v) :: b2 →
       all_chars (λ c, negb (Ascii.eqb c ":")) v = true →
       Forall (λ l, is_type_line l = false) b2 →
       issue_type it = PyStr.strip v).
Proof.
  apply (feature_type "WORKPLAN.md" Sample.described
           Sample.described_issues 2 "#### 1.1 retries" "retries"); run.
Defined.

(** * Properties of the generated script *)

Section ScriptProperties.

Context (bd_path : string).

Implicit Types (m : gmap string string) (issues : list Issue).

Lemma str_of_Z_inj a b : PyStr.str_of_Z a = PyStr.str_of_Z b → a = b.
Proof.
  unfold PyStr.str_of_Z. intros H. apply DecimalZ.to_int_inj.
  assert (∀ z, NilZero.int_of_string (NilZero.string_of_int (Z.to_int z))
               = Some (Z.to_int z)) as Hround.
  { intros z. apply NilZero.isi; destruct z; simpl; try discriminate;
      intros [= E]; by apply DecimalPos.Unsigned.to_uint_nonnil in E. }
  pose proof (Hround a) as Ha. rewrite H, Hround in Ha. by injection Ha.
Qed.

(** In script mode every epic gets its variable, so the table knows a key
    exactly when an epic of the list has it. *)
Lemma epics_table issues m p :
  (Script.epics bd_path issues m).2 !! p
  = if Script.names_epic issues p
    then Some ("$EPIC_" +:+ PyStr.slice_from 5 p)
    else m !! p.
Proof.
  revert m. induction issues as [|issue more IH]; intros m; [done|].
  cbn [Script.epics Script.names_epic existsb].
  destruct (String.eqb (issue_type issue) "epic") eqn:Hty; cbn [andb orb].
  - specialize (IH (<[parent_ref (epic_id issue) :=
                       "$" +:+ Script.epic_var issue]> m)).
    destruct (Script.epics bd_path more _) as [rest m'] eqn:He.
    cbn [snd] in *. rewrite IH.
    fold (Script.names_epic more p).
    destruct (String.eqb (parent_ref (epic_id issue)) p) eqn:Hk; cbn [orb].
    + apply String.eqb_eq in Hk as <-.
      rewrite lookup_insert_eq. by destruct (Script.names_epic more _).
    + apply String.eqb_neq in Hk. by rewrite lookup_insert_ne.
  - by rewrite IH.
Qed.

Lemma parent_var_linked issues0 m issue :
  (∀ p, m !! p = if Script.names_epic issues0 p
                 then Some ("$EPIC_" +:+ PyStr.slice_from 5 p) else None) →
  String.eqb (issue_type issue) "epic" = false →
  (Script.linked issues0 issue = true →
   Script.parent_var m issue
   = "$EPIC_" +:+ PyStr.slice_from 5 (default EmptyString (parent issue))) ∧
  (Script.linked issues0 issue = false →
   Script.parent_var m issue = EmptyString).
Proof.
  intros Hm Hty. unfold Script.linked, Script.parent_var. rewrite Hty.
  destruct (parent issue) as [p|]; [|done]. simpl.
  destruct (PyStr.truthy p); [|done]. rewrite Hm. simpl.
  by destruct (Script.names_epic issues0 p).
Qed.

Lemma children_pairs issues0 m issues acc :
  (∀ p, m !! p = if Script.names_epic issues0 p
                 then Some ("$EPIC_" +:+ PyStr.slice_from 5 p) else None) →
  (Script.children bd_path m issues acc).2
  = acc ++ Script.pairs_from (length acc)
             (List.filter (Script.linked issues0) issues).
Proof.
  intros Hm. revert acc.
  induction issues as [|issue more IH]; intros acc.
  { simpl. by rewrite app_nil_r. }
  cbn [Script.children List.filter].
  destruct (String.eqb (issue_type issue) "epic") eqn:Hty; cbn [negb].
  - unfold Script.linked at 1. rewrite Hty. cbn [negb andb]. apply IH.
  - destruct (parent_var_linked issues0 m issue Hm Hty) as [Hyes Hno].
    destruct (Script.linked issues0 issue) eqn:Hl.
    + rewrite (Hyes eq_refl).
      specialize (IH (acc ++ [("$" +:+ Script.issue_var acc,
                               "$EPIC_" +:+ PyStr.slice_from 5
                                 (default EmptyString (parent issue)))])).
      destruct (Script.children bd_path m more _) as [rest cs].
      cbn [snd] in *. rewrite IH, length_app, <- app_assoc. simpl.
      by rewrite Nat.add_1_r.
    + rewrite (Hno eq_refl). cbn [PyStr.truthy].
      specialize (IH acc).
      destruct (Script.children bd_path m more acc) as [rest cs].
      by cbn [snd] in *.
Qed.

Lemma pairs_from_names k l :
  map fst (Script.pairs_from k l)
  = map (λ i, "$ISSUE_" +:+ PyStr.str_of_Z (Z.of_nat i)) (seq k (length l)).
Proof.
  revert k. induction l as [|issue l IH]; intros k; [done|].
  simpl. by rewrite IH.
Qed.

(** X15.  In the generated script an issue that is no epic gets a
    dependency line exactly when its parent reference is the key of an epic
    of the list (in script mode no creation can fail beforehand).  The
    issues that get one are recorded in source order, the [k]-th under the
    name [ISSUE_k] together with the variable [EPIC_g] of the group [g] its
    reference names; the recorded names are pairwise distinct. *)
Theorem script_links issues :
  let child_issues :=
    (Script.children bd_path (Script.epics bd_path issues ∅).2 issues []).2 in
  child_issues
  = Script.pairs_from 0 (List.filter (Script.linked issues) issues) ∧
  List.NoDup (map fst child_issues).
Proof.
  intros child_issues. subst child_issues.
  rewrite (children_pairs issues); cycle 1.
  { intros p. rewrite epics_table. by destruct (Script.names_epic issues p). }
  split; [done|]. simpl. rewrite pairs_from_names.
  apply Finite.Injective_map_NoDup; [|apply List.seq_NoDup].
  intros a b Hab.
  assert (PyStr.str_of_Z (Z.of_nat a) = PyStr.str_of_Z (Z.of_nat b)) as Hs.
  { by injection Hab. }
  apply str_of_Z_inj in Hs. lia.
Qed.

Lemma one_line_app a b : one_line (a +:+ b) = one_line a && one_line b.
Proof. apply all_chars_app. Qed.

Lemma uint_one_line d : one_line (NilEmpty.string_of_uint d) = true.
Proof. induction d; try done; unfold one_line; by rewrite all_chars_cons. Qed.

Lemma str_of_Z_one_line z : one_line (PyStr.str_of_Z z) = true.
Proof.
  assert (∀ d, one_line (NilZero.string_of_uint d) = true) as Hd.
  { intros d. destruct d; [done|exact (uint_one_line _)..]. }
  unfold PyStr.str_of_Z, NilZero.string_of_int.
  destruct (Z.to_int z) as [d|d]; [apply Hd|].
  unfold one_line. rewrite all_chars_cons. apply Hd.
Qed.

Ltac lines_step :=
  rewrite ?one_line_app, ?andb_true_iff; repeat split;
  try done; try (vm_compute; reflexivity).

Lemma epics_one_line issues m :
  Forall (flat bd_path) issues →
  map_Forall (λ _ v, one_line v = true) m →
  map_Forall (λ _ v, one_line v = true) (Script.epics bd_path issues m).2.
Proof.
  intros Hflat. revert m.
  induction Hflat as [|issue more [_ Hid] _ IH]; intros m Hm; [done|].
  cbn [Script.epics].
  destruct (String.eqb (issue_type issue) "epic"); [|by apply IH].
  cbv zeta.
  specialize (IH (<[parent_ref (epic_id issue) := "$" +:+ Script.epic_var issue]> m)).
  destruct (Script.epics bd_path more _) as [rest m'].
  apply IH. apply map_Forall_insert_2; [|done].
  unfold Script.epic_var. by lines_step.
Qed.

Lemma parent_var_one_line m issue :
  map_Forall (λ _ v, one_line v = true) m →
  one_line (Script.parent_var m issue) = true.
Proof.
  intros Hm. unfold Script.parent_var.
  destruct (parent issue) as [p|]; [|done].
  destruct (PyStr.truthy p); [|done].
  destruct (m !! p) as [v|] eqn:Hp; [|done]. by apply (Hm p v).
Qed.

Lemma children_one_line issues m cs :
  one_line bd_path = true →
  Forall (flat bd_path) issues →
  map_Forall (λ _ v, one_line v = true) m →
  Forall (λ e, one_line e.1 = true ∧ one_line e.2 = true) cs →
  one_line (Script.children bd_path m issues cs).1 = true ∧
  Forall (λ e, one_line e.1 = true ∧ one_line e.2 = true)
    (Script.children bd_path m issues cs).2.
Proof.
  intros Hbd Hflat Hm. revert cs.
  induction Hflat as [|issue more [Hcmd _] _ IH]; intros cs Hcs; [done|].
  cbn [Script.children].
  destruct (negb (String.eqb (issue_type issue) "epic")); [|by apply IH].
  cbv zeta.
  set (cs' := if PyStr.truthy (Script.parent_var m issue)
              then cs ++ [("$" +:+ Script.issue_var cs,
                           Script.parent_var m issue)]
              else cs).
  assert (Forall (λ e, one_line e.1 = true ∧ one_line e.2 = true) cs')
    as Hcs'.
  { subst cs'. destruct (PyStr.truthy _); [|done].
    apply Forall_app. split; [done|]. constructor; [|done].
    cbn [fst snd]. split; [|by apply parent_var_one_line].
    unfold Script.issue_var. lines_step. apply str_of_Z_one_line. }
  destruct (IH cs' Hcs') as [Htext Hpairs].
  destruct (Script.children bd_path m more cs') as [rest cs''].
  cbn [fst snd] in *. split; [|done].
  unfold Script.assignment, Script.issue_var. lines_step.
  apply str_of_Z_one_line.
Qed.

Lemma dependencies_one_line cs :
  one_line bd_path = true →
  Forall (λ e, one_line e.1 = true ∧ one_line e.2 = true) cs →
  one_line (Script.dependencies bd_path cs) = true.
Proof.
  intros Hbd. induction 1 as [|[c p] cs [Hc Hp] _ IH]; [done|].
  cbn [Script.dependencies]. cbn [fst snd] in *. by lines_step.
Qed.

(** X19.  The second and the third pass write no line break: when the
    create commands, the group numbers and the path of [bd] hold none,
    everything the script holds after the comment line of the second pass,
    all assignments and all dependency commands, is one single line. *)
Theorem script_tail_one_line issues :
  let r1 := Script.epics bd_path issues ∅ in
  let r2 := Script.children bd_path r1.2 issues [] in
  let tail := r2.1 +:+ Script.third_pass bd_path r2.2 in
  one_line bd_path = true →
  Forall (flat bd_path) issues →
  Script.generate bd_path issues
  = Script.preamble +:+ r1.1 +:+ nl
    +:+ "# Create features, tasks, chores, and bugs" +:+ nl +:+ tail ∧
  one_line tail = true.
Proof.
  intros r1 r2 tail Hbd Hflat. split.
  { subst tail r2 r1. unfold Script.generate.
    destruct (Script.epics bd_path issues ∅) as [epic_text epic_map].
    cbn [fst snd].
    by destruct (Script.children bd_path epic_map issues [])
      as [child_text child_issues]. }
  pose proof (epics_one_line issues ∅ Hflat (map_Forall_empty _)) as Hm.
  destruct (children_one_line issues r1.2 [] Hbd Hflat Hm (Forall_nil_2 _))
    as [Htext Hpairs].
  subst tail. fold r2 in Htext, Hpairs.
  rewrite one_line_app, Htext. cbn [andb].
  unfold Script.third_pass. destruct r2.2 as [|e cs] eqn:Hcs; [done|].
  lines_step. by apply dependencies_one_line.
Qed.

End ScriptProperties.

Lemma script_tail_one_line_witness :
  let issues := Sample.two_groups_issues in
  let r1 := Script.epics "bd" issues ∅ in
  let r2 := Script.children "bd" r1.2 issues [] in
  let tail := r2.1 +:+ Script.third_pass "bd" r2.2 in
  Script.generate "bd" issues
  = Script.preamble +:+ r1.1 +:+ nl
    +:+ "# Create features, tasks, chores, and bugs" +:+ nl +:+ tail ∧
  one_line tail = true.
Proof.
  apply (script_tail_one_line "bd" Sample.two_groups_issues).
  - run.
  - repeat constructor; run.
Defined.

(** * Shape of the parsed issues *)

Section Shape.

Import Pattern.

Lemma dot_plus_eol_nonempty s t : dot_plus_eol s = Some t → t ≠ EmptyString.
Proof.
  unfold dot_plus_eol. destruct (span_line s) as [a r].
  destruct (PyStr.truthy a) eqn:Ha; [|done]. simpl.
  destruct (_ || _); [|done]. intros [= <-]. by destruct a.
Qed.

Lemma span_digits_digits s :
  all_chars PyStr.isdigit (PyStr.span_digits s).1 = true.
Proof.
  induction s as [|c s IH]; [done|]. simpl.
  destruct (PyStr.isdigit c) eqn:Hc; [|done].
  destruct (PyStr.span_digits s) as [d r]. simpl in *.
  unfold all_chars in *. simpl. by rewrite Hc, IH.
Qed.

Lemma digits1_digits s d r :
  digits1 s = Some (d, r) →
  d ≠ EmptyString ∧ all_chars PyStr.isdigit d = true.
Proof.
  unfold digits1. pose proof (span_digits_digits s) as Hd.
  destruct (PyStr.span_digits s) as [d' r']. simpl in Hd.
  destruct (PyStr.truthy d') eqn:Ht; [|done].
  intros [= <- <-]. split; [by destruct d'|done].
Qed.

(** The title group of each pattern is not empty, and the number of a
    group header is a non-empty run of digits. *)
Lemma EPIC_PATTERN_groups line g t :
  EPIC_PATTERN line = Some (g, t) →
  t ≠ EmptyString ∧ g ≠ EmptyString ∧ all_chars PyStr.isdigit g = true.
Proof.
  unfold EPIC_PATTERN. intros H.
  repeat (simplify_option_eq || case_match).
  split; [by eapply dot_plus_eol_nonempty|by eapply digits1_digits].
Qed.

Lemma FEATURE_PATTERN_title line g t :
  FEATURE_PATTERN line = Some (g, t) → t ≠ EmptyString.
Proof.
  unfold FEATURE_PATTERN. intros H.
  repeat (simplify_option_eq || case_match).
  by eapply dot_plus_eol_nonempty.
Qed.

Lemma TASK_PATTERN_title line g t :
  TASK_PATTERN line = Some (g, t) → t ≠ EmptyString.
Proof.
  unfold TASK_PATTERN. intros H.
  repeat (simplify_option_eq || case_match).
  by eapply dot_plus_eol_nonempty.
Qed.

Lemma lettered_title x line g t :
  lettered x line = Some (g, t) → t ≠ EmptyString.
Proof.
  unfold lettered. intros H.
  repeat (simplify_option_eq || case_match).
  by eapply dot_plus_eol_nonempty.
Qed.

Lemma guarded_inv m b t :
  guarded m b = Some t → ∃ g, m = Some (g, t).
Proof.
  unfold guarded. destruct m as [[g t']|]; [|done].
  destruct b; [|done]. intros [= <-]. by exists g.
Qed.

Lemma classify_titles line sec :
  match classify line sec with
  | BEpic g t =>
      t ≠ EmptyString ∧ g ≠ EmptyString ∧ all_chars PyStr.isdigit g = true
  | BFeature t | BTask t | BChore t | BBug t => t ≠ EmptyString
  | BSection _ | BSkip => True
  end.
Proof.
  unfold classify.
  destruct (EPIC_PATTERN line) as [[g t]|] eqn:He.
  { by eapply EPIC_PATTERN_groups. }
  destruct (PyStr.startswith "### " line); [done|].
  destruct (guarded (FEATURE_PATTERN line) _) as [t|] eqn:Hf.
  { apply guarded_inv in Hf as [g Hf]. by eapply FEATURE_PATTERN_title. }
  destruct (guarded (TASK_PATTERN line) _) as [t|] eqn:Ht.
  { apply guarded_inv in Ht as [g Ht]. by eapply TASK_PATTERN_title. }
  destruct (guarded (CHORE_PATTERN line) _) as [t|] eqn:Hc.
  { apply guarded_inv in Hc as [g Hc]. by eapply lettered_title. }
  destruct (guarded (BUG_PATTERN line) _) as [t|] eqn:Hb; [|done].
  apply guarded_inv in Hb as [g Hb]. by eapply lettered_title.
Qed.

End Shape.

(** X16.  Every issue the parser returns for ASCII text is well formed: its
    title is not
    empty and it has no store identifier yet; it is either the issue of a
    group header (no parent reference, a group number that is a non-empty
    run of digits, type epic, priority 1) or the issue of an item line (no
    group number, and a parent reference). *)
Theorem parsed_issue_shape path content res it :
  PyStr.isascii content = true →
  parse_new path content = Returned res → In it res →
  title it ≠ EmptyString ∧ beads_id it = None ∧
  ((parent it = None ∧ issue_type it = "epic" ∧ priority it = 1%Z ∧
    ∃ g, epic_id it = Some g ∧ g ≠ EmptyString ∧
         all_chars PyStr.isdigit g = true) ∨
   (epic_id it = None ∧ ∃ p, parent it = Some p ∧
                             PyStr.startswith "epic-" p = true)).
Proof.
  intros _ Hp Hin.
  destruct (parse_new_sound _ _ _ _ Hp Hin) as (i & raw & st' & Hl & Hb).
  apply body_emits in Hb.
  pose proof (classify_titles (PyStr.strip raw)
                (current_section
                   (cursor_after (take i (lines_of content)) start))) as Ht.
  destruct (classify _ _) as [g t|?|t|t|t|t|]; try done.
  - subst it. destruct Ht as (? & ? & ?). repeat split; try done.
    left. repeat split; try done. by exists g.
  - destruct Hb as (a & _ & ->). repeat split; try done.
    right. split; [done|]. eexists. split; [done|]. apply prefix_app.
  - subst it. repeat split; try done.
    right. split; [done|]. eexists. split; [done|]. apply prefix_app.
  - subst it. repeat split; try done.
    right. split; [done|]. eexists. split; [done|]. apply prefix_app.
  - subst it. repeat split; try done.
    right. split; [done|]. eexists. split; [done|]. apply prefix_app.
Qed.

Lemma parsed_issue_shape_witness :
  let it := mkIssue "retries" "task" 1 "retry: with backoff" (Some "epic-1")
              None None in
  title it ≠ EmptyString ∧ beads_id it = None ∧
  ((parent it = None ∧ issue_type it = "epic" ∧ priority it = 1%Z ∧
    ∃ g, epic_id it = Some g ∧ g ≠ EmptyString ∧
         all_chars PyStr.isdigit g = true) ∨
   (epic_id it = None ∧ ∃ p, parent it = Some p ∧
                             PyStr.startswith "epic-" p = true)).
Proof.
  apply (parsed_issue_shape "WORKPLAN.md" Sample.described
           Sample.described_issues).
  - run.
  - run.
  - right. by left.
Defined.

(** * Properties of the clean-up *)

Section Keeper.

Import Cleanup.

Implicit Types (l : list details) (x y : details).

Lemma key_lt_spec (a b : Z * N) :
  key_lt a b = true ↔ (a.1 < b.1)%Z ∨ (a.1 = b.1 ∧ (a.2 < b.2)%N).
Proof.
  unfold key_lt.
  by rewrite orb_true_iff, andb_true_iff, Z.ltb_lt, Z.eqb_eq, N.ltb_lt.
Qed.

Lemma key_lt_irrefl (a : Z * N) : key_lt a a = false.
Proof. apply not_true_iff_false. rewrite key_lt_spec. lia. Qed.

(** [b] is not below [a], and [c] not below [b]: [c] is not below [a]
    either. *)
Lemma key_le_trans (a b c : Z * N) :
  key_lt a b = false → key_lt b c = false → key_lt a c = false.
Proof.
  rewrite <- !not_true_iff_false, !key_lt_spec. lia.
Qed.

Lemma key_lt_le_trans (a b c : Z * N) :
  key_lt a b = true → key_lt c b = false → key_lt c a = false.
Proof.
  rewrite <- !not_true_iff_false, !key_lt_spec. lia.
Qed.

Lemma insert_desc_perm x l : insert_desc x l ≡ₚ x :: l.
Proof.
  induction l as [|y l IH]; simpl; [done|].
  destruct (key_lt (key x) (key y)); [|done].
  by rewrite IH, Permutation_swap.
Qed.

Lemma sort_desc_perm l : sort_desc l ≡ₚ l.
Proof.
  induction l as [|x l IH]; simpl; [done|].
  by rewrite insert_desc_perm, IH.
Qed.

Lemma head_insert_desc x l :
  head (insert_desc x l)
  = match head l with
    | Some y => if key_lt (key x) (key y) then Some y else Some x
    | None => Some x
    end.
Proof. destruct l as [|y l]; simpl; [done|]. by destruct (key_lt _ _). Qed.

Lemma find_ext_in {A} (P Q : A → bool) (l : list A) :
  (∀ a, In a l → P a = Q a) → List.find P l = List.find Q l.
Proof.
  induction l as [|a l IH]; intros H; simpl; [done|].
  rewrite (H a) by by left. destruct (Q a); [done|].
  apply IH. intros b Hb. apply H. by right.
Qed.

Lemma is_max_cons x l y :
  is_max (x :: l) y = negb (key_lt (key y) (key x)) && is_max l y.
Proof. done. Qed.

Lemma is_max_le l m y :
  is_max l m = true → In y l → key_lt (key m) (key y) = false.
Proof.
  unfold is_max. rewrite forallb_forall. intros H Hy.
  by apply negb_true_iff, H.
Qed.

Lemma head_sort_desc l : head (sort_desc l) = first_max l.
Proof.
  induction l as [|x l IH]; [done|].
  cbn [sort_desc foldr]. fold (sort_desc l).
  rewrite head_insert_desc, IH. unfold first_max at 2. cbn [List.find].
  rewrite is_max_cons, key_lt_irrefl. cbn [negb andb].
  destruct (first_max l) as [m|] eqn:Hm.
  - destruct (find_some _ _ Hm) as [Hin Hmax].
    destruct (key_lt (key x) (key m)) eqn:Hxm.
    + assert (is_max l x = false) as ->.
      { apply not_true_iff_false. intros Hx.
        by rewrite (is_max_le _ _ _ Hx Hin) in Hxm. }
      rewrite <- Hm. unfold first_max.
      apply find_ext_in. intros y Hy. rewrite is_max_cons.
      destruct (is_max l y) eqn:Hy'; [|by rewrite andb_false_r].
      rewrite andb_true_r. symmetry. apply negb_true_iff.
      apply (key_lt_le_trans _ (key m)); [done|].
      by apply (is_max_le l).
    + assert (is_max l x = true) as ->; [|done].
      apply forallb_forall. intros y Hy. apply negb_true_iff.
      apply (key_le_trans _ (key m)); [done|]. by apply (is_max_le l).
  - assert (l = []) as ->; [|done].
    rewrite <- IH in Hm. apply Permutation_nil_r.
    rewrite <- (sort_desc_perm l). by destruct (sort_desc l).
Qed.

(** X20.  The record that sorting puts first, the epic that is kept, is
    the first record in listing order that no record exceeds in the number
    of blocked issues and, among equals, in the time of creation (a time
    that could not be read counts as the earliest); sorting neither loses
    nor adds a record. *)
Theorem keeper_choice l :
  head (sort_desc l) = first_max l ∧ sort_desc l ≡ₚ l.
Proof. split; [apply head_sort_desc|apply sort_desc_perm]. Qed.

End Keeper.

Section Grouping.

Import Cleanup.

Implicit Types (d : list (string * list string)) (l : list epic).

Lemma assoc_append_to d title i t :
  assoc (append_to d title i) t
  = if String.eqb title t
    then Some (default [] (assoc d title) ++ [i])
    else assoc d t.
Proof.
  induction d as [|[t' ids] d IH]; simpl.
  - by destruct (String.eqb_spec title t).
  - destruct (String.eqb_spec t' title) as [->|Ht']; simpl.
    + by destruct (String.eqb_spec title t).
    + rewrite IH. destruct (String.eqb_spec title t) as [->|Ht]; [|done].
      by destruct (String.eqb_spec t' t).
Qed.

Lemma keys_append_to d title i :
  map fst (append_to d title i)
  = match assoc d title with
    | Some _ => map fst d
    | None => map fst d ++ [title]
    end.
Proof.
  induction d as [|[t' ids] d IH]; simpl; [done|].
  destruct (String.eqb_spec t' title) as [->|Ht']; simpl; [done|].
  rewrite IH. by destruct (assoc d title).
Qed.

Lemma assoc_None d t : assoc d t = None ↔ ¬ In t (map fst d).
Proof.
  induction d as [|[t' ids] d IH]; simpl; [tauto|].
  destruct (String.eqb_spec t' t) as [->|Ht'].
  - split; [done|]. intros H. destruct H. by left.
  - rewrite IH. tauto.
Qed.

Lemma assoc_In d t ids :
  List.NoDup (map fst d) → In (t, ids) d ↔ assoc d t = Some ids.
Proof.
  induction d as [|[t' ids'] d IH]; simpl; [done|].
  intros [Ht' Hnd]%List.NoDup_cons_iff.
  destruct (String.eqb_spec t' t) as [->|Hne].
  - split; [|intros [= ->]; by left].
    intros [[= ->]|Hin]; [done|].
    destruct Ht'. apply in_map_iff. by exists (t, ids).
  - rewrite <- (IH Hnd). split; [|by right]. by intros [[= ? _]|?].
Qed.

Lemma contents_append_to d title i :
  concat (map snd (append_to d title i)) ≡ₚ i :: concat (map snd d).
Proof.
  induction d as [|[t' ids] d IH]; simpl; [done|].
  destruct (String.eqb_spec t' title) as [->|Ht']; simpl.
  - rewrite <- app_assoc. simpl. by rewrite <- Permutation_middle.
  - rewrite IH. by rewrite <- Permutation_middle.
Qed.

Lemma group_snoc l e :
  group (l ++ [e]) = append_to (group l) (e_title e) (e_id e).
Proof. unfold group. by rewrite fold_left_app. Qed.

Lemma ids_of_snoc l e t :
  ids_of (l ++ [e]) t
  = ids_of l t ++ (if String.eqb (e_title e) t then [e_id e] else []).
Proof.
  unfold ids_of. rewrite List.filter_app, map_app. simpl.
  by destruct (String.eqb (e_title e) t).
Qed.

Lemma group_assoc l t :
  assoc (group l) t
  = match ids_of l t with [] => None | ids => Some ids end.
Proof.
  induction l as [|e l IH] using rev_ind; [done|].
  rewrite group_snoc, assoc_append_to, ids_of_snoc.
  destruct (String.eqb_spec (e_title e) t) as [->|Ht].
  - rewrite IH. by destruct (ids_of l t).
  - by rewrite IH, app_nil_r.
Qed.

Lemma group_keys l : List.NoDup (map fst (group l)).
Proof.
  induction l as [|e l IH] using rev_ind; [constructor|].
  rewrite group_snoc, keys_append_to.
  destruct (assoc (group l) (e_title e)) eqn:Ha; [done|].
  apply assoc_None in Ha. apply NoDup_ListNoDup, NoDup_app.
  split; [by apply NoDup_ListNoDup|]. split; [|apply NoDup_singleton].
  intros t Ht ->%list_elem_of_singleton. by apply Ha, list_elem_of_In.
Qed.

Lemma group_contents l : concat (map snd (group l)) ≡ₚ map e_id l.
Proof.
  induction l as [|e l IH] using rev_ind; [done|].
  rewrite group_snoc, contents_append_to, IH, map_app. simpl.
  by rewrite <- Permutation_cons_append.
Qed.

Lemma group_In l t ids :
  In (t, ids) (group l) ↔ ids = ids_of l t ∧ ids ≠ [].
Proof.
  rewrite (assoc_In _ _ _ (group_keys l)), group_assoc.
  destruct (ids_of l t) as [|i ids']; split.
  - done.
  - by intros [-> ?].
  - by intros [= <-].
  - by intros [-> _].
Qed.

Lemma duplicates_In d t ids :
  In (t, ids) (duplicates d) ↔ In (t, ids) d ∧ (1 < length ids)%nat.
Proof.
  unfold duplicates. rewrite filter_In. simpl.
  by rewrite Nat.ltb_lt.
Qed.

Lemma concat_filter_NoDup {A B} (P : A * list B → bool) (d : list (A * list B)) :
  List.NoDup (concat (map snd d)) →
  List.NoDup (concat (map snd (List.filter P d))).
Proof.
  induction d as [|[a bs] d IH]; simpl; [done|].
  rewrite <- !NoDup_ListNoDup. intros (H1 & H2 & H3)%NoDup_app.
  rewrite NoDup_ListNoDup in H3. specialize (IH H3).
  destruct (P (a, bs)); simpl; [|by apply NoDup_ListNoDup].
  apply NoDup_app. split; [done|]. split; [|by apply NoDup_ListNoDup].
  intros b Hb Hin. apply (H2 b Hb).
  apply list_elem_of_In in Hin. apply list_elem_of_In.
  apply in_concat in Hin as (bs' & Hbs' & Hb').
  apply in_concat. exists bs'. split; [|done].
  apply in_map_iff in Hbs' as (entry & <- & Hentry).
  apply in_map_iff. exists entry. split; [done|].
  by apply filter_In in Hentry as [? _].
Qed.

End Grouping.

Section CleanupRun.

Import Cleanup.

Context (W : Type) (bd : list string → W → string * W).
Context (strptime : string → option N).

Implicit Types (w : world W) (l : list epic).
Implicit Types (dups ks : list (string * list string)).

Lemma run_log args w : log (run W bd args w).2 = log w ++ ["bd" :: args].
Proof. unfold run. by destruct (bd args (store w)). Qed.

Lemma run_bd_command_spec args w :
  run_bd_command W bd args w
  = ((bd args (store w)).1,
     mkWorld (bd args (store w)).2 (log w ++ ["bd" :: args])).
Proof.
  unfold run_bd_command, run. destruct (bd args (store w)) as [stdout st].
  simpl. by destruct stdout.
Qed.

Lemma decimal_nonneg ds : (0 ≤ decimal ds)%Z.
Proof.
  unfold decimal. generalize (list_ascii_of_string ds). intros cs.
  assert (∀ acc, (0 ≤ acc)%Z →
            (0 ≤ fold_left (λ acc c, 10 * acc + PyStr.digit_val c) cs acc)%Z)
    as H; [|by apply H].
  induction cs as [|c cs IH]; intros acc Hacc; simpl; [done|].
  apply IH. unfold PyStr.digit_val. lia.
Qed.

Lemma blocks_here_digits s ds :
  blocks_here s = Some ds →
  ds ≠ EmptyString ∧ all_chars PyStr.isdigit ds = true.
Proof.
  unfold blocks_here. intros H.
  repeat (simplify_option_eq || case_match).
  by eapply digits1_digits.
Qed.

Lemma blocks_search_digits line ds :
  blocks_search line = Some ds →
  ds ≠ EmptyString ∧ all_chars PyStr.isdigit ds = true.
Proof.
  induction line as [|c line IH]; cbn [blocks_search].
  - destruct (blocks_here EmptyString) as [d|] eqn:Hd; [|done].
    intros [= <-]. by eapply blocks_here_digits.
  - destruct (blocks_here (String c line)) as [d|] eqn:Hd; [|done].
    intros [= <-]. by eapply blocks_here_digits.
Qed.

(** One line: it raises exactly when it is overlong, and otherwise keeps
    the identifier and a count that is not negative. *)
Lemma details_line_spec d line :
  if overlong line
  then details_line strptime d line = Raised ValueError
  else ∃ d', details_line strptime d line = Returned d' ∧
             d_id d' = d_id d ∧
             ((0 ≤ blocks_count d)%Z → (0 ≤ blocks_count d')%Z).
Proof.
  unfold overlong, details_line.
  destruct (PyStr.startswith "Created:" line) eqn:Hc.
  { assert (PyStr.startswith "Blocks" line = false) as ->.
    { apply prefix_inv in Hc as [r ->]. done. }
    simpl. destruct (strptime _); by eexists. }
  destruct (PyStr.startswith "Blocks" line); simpl; [|by eexists].
  destruct (blocks_search line) as [ds|] eqn:Hs; [|by eexists].
  destruct (blocks_search_digits _ _ Hs) as [Hne Hds].
  destruct (N.ltb_spec 4300 (N.of_nat (String.length ds))) as [Hlong|Hshort].
  - rewrite (int_overlong ds Hds) by lia. done.
  - rewrite (int_decimal ds Hds Hne) by lia.
    eexists. split; [done|]. split; [done|]. intros _. simpl.
    apply decimal_nonneg.
Qed.

Lemma read_details_spec lines d :
  (0 ≤ blocks_count d)%Z →
  if forallb (λ line, negb (overlong line)) lines
  then ∃ d', read_details strptime lines d = Returned d' ∧
             d_id d' = d_id d ∧ (0 ≤ blocks_count d')%Z
  else read_details strptime lines d = Raised ValueError.
Proof.
  revert d. induction lines as [|line lines IH]; intros d Hd; simpl.
  { by exists d. }
  pose proof (details_line_spec d line) as Hline.
  destruct (overlong line); simpl.
  - by rewrite Hline.
  - destruct Hline as (d' & -> & Hid & Hb). specialize (IH d' (Hb Hd)).
    destruct (forallb _ lines); [|done].
    destruct IH as (d'' & -> & Hid' & Hb'). exists d''. by rewrite Hid'.
Qed.

(** X23.  Reading the details of an epic runs exactly one command, the
    [show] of that epic.  On ASCII output it raises [ValueError] exactly
    when a [Blocks] line of the output carries a count of more than 4300
    digits; otherwise the record it returns carries the identifier that was
    asked for and a number of blocked issues that is not negative. *)
Theorem epic_details_sound (epic_id : string) w :
  let output := (bd ["show"; epic_id] (store w)).1 in
  let r := get_epic_details W bd strptime epic_id w in
  PyStr.isascii output = true →
  log r.2 = log w ++ [show_cmd epic_id] ∧
  if readable output
  then ∃ d, r.1 = Returned d ∧ d_id d = epic_id ∧ (0 ≤ blocks_count d)%Z
  else r.1 = Raised ValueError.
Proof.
  intros output r _. subst output r.
  unfold get_epic_details. rewrite run_bd_command_spec. simpl.
  split; [done|]. unfold readable.
  by apply (read_details_spec _ (mkDetails epic_id None 0)).
Qed.

Lemma get_epic_details_spec i w :
  log (get_epic_details W bd strptime i w).2 = log w ++ [show_cmd i] ∧
  match (get_epic_details W bd strptime i w).1 with
  | Returned d => d_id d = i ∧ readable (bd ["show"; i] (store w)).1 = true
  | Raised e => e = ValueError
  end.
Proof.
  unfold get_epic_details. rewrite run_bd_command_spec. simpl.
  split; [done|]. unfold readable.
  pose proof (read_details_spec
                (PyStr.split Pattern.newline (bd ["show"; i] (store w)).1)
                (mkDetails i None 0)) as H.
  destruct (forallb _ _).
  - by destruct H as (d & -> & Hid & _).
  - by rewrite H.
Qed.

Lemma get_epic_details_returns i w :
  readable (bd ["show"; i] (store w)).1 = true →
  ∃ d, (get_epic_details W bd strptime i w).1 = Returned d.
Proof.
  intros Hr. unfold get_epic_details. rewrite run_bd_command_spec. simpl.
  pose proof (read_details_spec
                (PyStr.split Pattern.newline (bd ["show"; i] (store w)).1)
                (mkDetails i None 0)) as H.
  unfold readable in Hr. rewrite Hr in H.
  destruct H as (d & -> & _); [done|]. by exists d.
Qed.

(** The details of a list of epics: the commands that were run are the
    [show] of a prefix of the list, of all of it when nothing is raised. *)
Lemma fetch_spec ids w :
  ∃ shown,
    log (fetch W bd strptime ids w).2 = log w ++ map show_cmd shown ∧
    match (fetch W bd strptime ids w).1 with
    | Returned ds => shown = ids ∧ map d_id ds = ids
    | Raised e => e = ValueError ∧ shown ≠ []
    end.
Proof.
  revert w. induction ids as [|i ids IH]; intros w; simpl.
  { exists []. by rewrite app_nil_r. }
  destruct (get_epic_details_spec i w) as [Hlog Hd].
  destruct (get_epic_details W bd strptime i w) as [[d|e] w1]; simpl in *.
  - destruct Hd as [Hid _].
    destruct (IH w1) as (shown & Hlogs & Hr).
    destruct (fetch W bd strptime ids w1) as [[ds|e] w2]; simpl in *.
    + destruct Hr as [-> Hids]. exists (i :: ids).
      rewrite Hlogs, Hlog, <- app_assoc. by rewrite Hid, Hids.
    + exists (i :: shown). rewrite Hlogs, Hlog, <- app_assoc.
      by destruct Hr as [-> _].
  - exists [i]. by rewrite Hlog.
Qed.

Lemma fetch_returns ids w :
  (∀ args st, readable (bd args st).1 = true) →
  ∃ ds, (fetch W bd strptime ids w).1 = Returned ds.
Proof.
  intros Hr. revert w. induction ids as [|i ids IH]; intros w; simpl.
  { by eexists. }
  destruct (get_epic_details_returns i w (Hr _ _)) as [d Hd].
  destruct (get_epic_details W bd strptime i w) as [r w1]. simpl in Hd.
  subst r. destruct (IH w1) as [ds Hds].
  destruct (fetch W bd strptime ids w1) as [r w2]. simpl in Hds. subst r.
  by eexists.
Qed.

(** The analysis of the duplicated titles: commands and, when nothing is
    raised, the keepers. *)
Lemma analyze_spec dups tc w :
  Forall (λ entry, entry.2 ≠ []) dups →
  ∃ shown,
    log (analyze W bd strptime dups tc w).2 = log w ++ map show_cmd shown ∧
    match (analyze W bd strptime dups tc w).1 with
    | Returned to_close =>
        shown = concat (map snd dups) ∧
        ∃ ks, to_close = tc ++ closings ks ∧
              Forall2 (λ entry kc, kc.1 :: kc.2 ≡ₚ entry.2) dups ks
    | Raised e => e = ValueError ∧ shown ≠ []
    end.
Proof.
  intros Hne. revert tc w.
  induction Hne as [|[title ids] dups Hids _ IH]; intros tc w; simpl.
  { exists []. rewrite app_nil_r. split; [done|]. split; [done|].
    exists []. by rewrite app_nil_r. }
  destruct (fetch_spec ids w) as (shown & Hlog & Hr).
  destruct (fetch W bd strptime ids w) as [[ds|e] w1]; simpl in *; cycle 1.
  { by exists shown. }
  destruct Hr as [-> Hmap].
  pose proof (sort_desc_perm ds) as Hperm.
  destruct (sort_desc ds) as [|first others].
  { apply Permutation_nil_l in Hperm. subst ds. by destruct ids. }
  destruct (IH (tc ++ map (λ dup_id, (dup_id, reason (d_id first)))
                        (map d_id others)) w1)
    as (shown' & Hlog' & Hr').
  destruct (analyze W bd strptime dups _ w1) as [[to_close|e] w2];
    simpl in *.
  - destruct Hr' as (-> & ks & -> & Hks).
    exists (ids ++ concat (map snd dups)).
    rewrite Hlog', Hlog, map_app, <- app_assoc. split; [done|].
    split; [done|].
    exists ((d_id first, map d_id others) :: ks). split.
    + unfold closings. simpl. by rewrite <- app_assoc.
    + constructor; [|done]. simpl. rewrite <- Hmap.
      change (d_id first :: map d_id others)
        with (map d_id (first :: others)).
      by rewrite Hperm.
  - exists (ids ++ shown'). rewrite Hlog', Hlog, map_app, <- app_assoc.
    destruct Hr' as [-> _]. split; [done|]. split; [done|]. by destruct ids.
Qed.

Lemma analyze_returns dups tc w :
  (∀ args st, readable (bd args st).1 = true) →
  Forall (λ entry, entry.2 ≠ []) dups →
  ∃ to_close, (analyze W bd strptime dups tc w).1 = Returned to_close.
Proof.
  intros Hr Hne. revert tc w.
  induction Hne as [|[title ids] dups Hids _ IH]; intros tc w; simpl.
  { by eexists. }
  destruct (fetch_returns ids w Hr) as [ds Hds].
  destruct (fetch_spec ids w) as (shown & _ & Hsp).
  destruct (fetch W bd strptime ids w) as [r w1]. simpl in *. subst r.
  destruct Hsp as [_ Hmap].
  pose proof (sort_desc_perm ds) as Hperm.
  destruct (sort_desc ds) as [|first others].
  { apply Permutation_nil_l in Hperm. subst ds. by destruct ids. }
  apply IH.
Qed.

Lemma duplicates_nonempty l :
  Forall (λ entry, entry.2 ≠ []) (duplicates (group l)).
Proof.
  apply Forall_forall. intros [t ids] Hin%list_elem_of_In.
  apply duplicates_In in Hin as [_ Hlen]. simpl.
  destruct ids; [simpl in Hlen; lia|done].
Qed.

Lemma close_all_log tc w :
  log (close_all W bd tc w)
  = log w ++ map (λ entry, "bd" :: close_cmd entry) tc.
Proof.
  revert w. induction tc as [|entry tc IH]; intros w; simpl.
  - by rewrite app_nil_r.
  - by rewrite IH, run_log, <- app_assoc.
Qed.

Lemma get_all_epics_log w :
  log (get_all_epics W bd w).2 = log w ++ [list_cmd].
Proof.
  unfold get_all_epics. by rewrite run_bd_command_spec.
Qed.
Lemma closings_spec dups ks :
  Forall2 (λ entry kc, kc.1 :: kc.2 ≡ₚ entry.2) dups ks →
  (∀ i, In i (map fst (closings ks)) → In i (concat (map snd dups))) ∧
  (length (closings ks) + length dups = length (concat (map snd dups)))%nat ∧
  (List.NoDup (concat (map snd dups)) →
   Forall (λ entry,
     ∃ keeper, In keeper entry.2 ∧
       ¬ In keeper (map fst (closings ks)) ∧
       ∀ i, In i entry.2 → i ≠ keeper →
            In (i, reason keeper) (closings ks)) dups).
Proof.
  induction 1 as [|[title ids] [k others] dups ks Hperm _ IH]; simpl.
  { by split; [|split]; [intros i []| |constructor]. }
  simpl in Hperm. destruct IH as (IH1 & IH2 & IH3).
  unfold closings in *. simpl.
  assert (∀ i, In i (map fst (map (λ i, (i, reason k)) others))
               ↔ In i others) as Hothers.
  { intros i. by rewrite map_map, map_id. }
  split; [|split].
  - intros i. rewrite map_app, !in_app_iff, Hothers. intros [Hi|Hi].
    + left. apply list_elem_of_In. rewrite <- Hperm.
      apply list_elem_of_In. by right.
    + right. by apply IH1.
  - rewrite !length_app, length_map, <- IH2, <- Hperm. simpl. lia.
  - intros Hnd. apply NoDup_ListNoDup, NoDup_app in Hnd as (Hnd1 & Hnd2 & Hnd3).
    rewrite <- Hperm in Hnd1. apply NoDup_cons in Hnd1 as [Hk Hnd1].
    constructor.
    + exists k. simpl. split; [|split].
      * apply list_elem_of_In. rewrite <- Hperm. by left.
      * rewrite map_app, in_app_iff, Hothers. intros [Hin|Hin].
        -- by apply Hk, list_elem_of_In.
        -- apply (Hnd2 k).
           ++ rewrite <- Hperm. by left.
           ++ by apply list_elem_of_In, IH1.
      * intros i Hi Hik. apply in_app_iff. left.
        apply in_map_iff. exists i. split; [done|].
        apply (Permutation_in _ (Permutation_sym Hperm)) in Hi.
        by destruct Hi as [<-|Hi].
    + apply NoDup_ListNoDup in Hnd3. specialize (IH3 Hnd3).
      rewrite Forall_forall in IH3. apply Forall_forall.
      intros [t' ids'] Hentry.
      destruct (IH3 _ Hentry) as (keeper & Hin & Hnot & Hrest).
      exists keeper. split; [done|]. split.
      * rewrite map_app, in_app_iff, Hothers. intros [Hin'|Hin']; [|done].
        apply (Hnd2 keeper).
        -- rewrite <- Hperm. right. by apply list_elem_of_In.
        -- apply list_elem_of_In, in_concat. exists ids'. split; [|done].
           apply in_map_iff. exists (t', ids'). split; [done|].
           by apply list_elem_of_In.
      * intros i Hi Hik. apply in_app_iff. right. by apply Hrest.
Qed.


(** X21.  When every output of [bd] is ASCII text without an overlong
    count, the clean-up raises nothing and runs its commands in four
    blocks: first the listing of the open epics.  When no title has two of
    the listed epics it runs nothing more, not even the statistics.
    Otherwise it asks for the details of every epic of a title that has
    several, title by title in listing order, then closes the epics it
    chose, one fewer than the title has for every such title, and ends with
    the statistics. *)
Theorem cleanup_commands w :
  let listing := get_all_epics W bd w in
  let dups := duplicates (group listing.1) in
  (∀ args st, PyStr.isascii (bd args st).1 = true ∧
              readable (bd args st).1 = true) →
  ∃ to_close w1 w',
    analyze W bd strptime dups [] listing.2 = (Returned to_close, w1) ∧
    main W bd strptime w = (Returned (), w') ∧
    (length to_close + length dups = length (concat (map snd dups)))%nat ∧
    log w'
    = log w ++ [list_cmd]
      ++ match dups with
         | [] => []
         | _ :: _ =>
             map show_cmd (concat (map snd dups))
             ++ map (λ entry, "bd" :: close_cmd entry) to_close
             ++ [["bd"; "stats"]]
         end.
Proof.
  intros listing dups Htame. subst dups listing. unfold main.
  pose proof (get_all_epics_log w) as Hlist.
  destruct (get_all_epics W bd w) as [l w0]. simpl in *.
  assert (∀ args st, readable (bd args st).1 = true) as Hr
    by (intros; apply Htame).
  pose proof (duplicates_nonempty l) as Hne.
  destruct (analyze_returns _ [] w0 Hr Hne) as [to_close Hret].
  destruct (analyze_spec _ [] w0 Hne) as (shown & Hlog & Hsp).
  rewrite Hret in Hsp. destruct Hsp as (-> & ks & Hks & Hperm).
  simpl in Hks. subst to_close.
  destruct (closings_spec _ ks Hperm) as (_ & Hlen & _).
  unfold main_from.
  destruct (analyze W bd strptime (duplicates (group l)) [] w0)
    as [r w1] eqn:Han. simpl in Hret, Hlog. subst r.
  exists (closings ks), w1.
  destruct (duplicates (group l)) as [|entry dups'] eqn:Hdups.
  - exists w0. split; [done|]. split; [done|]. split; [done|].
    by rewrite Hlist.
  - rewrite Han. eexists. split; [done|]. split; [reflexivity|].
    split; [done|]. simpl.
    by rewrite run_log, close_all_log, Hlog, Hlist, <- !app_assoc.
Qed.

(** X24.  On ASCII output, whatever [bd] prints: if the clean-up raises, it
    raises the [ValueError] of an overlong count, and it has then run the
    listing and one or more [show] commands and nothing else; no epic is
    closed after a failed read. *)
Theorem failed_read_closes_nothing w e w' :
  (∀ args st, PyStr.isascii (bd args st).1 = true) →
  main W bd strptime w = (Raised e, w') →
  e = ValueError ∧
  ∃ shown, shown ≠ [] ∧
           log w' = log w ++ [list_cmd] ++ map show_cmd shown.
Proof.
  intros _. unfold main.
  pose proof (get_all_epics_log w) as Hlist.
  destruct (get_all_epics W bd w) as [l w0]. simpl in *.
  unfold main_from.
  pose proof (duplicates_nonempty l) as Hne.
  destruct (duplicates (group l)) as [|entry dups'] eqn:Hdups; [done|].
  destruct (analyze_spec _ [] w0 Hne) as (shown & Hlog & Hsp).
  destruct (analyze W bd strptime (entry :: dups') [] w0) as [[tc|e'] w1];
    [done|].
  simpl in *. intros [= -> ->]. destruct Hsp as [-> Hshown].
  split; [done|]. exists shown. split; [done|].
  by rewrite Hlog, Hlist, <- app_assoc.
Qed.

(** X22.  When the listed identifiers are pairwise distinct and every
    output of [bd] is ASCII text without an overlong count, exactly one
    epic of every title survives: for every listed epic there is a keeper
    with the same title that is not closed, and every other epic of that
    title is closed with the reason that names this keeper.  Nothing that
    was not listed is closed. *)
Theorem one_survivor_per_title l w :
  List.NoDup (map e_id l) →
  (∀ args st, PyStr.isascii (bd args st).1 = true ∧
              readable (bd args st).1 = true) →
  ∃ to_close w1,
    analyze W bd strptime (duplicates (group l)) [] w
    = (Returned to_close, w1) ∧
    (∀ i, In i (map fst to_close) → In i (map e_id l)) ∧
    ∀ e, In e l →
      ∃ keeper,
        In keeper (ids_of l (e_title e)) ∧
        ¬ In keeper (map fst to_close) ∧
        ∀ i, In i (ids_of l (e_title e)) → i ≠ keeper →
             In (i, reason keeper) to_close.
Proof.
  intros Hnd Htame.
  assert (∀ args st, readable (bd args st).1 = true) as Hr
    by (intros; apply Htame).
  pose proof (duplicates_nonempty l) as Hne.
  destruct (analyze_returns _ [] w Hr Hne) as [to_close Hret].
  destruct (analyze_spec _ [] w Hne) as (shown & _ & Hsp).
  rewrite Hret in Hsp. destruct Hsp as (_ & ks & Hks' & Hks).
  simpl in Hks'. subst to_close.
  destruct (analyze W bd strptime (duplicates (group l)) [] w)
    as [r w1] eqn:Han. simpl in Hret. subst r.
  exists (closings ks), w1. split; [done|].
  destruct (closings_spec (duplicates (group l)) ks Hks) as (Hsub & _ & Hkeep).
  assert (List.NoDup (concat (map snd (duplicates (group l))))) as Hnd'.
  { apply concat_filter_NoDup. apply NoDup_ListNoDup.
    rewrite (group_contents l). by apply NoDup_ListNoDup. }
  specialize (Hkeep Hnd'). rewrite Forall_forall in Hkeep.
  assert (∀ i, In i (concat (map snd (duplicates (group l)))) →
               ∃ t, In i (ids_of l t) ∧ (1 < length (ids_of l t))%nat)
    as Hdup.
  { intros i (ids & Hids & Hi)%in_concat.
    apply in_map_iff in Hids as ([t ids'] & <- & Hentry).
    apply duplicates_In in Hentry as [Hentry Hlen].
    apply group_In in Hentry as [-> _]. by exists t. }
  assert (∀ i t t', In i (ids_of l t) → In i (ids_of l t') → t = t')
    as Htitle.
  { intros i t t' (e1 & <- & [H1 T1%String.eqb_eq]%filter_In)%in_map_iff
                  (e2 & He & [H2 T2%String.eqb_eq]%filter_In)%in_map_iff.
    assert (e2 = e1) as ->; [|congruence].
    clear -Hnd H1 H2 He. induction l as [|e l IH]; [done|].
    simpl in Hnd. apply List.NoDup_cons_iff in Hnd as [Hnot Hnd].
    destruct H1 as [->|H1], H2 as [->|H2]; try done.
    - destruct Hnot. rewrite <- He. by apply in_map.
    - destruct Hnot. rewrite He. by apply in_map.
    - by apply IH. }
  split.
  { intros i Hi. destruct (Hdup i (Hsub i Hi)) as (t & Hin & _).
    apply in_map_iff in Hin as (e & <- & [He _]%filter_In).
    by apply in_map. }
  intros e He. set (t := e_title e).
  assert (In (e_id e) (ids_of l t)) as Hmine.
  { apply in_map_iff. exists e. split; [done|]. apply filter_In.
    split; [done|]. apply String.eqb_refl. }
  destruct (decide (1 < length (ids_of l t))%nat) as [Hlen|Hlen].
  - assert (In (t, ids_of l t) (duplicates (group l))) as Hentry.
    { apply duplicates_In. split; [|done]. apply group_In.
      split; [done|]. by destruct (ids_of l t). }
    apply list_elem_of_In in Hentry. exact (Hkeep _ Hentry).
  - exists (e_id e). split; [done|]. split.
    + intros Hin. destruct (Hdup _ (Hsub _ Hin)) as (t' & Hin' & Hlen').
      by rewrite (Htitle _ _ _ Hmine Hin') in Hlen.
    + intros i Hi Hne'. destruct (ids_of l t) as [|a [|b ids]]; simpl in *.
      * done.
      * destruct Hmine as [Ha|[]], Hi as [Hi|[]]. congruence.
      * lia.
Qed.

End CleanupRun.

Lemma shows_tame args st :
  PyStr.isascii (Sample.lists_and_shows args st).1 = true ∧
  Cleanup.readable (Sample.lists_and_shows args st).1 = true.
Proof.
  unfold Sample.lists_and_shows, Sample.shows.
  destruct (Sample.is_list args); [split; run|]. cbn [fst].
  destruct (PyStr.contains _ _); split; run.
Qed.

Lemma epic_details_sound_witness :
  let r := Cleanup.get_epic_details nat Sample.shows Sample.no_time
             "beads-tui-c3" (Cleanup.mkWorld 0%nat []) in
  Cleanup.log r.2 = [Cleanup.show_cmd "beads-tui-c3"] ∧
  ∃ d, r.1 = Returned d ∧ Cleanup.d_id d = "beads-tui-c3" ∧
       (0 ≤ Cleanup.blocks_count d)%Z.
Proof.
  apply (epic_details_sound nat Sample.shows Sample.no_time "beads-tui-c3"
           (Cleanup.mkWorld 0%nat [])).
  run.
Defined.

Lemma cleanup_commands_witness :
  ∃ to_close w1 w',
    Cleanup.analyze nat Sample.lists_and_shows Sample.no_time
      [("Infra", ["beads-tui-a1"; "beads-tui-c3"])] []
      (Cleanup.mkWorld 1%nat [Cleanup.list_cmd])
    = (Returned to_close, w1) ∧
    Cleanup.main nat Sample.lists_and_shows Sample.no_time
      (Cleanup.mkWorld 0%nat [])
    = (Returned (), w') ∧
    (length to_close + 1 = 2)%nat ∧
    Cleanup.log w'
    = [Cleanup.list_cmd; Cleanup.show_cmd "beads-tui-a1";
       Cleanup.show_cmd "beads-tui-c3"]
      ++ map (λ entry, "bd" :: Cleanup.close_cmd entry) to_close
      ++ [["bd"; "stats"]].
Proof.
  apply (cleanup_commands nat Sample.lists_and_shows Sample.no_time
           (Cleanup.mkWorld 0%nat [])).
  apply shows_tame.
Defined.

Lemma failed_read_closes_nothing_witness :
  ValueError = ValueError ∧
  ∃ shown, shown ≠ [] ∧
    Cleanup.log (Cleanup.main nat Sample.overlong_shows Sample.no_time
                   (Cleanup.mkWorld 0%nat [])).2
    = [] ++ [Cleanup.list_cmd] ++ map Cleanup.show_cmd shown.
Proof.
  apply (failed_read_closes_nothing nat Sample.overlong_shows Sample.no_time
           (Cleanup.mkWorld 0%nat []) ValueError).
  - intros args st. unfold Sample.overlong_shows. cbn [fst].
    destruct (Sample.is_list args); run.
  - run.
Defined.

Lemma one_survivor_per_title_witness :
  ∃ to_close w1,
    Cleanup.analyze nat Sample.lists_and_shows Sample.no_time
      (Cleanup.duplicates (Cleanup.group Sample.listing)) []
      (Cleanup.mkWorld 0%nat [])
    = (Returned to_close, w1) ∧
    (∀ i, In i (map fst to_close) → In i (map Cleanup.e_id Sample.listing)) ∧
    ∀ e, In e Sample.listing →
      ∃ keeper,
        In keeper (Cleanup.ids_of Sample.listing (Cleanup.e_title e)) ∧
        ¬ In keeper (map fst to_close) ∧
        ∀ i, In i (Cleanup.ids_of Sample.listing (Cleanup.e_title e)) →
             i ≠ keeper → In (i, Cleanup.reason keeper) to_close.
Proof.
  apply (one_survivor_per_title nat Sample.lists_and_shows Sample.no_time
           Sample.listing (Cleanup.mkWorld 0%nat [])).
  - apply NoDup_ListNoDup. apply (bool_decide_unpack _). vm_compute.
    reflexivity.
  - apply shows_tame.
Defined.
